(** * upmo: knowledge chat -- text normaliser, analysis pipeline,
      answer engine, URL guard and knowledge store

    A shallow embedding of
      - [src/app/api/pdf-analyze/route.ts]   (module [PdfAnalyze]),
      - the URL extraction route             (module [UrlExtract]),
      - the chat route                       (module [ChatRoute]),
      - [src/app/home/page.tsx]              (module [HomePage]).

    JavaScript strings are sequences of UTF-16 code units, modelled as
    [list Z].  Regular expression literals are kept as data (type [regex])
    and run by a backtracking matcher that follows the ECMAScript
    semantics (greedy quantifiers, captures, look-around with a direction).
    Platform built-ins whose definition is a Unicode table or IEEE
    arithmetic ([String.prototype.normalize], [toLowerCase], the Script
    property, Number conversions, [JSON.parse], the WHATWG URL parser) are
    fields of the [Platform] class.  *)

From Stdlib Require Import ZArith List Bool Lia String Ascii.
From stdpp Require Import base option list gmap.
Import ListNotations.

Local Open Scope Z_scope.
Set Warnings "-register-all".

(** ** JavaScript strings *)

Abbreviation jsstring := (list Z).

Module Utf.

Fixpoint bytes (s : string) : list Z :=
  match s with
  | EmptyString => []
  | String a r => Z.of_N (N_of_ascii a) :: bytes r
  end.

(** UTF-8 decoding of the bytes of a literal into code points. *)
Fixpoint decode (bs : list Z) : list Z :=
  match bs with
  | [] => []
  | b0 :: r0 =>
    if b0 <? 0x80 then b0 :: decode r0
    else
      match r0 with
      | [] => []
      | b1 :: r1 =>
        if b0 <? 0xE0 then ((b0 mod 32) * 64 + b1 mod 64) :: decode r1
        else
          match r1 with
          | [] => []
          | b2 :: r2 =>
            if b0 <? 0xF0
            then ((b0 mod 16) * 4096 + (b1 mod 64) * 64 + b2 mod 64) :: decode r2
            else
              match r2 with
              | [] => []
              | b3 :: r3 =>
                ((b0 mod 8) * 262144 + (b1 mod 64) * 4096
                 + (b2 mod 64) * 64 + b3 mod 64) :: decode r3
              end
          end
      end
  end.

(** UTF-16 encoding of one code point. *)
Definition units (cp : Z) : list Z :=
  if cp <? 0x10000 then [cp]
  else [0xD800 + (cp - 0x10000) / 1024; 0xDC00 + (cp - 0x10000) mod 1024].

Definition utf16 (cps : list Z) : jsstring := flat_map units cps.

End Utf.

(** [js "..."] is the JavaScript string written by the literal. *)
Definition js (s : string) : jsstring := Utf.utf16 (Utf.decode (Utf.bytes s)).

Definition str_eqb (a b : jsstring) : bool := bool_decide (a = b).

(** A string is truthy when it is not empty. *)
Definition truthy (s : jsstring) : bool :=
  match s with [] => false | _ :: _ => true end.

(** [a || b] on strings. *)
Definition or_else (a b : jsstring) : jsstring := if truthy a then a else b.

(** *** Character classes *)

(** The bound comes first in both comparisons, which keeps their normal
    forms on an unknown unit small. *)
Definition in_range (lo hi c : Z) : bool := (lo <=? c) && negb (hi <? c).

(** [\s], also the set removed by [String.prototype.trim]:
    WhiteSpace and LineTerminator of ECMA-262. *)
Definition is_space (c : Z) : bool :=
  in_range 0x09 0x0D c || (c =? 0x20) || (c =? 0xA0) || (c =? 0x1680)
  || in_range 0x2000 0x200A c || (c =? 0x2028) || (c =? 0x2029)
  || (c =? 0x202F) || (c =? 0x205F) || (c =? 0x3000) || (c =? 0xFEFF).

(** [\d] and [[0-9]]. *)
Definition is_digit (c : Z) : bool := in_range 0x30 0x39 c.

Definition is_char (x c : Z) : bool := c =? x.

Definition SPACE : Z := 0x20.

(** *** Built-in string methods *)

Fixpoint drop_while (p : Z -> bool) (s : jsstring) : jsstring :=
  match s with
  | [] => []
  | c :: s' => if p c then drop_while p s' else s
  end.

Definition trimStart (s : jsstring) : jsstring := drop_while is_space s.
Definition trimEnd (s : jsstring) : jsstring := rev (drop_while is_space (rev s)).
Definition trim (s : jsstring) : jsstring := trimEnd (trimStart s).

(** [s.slice(0, n)] for [0 <= n]. *)
Definition slice0 (n : Z) (s : jsstring) : jsstring := firstn (Z.to_nat n) s.

(** [s.slice(a, b)] for [0 <= a] and [0 <= b]. *)
Definition slice (a b : Z) (s : jsstring) : jsstring :=
  firstn (Z.to_nat (b - a)) (skipn (Z.to_nat a) s).

(** [s.length] *)
Definition len (s : jsstring) : Z := Z.of_nat (length s).

Fixpoint startsWith (p s : jsstring) : bool :=
  match p, s with
  | [], _ => true
  | x :: p', y :: s' => (x =? y) && startsWith p' s'
  | _ :: _, [] => false
  end.

Definition endsWith (p s : jsstring) : bool := startsWith (rev p) (rev s).

(** [s.indexOf(t)]: the first index at which [t] occurs, or -1. *)
Fixpoint indexOf (t s : jsstring) : Z :=
  if startsWith t s then 0
  else
    match s with
    | [] => -1
    | _ :: s' => let i := indexOf t s' in if i <? 0 then -1 else i + 1
    end.

Definition includes (t s : jsstring) : bool := 0 <=? indexOf t s.

(** The decimal digits of an integer: [String(n)] on an integer below
    10^21, with the sign. *)
Fixpoint digits_of (fuel : nat) (n : Z) (acc : jsstring) : jsstring :=
  match fuel with
  | O => acc
  | S f =>
    if 10 <=? n then digits_of f (n / 10) ((0x30 + n mod 10) :: acc)
    else (0x30 + n) :: acc
  end.

Definition decimal (n : Z) : jsstring :=
  if 0 <=? n then digits_of (Z.to_nat (Z.log2 n + 1)) n []
  else 0x2D :: digits_of (Z.to_nat (Z.log2 (- n) + 1)) (- n) [].

(** [parts.join(sep)]. *)
Fixpoint join (sep : jsstring) (parts : list jsstring) : jsstring :=
  match parts with
  | [] => []
  | [p] => p
  | p :: rest => p ++ sep ++ join sep rest
  end.

(** [s.split(sep)] for a one-unit separator string: the pieces between
    the occurrences of the separator; the empty string gives one empty
    piece. *)
Fixpoint split_on (sep : Z) (s : jsstring) : list jsstring :=
  match s with
  | [] => [[]]
  | c :: s' =>
    if c =? sep then [] :: split_on sep s'
    else
      match split_on sep s' with
      | [] => [[c]]
      | p :: ps => (c :: p) :: ps
      end
  end.

(** [s.replace(/\s+/g, " ")]: every maximal run of white space becomes one
    space.  [in_run] tells that the unit before was white space, already
    replaced. *)
Fixpoint collapse_from (in_run : bool) (s : jsstring) : jsstring :=
  match s with
  | [] => []
  | c :: s' =>
    if is_space c
    then (if in_run then collapse_from true s' else SPACE :: collapse_from true s')
    else c :: collapse_from false s'
  end.

Definition collapse_ws (s : jsstring) : jsstring := collapse_from false s.

(** *** Code points of a string (the view of a regex with the u flag) *)

Definition is_lead (c : Z) : bool := in_range 0xD800 0xDBFF c.
Definition is_trail (c : Z) : bool := in_range 0xDC00 0xDFFF c.
Definition pair_point (hi lo : Z) : Z := 0x10000 + (hi - 0xD800) * 1024 + (lo - 0xDC00).

(** The code point that starts at the head of [a]: the point, its units
    and the rest. *)
Definition point_fwd (a : jsstring) : option (Z * jsstring * jsstring) :=
  match a with
  | [] => None
  | hi :: a' =>
    match a' with
    | lo :: a'' =>
      if is_lead hi && is_trail lo then Some (pair_point hi lo, [hi; lo], a'')
      else Some (hi, [hi], a')
    | [] => Some (hi, [hi], a')
    end
  end.

(** The code point that ends at the head of the reversed prefix [b]. *)
Definition point_bwd (b : jsstring) : option (Z * jsstring * jsstring) :=
  match b with
  | [] => None
  | lo :: b' =>
    match b' with
    | hi :: b'' =>
      if is_lead hi && is_trail lo then Some (pair_point hi lo, [hi; lo], b'')
      else Some (lo, [lo], b')
    | [] => Some (lo, [lo], b')
    end
  end.

(** ** Regular expressions

    The literals of the program are values of [regex]; [run] is the
    backtracking matcher of ECMA-262 (22.2.2) in continuation-passing
    style.  A match state is a position in the input: the units before it
    (nearest first) and the units after it, with the captures so far. *)

Inductive regex : Type :=
| Eps
| Unit (p : Z -> bool)                       (* a class, or one literal unit *)
| Point (p : Z -> bool)                      (* a class of code points (u flag) *)
| Cat (a b : regex)
| Alt (a b : regex)                          (* a|b *)
| Rep (greedy : bool) (lo : nat) (hi : option nat) (r : regex)
                                             (* r{lo,hi}, or r{lo,hi}? when not greedy *)
| Cap (i : nat) (r : regex)                  (* capturing group number i *)
| Behind (r : regex)                         (* (?<=r) *)
| Ahead (r : regex)                          (* (?=r) *)
| Bol.                                       (* ^ without the m flag *)

Inductive direction := Fwd | Bwd.

Record mstate := MState {
  before : jsstring;
  after : jsstring;
  caps : list (nat * jsstring)
}.

Definition room (d : direction) (x : mstate) : nat :=
  match d with
  | Fwd => length (after x)
  | Bwd => length (before x)
  end.

(** The units between two positions [x] and [y], [y] reached from [x] in
    direction [d]. *)
Definition between (d : direction) (x y : mstate) : jsstring :=
  match d with
  | Fwd => rev (firstn (length (before y) - length (before x)) (before y))
  | Bwd => firstn (length (after y) - length (after x)) (after y)
  end.

Definition set_cap (i : nat) (s : jsstring) (y : mstate) : mstate :=
  MState (before y) (after y) ((i, s) :: caps y).

Definition below (hi : option nat) (n : nat) : bool :=
  match hi with
  | None => true
  | Some h => (n <? h)%nat
  end.

(** The rounds of a quantified sub-expression whose matcher is [body],
    [n] of them done.  One more round is accepted only when it moved the
    position (the empty check of RepeatMatcher; every quantified
    sub-expression of this program consumes at least one unit, so that the
    check never rejects).  [fuel] bounds the number of rounds and starts
    above the room left, which a round that moved decreases. *)
Fixpoint rounds (body : (mstate -> option mstate) -> mstate -> option mstate)
    (d : direction) (greedy : bool) (lo : nat) (hi : option nat)
    (k : mstate -> option mstate) (fuel n : nat) (x : mstate) {struct fuel}
  : option mstate :=
  let stop (_ : unit) := if (lo <=? n)%nat then k x else None in
  match fuel with
  | O => stop tt
  | S fuel' =>
    let more (_ : unit) :=
      if below hi n
      then body (fun y => if (room d y <? room d x)%nat
                          then rounds body d greedy lo hi k fuel' (S n) y
                          else None) x
      else None in
    if greedy
    then match more tt with Some y => Some y | None => stop tt end
    else match stop tt with Some y => Some y | None => more tt end
  end.

Fixpoint run (r : regex) (d : direction) (k : mstate -> option mstate)
    (x : mstate) : option mstate :=
  match r with
  | Eps => k x
  | Unit p =>
    match d with
    | Fwd =>
      match after x with
      | c :: a => if p c then k (MState (c :: before x) a (caps x)) else None
      | [] => None
      end
    | Bwd =>
      match before x with
      | c :: b => if p c then k (MState b (c :: after x) (caps x)) else None
      | [] => None
      end
    end
  | Point p =>
    match d with
    | Fwd =>
      match point_fwd (after x) with
      | Some (cp, us, a) =>
        if p cp then k (MState (rev us ++ before x) a (caps x)) else None
      | None => None
      end
    | Bwd =>
      match point_bwd (before x) with
      | Some (cp, us, b) =>
        if p cp then k (MState b (us ++ after x) (caps x)) else None
      | None => None
      end
    end
  | Cat a b =>
    match d with
    | Fwd => run a d (run b d k) x
    | Bwd => run b d (run a d k) x
    end
  | Alt a b =>
    match run a d k x with
    | Some y => Some y
    | None => run b d k x
    end
  | Rep greedy lo hi r' =>
    rounds (run r' d) d greedy lo hi k (S (room d x)) 0%nat x
  | Cap i r' => run r' d (fun y => k (set_cap i (between d x y) y)) x
  | Behind r' =>
    match run r' Bwd Some x with
    | Some y => k (MState (before x) (after x) (caps y))
    | None => None
    end
  | Ahead r' =>
    match run r' Fwd Some x with
    | Some y => k (MState (before x) (after x) (caps y))
    | None => None
    end
  | Bol =>
    match before x with
    | [] => k x
    | _ :: _ => None
    end
  end.

(** The one code unit of a one-character literal. *)
Definition unit_of (s : string) : Z := hd 0 (js s).

(** Regex builders. *)
Definition seq (rs : list regex) : regex := fold_right Cat Eps rs.
Definition lit (s : jsstring) : regex := seq (map (fun c => Unit (is_char c)) s).
Definition star (r : regex) : regex := Rep true 0 None r.
Definition plus (r : regex) : regex := Rep true 1 None r.
Definition opt (r : regex) : regex := Rep true 0 (Some 1%nat) r.
Definition times (lo hi : nat) (r : regex) : regex := Rep true lo (Some hi) r.
Definition star_lazy (r : regex) : regex := Rep false 0 None r.
Definition any_unit : regex := Unit (fun _ => true).        (* [\s\S] *)
Definition chr (s : string) : regex := Unit (is_char (unit_of s)).
(** A letter under the i flag: the unit or its other case. *)
Definition ichr (s : string) : regex :=
  Unit (fun c => (c =? unit_of s) || (c =? unit_of s - 0x20)).
Fixpoint letters (s : string) : list string :=
  match s with
  | EmptyString => []
  | String a r => String a EmptyString :: letters r
  end.
Definition ilit (s : string) : regex := seq (map ichr (letters s)).

(** A match: where it starts, where it ends and what it captured. *)
Record rmatch := RMatch {
  m_before : jsstring;      (* the input before the match, nearest first *)
  m_end : mstate            (* the position after the match *)
}.

Definition m_text (m : rmatch) : jsstring :=
  rev (firstn (length (before (m_end m)) - length (m_before m)) (before (m_end m))).

(** [match[i]]; a group that did not take part is [undefined], here [None]. *)
Definition m_group (i : nat) (m : rmatch) : option jsstring :=
  snd <$> List.find (fun e => Nat.eqb (fst e) i) (caps (m_end m)).

(** The match at one position. *)
Definition match_at (r : regex) (b a : jsstring) : option rmatch :=
  match run r Fwd Some (MState b a []) with
  | Some y => Some (RMatch b y)
  | None => None
  end.

(** The first match at or after a position ([lastIndex] for a global
    regex). *)
Fixpoint search (r : regex) (b a : jsstring) : option rmatch :=
  match match_at r b a with
  | Some m => Some m
  | None =>
    match a with
    | [] => None
    | c :: a' => search r (c :: b) a'
    end
  end.

(** [r.test(s)] for a regex without the g flag. *)
Definition test (r : regex) (s : jsstring) : bool :=
  match search r [] s with Some _ => true | None => false end.

(** The matches that [let m = r.exec(s); while (m) { ...; m = r.exec(s) }]
    visits for a global regex [r].  An empty match leaves [lastIndex] in
    place and the loop never ends: that is [None]. *)
Fixpoint exec_loop (fuel : nat) (r : regex) (b a : jsstring) : option (list rmatch) :=
  match fuel with
  | O => None
  | S fuel' =>
    match search r b a with
    | None => Some []
    | Some m =>
      if (length (after (m_end m)) <? length a)%nat
      then cons m <$> exec_loop fuel' r (before (m_end m)) (after (m_end m))
      else None
    end
  end.

Definition exec_all (r : regex) (s : jsstring) : option (list rmatch) :=
  exec_loop (S (length s)) r [] s.

(** ** JSON values and the platform *)

(** What [JSON.parse] returns; the members of an object in the order of the
    text (a later member of the same name wins). *)
Inductive json (num : Type) : Type :=
| JNull
| JBool (b : bool)
| JNum (n : num)
| JStr (s : jsstring)
| JArr (items : list (json num))
| JObj (members : list (jsstring * json num)).

Arguments JNull {num}.
Arguments JBool {num} b.
Arguments JNum {num} n.
Arguments JStr {num} s.
Arguments JArr {num} items.
Arguments JObj {num} members.

(** A parsed URL: the [protocol], [hostname] and [href] of a WHATWG URL. *)
Record url := Url {
  protocol : jsstring;
  hostname : jsstring;
  href : jsstring
}.

Class Platform := {
  (** IEEE doubles, the values of type [number] *)
  number : Type;
  (** [Number(s)] on a string *)
  Number_of_string : jsstring -> number;
  (** [String(n)], also [`${n}`] *)
  string_of_number : number -> jsstring;
  (** [n.toLocaleString("ja-JP")] *)
  toLocaleString_jaJP : number -> jsstring;
  (** [Number.isFinite(n)]: what [JSON.stringify] keeps as a number *)
  number_isFinite : number -> bool;
  (** [s.normalize("NFKC")] *)
  normalize_NFKC : jsstring -> jsstring;
  (** [s.toLowerCase()] *)
  toLowerCase : jsstring -> jsstring;
  (** the code point is in Script=Han, Hiragana or Katakana *)
  script_cjk : Z -> bool;
  (** [JSON.parse(s)], [None] when it throws *)
  JSON_parse : jsstring -> option (json number);
  (** [new URL(s)], [None] when it throws *)
  URL_parse : jsstring -> option url
}.

Section JsonAccess.
Context {num : Type}.

(** [v.key] on a value that is not null: the own member of an object;
    [None] is [undefined].  The program reads only [summary], [plans],
    [name], [priceMonthlyYen], [note], [fileName], [text] and [url],
    which no prototype defines. *)
Definition prop (key : jsstring) (v : json num) : option (json num) :=
  match v with
  | JObj members =>
    snd <$> List.find (fun e => str_eqb (fst e) key) (rev members)
  | _ => None
  end.

(** [x ?? d]. *)
Definition nullish (x : option (json num)) (d : json num) : json num :=
  match x with
  | None | Some JNull => d
  | Some v => v
  end.

Definition has_member (key : jsstring) (members : list (jsstring * json num)) : bool :=
  existsb (fun e => str_eqb (fst e) key) members.

Variable string_of_num : num -> jsstring.

(** [String(v)]; [None] when it throws: an object with an own member
    [toString] has no callable conversion left (the member shadows
    [Object.prototype.toString], and [valueOf] does not give a
    primitive). *)
Fixpoint String_of (v : json num) : option jsstring :=
  match v with
  | JNull => Some (js "null")
  | JBool b => Some (if b then js "true" else js "false")
  | JNum n => Some (string_of_num n)
  | JStr s => Some s
  | JArr items =>
    (fix elems (l : list (json num)) : option (list jsstring) :=
       match l with
       | [] => Some []
       | e :: l' =>
         match (match e with JNull => Some [] | _ => String_of e end), elems l' with
         | Some s, Some ss => Some (s :: ss)
         | _, _ => None
         end
       end) items
    ≫= fun parts => Some (join (js ",") parts)
  | JObj members =>
    if has_member (js "toString") members then None
    else Some (js "[object Object]")
  end.

End JsonAccess.

(** The same for a regex with the u flag: after a failure the search
    steps over a whole code point. *)
Fixpoint search_u (r : regex) (b a : jsstring) : option rmatch :=
  match match_at r b a with
  | Some m => Some m
  | None =>
    match a with
    | [] => None
    | c :: a' =>
      match a' with
      | c' :: a'' =>
        if is_lead c && is_trail c' then search_u r (c' :: c :: b) a''
        else search_u r (c :: b) a'
      | [] => search_u r (c :: b) a'
      end
    end
  end.

(** The units of the input between position [b] and the start of [m]. *)
Definition skipped (b : jsstring) (m : rmatch) : jsstring :=
  rev (firstn (length (m_before m) - length b) (m_before m)).

(** [s.replace(r, rep)] for a global regex [r] and a replacement without
    [$]: the text between the matches is kept, every match becomes
    [rep]; after an empty match the search restarts one unit further.
    [find] is [search] or [search_u]. *)
Fixpoint replace_loop (find : jsstring -> jsstring -> option rmatch)
    (fuel : nat) (rep b a : jsstring) : jsstring :=
  match fuel with
  | O => a
  | S fuel' =>
    match find b a with
    | None => a
    | Some m =>
      let y := m_end m in
      skipped b m ++ rep ++
        (if (length (m_before m) <? length (before y))%nat
         then replace_loop find fuel' rep (before y) (after y)
         else
           match after y with
           | [] => []
           | c :: a' => c :: replace_loop find fuel' rep (c :: before y) a'
           end)
    end
  end.

Definition replace_all (r : regex) (rep s : jsstring) : jsstring :=
  replace_loop (search r) (S (length s)) rep [] s.

Definition replace_all_u (r : regex) (rep s : jsstring) : jsstring :=
  replace_loop (search_u r) (S (length s)) rep [] s.

(** [s.split(r)] for a regex [r] that matches only the empty string (a
    look-around), after SplitMatcher of ECMA-262: the string is cut at
    every position inside it where [r] matches. *)
Fixpoint split_loop (r : regex) (b a piece : jsstring) : list jsstring :=
  match a with
  | [] => [rev piece]
  | c :: a' =>
    match a' with
    | [] => [rev (c :: piece)]
    | _ :: _ =>
      match match_at r (c :: b) a' with
      | Some _ => rev (c :: piece) :: split_loop r (c :: b) a' []
      | None => split_loop r (c :: b) a' (c :: piece)
      end
    end
  end.

Definition split_at (r : regex) (s : jsstring) : list jsstring :=
  match s with
  | [] => match match_at r [] [] with Some _ => [] | None => [[]] end
  | _ :: _ => split_loop r [] s []
  end.

(** ** Shared data: pricing plans *)

Module Plan.
Record PricingPlan `{Platform} := Make {
  name : jsstring;
  priceMonthlyYen : option number;      (* number | null *)
  note : jsstring
}.
Arguments Make {_} name priceMonthlyYen note.
End Plan.
Abbreviation PricingPlan := Plan.PricingPlan.

(** A [Map] with string keys: the entries in insertion order. *)
Section JsMap.
Context {V : Type}.

Definition map_has (key : jsstring) (m : list (jsstring * V)) : bool :=
  existsb (fun e => str_eqb (fst e) key) m.

(** [m.set(key, v)]: a new key goes last, a known key keeps its place and
    takes the new value. *)
Fixpoint map_set (key : jsstring) (v : V) (m : list (jsstring * V)) : list (jsstring * V) :=
  match m with
  | [] => [(key, v)]
  | (k', v') :: m' =>
    if str_eqb k' key then (k', v) :: m' else (k', v') :: map_set key v m'
  end.

(** [Array.from(m.values())]. *)
Definition map_values (m : list (jsstring * V)) : list V := map snd m.

(** [new Map(entries)]. *)
Definition map_of (entries : list (jsstring * V)) : list (jsstring * V) :=
  fold_left (fun m e => map_set (fst e) (snd e) m) entries [].
End JsMap.

(** The Han, Hiragana and Katakana class of the two normalisers, and the
    regex they remove:
    [/(?<=[\p{Script=Han}\p{Script=Hiragana}\p{Script=Katakana}])\s+(?=[\p{Script=Han}\p{Script=Hiragana}\p{Script=Katakana}])/gu] *)
Definition cjk_gap `{Platform} : regex :=
  seq [Behind (Point script_cjk); plus (Unit is_space); Ahead (Point script_cjk)].

(** [/\s+/g] *)
Definition ws_run : regex := plus (Unit is_space).

(** ** The model service

    The body of a reply of [https://api.openai.com/v1/responses] as both
    routes type it, and what [fetch] gives. *)

Module Responses.
Record content_part := { part_text : option jsstring }.
Record output_item := { content : option (list content_part) }.
Record response_data := {
output_text : option jsstring;
output : option (list output_item)
}.

Inductive fetch_result :=
| FetchRejects                                    (* [fetch] throws *)
| FetchResponse (ok : bool) (data : option response_data).
                                 (* [data = None]: [response.json()] throws *)

(** [data.output_text ?? data.output?.flatMap(...).map(...).join(empty) ?? empty] *)
Definition outputText_of (data : response_data) : jsstring :=
match output_text data with
| Some s => s
| None =>
  match output data with
  | Some items =>
    concat (map (fun c => default [] (part_text c))
              (flat_map (fun item => default [] (content item)) items))
  | None => []
  end
end.

End Responses.

(** ** The analysis route, [src/app/api/pdf-analyze/route.ts] *)

Module PdfAnalyze.
Section Route.
Context `{Platform}.

Record AnalyzeResult := {
  summary : jsstring;
  plans : list PricingPlan
}.

Definition sanitizeText (value : jsstring) : jsstring :=
  trim (replace_all ws_run (js " ")
          (replace_all_u cjk_gap [] (normalize_NFKC value))).

Definition NO_SUMMARY : jsstring := js "概要を抽出できませんでした。".

(** [[A-Za-zぁ-んァ-ヶ一-龠ー・\s]] *)
Definition name_unit (c : Z) : bool :=
  in_range (unit_of "A") (unit_of "Z") c
  || in_range (unit_of "a") (unit_of "z") c
  || in_range (unit_of "ぁ") (unit_of "ん") c
  || in_range (unit_of "ァ") (unit_of "ヶ") c
  || in_range (unit_of "一") (unit_of "龠") c
  || (c =? unit_of "ー") || (c =? unit_of "・") || is_space c.

(** The regex literal of [fallbackAnalyze], flag g:
    [([A-Za-zぁ-んァ-ヶ一-龠ー・\s]{1,20})]  group 1, the name
    [\s*]
    [([0-9]{2,6}(?:,[0-9]{3})*]
    [)]                                     group 2, the amount
    [\s*円\s*\/?\s*月] *)
Definition planRegex : regex :=
  seq [ Cap 1 (times 1 20 (Unit name_unit));
        star (Unit is_space);
        Cap 2 (seq [ times 2 6 (Unit is_digit);
                     star (seq [chr ","; times 3 3 (Unit is_digit)]) ]);
        star (Unit is_space);
        chr "円";
        star (Unit is_space);
        opt (chr "/");
        star (Unit is_space);
        chr "月" ].

(** [s.replace(/,/g, empty)] *)
Definition strip_commas (s : jsstring) : jsstring :=
  replace_all (chr ",") [] s.

(** One round of the [while (match)] loop. *)
Definition add_plan (plansMap : list (jsstring * PricingPlan)) (m : rmatch)
  : list (jsstring * PricingPlan) :=
  let name := replace_all ws_run (js " ") (trim (default [] (m_group 1 m))) in
  let priceMonthlyYen := Number_of_string (strip_commas (default [] (m_group 2 m))) in
  let key := name ++ js "-" ++ string_of_number priceMonthlyYen in
  if negb (map_has key plansMap)
  then map_set key (Plan.Make (or_else name (js "プラン")) (Some priceMonthlyYen) []) plansMap
  else plansMap.

(** [None]: the loop does not end (it does, see [fallbackAnalyze_total]). *)
Definition fallbackAnalyze (text : jsstring) : option AnalyzeResult :=
  let normalized := sanitizeText text in
  let summary := or_else (slice0 180 normalized) NO_SUMMARY in
  matches ← exec_all planRegex normalized;
  let plansMap := fold_left add_plan matches [] in
  Some {| summary := summary; plans := firstn 8 (map_values plansMap) |}.

(** One element of [parsed.plans.map(...)]; [None] when it throws (the
    element is null, or a [String(...)] conversion throws). *)
Definition plan_of_json (plan : json number) : option PricingPlan :=
  match plan with
  | JNull => None
  | _ =>
    name ← String_of string_of_number (nullish (prop (js "name") plan) (JStr []));
    note ← String_of string_of_number (nullish (prop (js "note") plan) (JStr []));
    Some (Plan.Make (trim name)
            (match prop (js "priceMonthlyYen") plan with
             | Some (JNum n) => Some n
             | _ => None
             end)
            (trim note))
  end.

Definition has_name (plan : PricingPlan) : bool :=
  (0 <? length (Plan.name plan))%nat.

(** [null], also from the [catch], is [None]. *)
Definition safeParseAnalyze (raw : jsstring) : option AnalyzeResult :=
  parsed ← JSON_parse raw;
  match prop (js "summary") parsed, prop (js "plans") parsed with
  | Some (JStr s), Some (JArr items) =>
    plans ← mapM plan_of_json items;
    Some {| summary := trim s; plans := List.filter has_name plans |}
  | _, _ => None
  end.

(** *** The handler *)

Record Env := {
  OPENAI_API_KEY : option jsstring;
  OPENAI_MODEL : option jsstring;
  (** the model service: the key, the model and the prompt it is sent *)
  fetch_responses : jsstring -> jsstring -> jsstring -> Responses.fetch_result
}.

Inductive payload :=
| ErrorBody (error : jsstring)
| AnalyzeBody (result : AnalyzeResult).

Record response := { status : Z; body : payload }.

Definition NL : jsstring := [0x0A].
Definition DQ : jsstring := [0x22].

Definition prompt_of (fileName text : jsstring) : jsstring :=
  join NL
    [ js "以下は「" ++ fileName ++ js "」の抽出テキストです。";
      js "次のJSONだけを返してください。説明文は不要です。";
      js "{ " ++ DQ ++ js "summary" ++ DQ ++ js ": " ++ DQ
        ++ js "200文字以内の日本語要約" ++ DQ ++ js ", " ++ DQ ++ js "plans" ++ DQ
        ++ js ": [{ " ++ DQ ++ js "name" ++ DQ ++ js ": " ++ DQ ++ js "プラン名" ++ DQ
        ++ js ", " ++ DQ ++ js "priceMonthlyYen" ++ DQ ++ js ": 30000, " ++ DQ
        ++ js "note" ++ DQ ++ js ": " ++ DQ ++ js "補足" ++ DQ ++ js " }] }";
      js "priceMonthlyYen は月額料金が不明なら null。";
      js "plans は重複なし。最大8件。";
      [];
      slice0 22000 text ].

(** [/\{[\s\S]*\}/] *)
Definition jsonLikeRegex : regex :=
  seq [chr "{"; star any_unit; chr "}"].

Definition ok200 (r : AnalyzeResult) : response :=
  {| status := 200; body := AnalyzeBody r |}.

(** The [catch] of the handler. *)
Definition failed : response :=
  ok200 {| summary := NO_SUMMARY; plans := [] |}.

(** [request_json] is [await request.json()], [None] when it throws.
    The result is [None] when the handler does not return. *)
Definition POST (env : Env) (request_json : option (json number)) : option response :=
  match request_json with
  | None | Some JNull => Some failed
  | Some body =>
    let fileName := nullish (prop (js "fileName") body) (JStr (js "PDF")) in
    match nullish (prop (js "text") body) (JStr []) with
    | JStr raw =>
      let text := sanitizeText raw in
      if negb (truthy text)
      then Some {| status := 400; body := ErrorBody (js "text is required") |}
      else
        match OPENAI_API_KEY env with
        | None | Some [] => ok200 <$> fallbackAnalyze text
        | Some apiKey =>
          let model := default (js "gpt-4o-mini") (OPENAI_MODEL env) in
          match String_of string_of_number fileName with
          | None => Some failed
          | Some fileName' =>
            match fetch_responses env apiKey model (prompt_of fileName' text) with
            | Responses.FetchRejects => Some failed
            | Responses.FetchResponse false _ => ok200 <$> fallbackAnalyze text
            | Responses.FetchResponse true None => Some failed
            | Responses.FetchResponse true (Some data) =>
              let outputText := Responses.outputText_of data in
              match safeParseAnalyze outputText with
              | Some direct => Some (ok200 direct)
              | None =>
                match
                  (m ← search jsonLikeRegex [] outputText;
                   let jsonLike := m_text m in
                   if truthy jsonLike then safeParseAnalyze jsonLike else None)
                with
                | Some recovered => Some (ok200 recovered)
                | None => ok200 <$> fallbackAnalyze text
                end
              end
            end
          end
        end
    | _ => Some failed
    end
  end.
End Route.
End PdfAnalyze.

(** ** The URL extraction route *)

Module UrlExtract.
Section Route.
Context `{Platform}.

Record ExtractResult := {
  title : jsstring;
  text : jsstring
}.

(** [/^172\.(1[6-9]|2\d|3[0-1])\./] *)
Definition private172 : regex :=
  seq [ Bol; lit (js "172"); chr ".";
        Alt (seq [chr "1"; Unit (in_range (unit_of "6") (unit_of "9"))])
          (Alt (seq [chr "2"; Unit is_digit])
             (seq [chr "3"; Unit (in_range (unit_of "0") (unit_of "1"))]));
        chr "." ].

Definition isPrivateHostname (hostname : jsstring) : bool :=
  let host := toLowerCase hostname in
  if str_eqb host (js "localhost") then true
  else if endsWith (js ".local") host then true
  else if str_eqb host (js "0.0.0.0") || startsWith (js "127.") host then true
  else if startsWith (js "10.") host then true
  else if startsWith (js "192.168.") host then true
  else if test private172 host then true
  else false.

Definition sanitizeText (value : jsstring) : jsstring :=
  trim (replace_all ws_run (js " ") (normalize_NFKC value)).

(** [/<tag[\s\S]*?<\/tag>/gi] *)
Definition block (tag : string) : regex :=
  seq [chr "<"; ilit tag; star_lazy any_unit; chr "<"; chr "/"; ilit tag; chr ">"].

(** [/<[^>]+>/g] *)
Definition anyTag : regex :=
  seq [chr "<"; plus (Unit (fun c => negb (c =? unit_of ">"))); chr ">"].

Definition htmlToText (html : jsstring) : jsstring :=
  sanitizeText
    (replace_all (lit (js "&#39;")) (js "'")
    (replace_all (seq [chr "&"; ilit "quot"; chr ";"]) [0x22]
    (replace_all (seq [chr "&"; ilit "gt"; chr ";"]) (js ">")
    (replace_all (seq [chr "&"; ilit "lt"; chr ";"]) (js "<")
    (replace_all (seq [chr "&"; ilit "amp"; chr ";"]) (js "&")
    (replace_all (seq [chr "&"; ilit "nbsp"; chr ";"]) (js " ")
    (replace_all anyTag (js " ")
    (replace_all (block "svg") (js " ")
    (replace_all (block "noscript") (js " ")
    (replace_all (block "style") (js " ")
    (replace_all (block "script") (js " ") html))))))))))).

(** [/<title[^>]*>([\s\S]*?)<\/title>/i] *)
Definition titleRegex : regex :=
  seq [ chr "<"; ilit "title";
        star (Unit (fun c => negb (c =? unit_of ">"))); chr ">";
        Cap 1 (star_lazy any_unit);
        chr "<"; chr "/"; ilit "title"; chr ">" ].

Definition extractTitle (html fallback : jsstring) : jsstring :=
  let title :=
    match search titleRegex [] html with
    | Some m => default fallback (m_group 1 m)
    | None => fallback
    end in
  or_else (slice0 120 (sanitizeText title)) fallback.

(** *** The handler *)

Inductive fetch_result :=
| FetchRejects
| FetchResponse (ok : bool) (http_status : Z) (contentType : option jsstring)
    (text : option jsstring).          (* [None]: [response.text()] throws *)

Inductive payload :=
| ErrorBody (error : jsstring)
| ExtractBody (result : ExtractResult).

Record response := { status : Z; body : payload }.

Definition error (code : Z) (msg : jsstring) : response :=
  {| status := code; body := ErrorBody msg |}.

(** The handler with the list of the URLs it fetched.  [fetch] is the
    network: what a GET of the URL gives. *)
Definition POST (fetch : jsstring -> fetch_result) (request_json : option (json number))
  : response * list jsstring :=
  let failed := error 500 (js "extract failed") in
  match request_json with
  | None | Some JNull => (failed, [])
  | Some body =>
    match String_of string_of_number (nullish (prop (js "url") body) (JStr [])) with
    | None => (failed, [])
    | Some s =>
      let rawUrl := trim s in
      if negb (truthy rawUrl) then (error 400 (js "url is required"), [])
      else
        match URL_parse rawUrl with
        | None => (failed, [])
        | Some parsed =>
          if negb (str_eqb (protocol parsed) (js "http:")
                   || str_eqb (protocol parsed) (js "https:"))
          then (error 400 (js "http/https only"), [])
          else if isPrivateHostname (hostname parsed)
          then (error 400 (js "private host is not allowed"), [])
          else
            let fetched := [href parsed] in
            match fetch (href parsed) with
            | FetchRejects => (failed, fetched)
            | FetchResponse ok code contentType page =>
              if negb ok
              then (error 400 (js "fetch failed: " ++ decimal code), fetched)
              else if negb (includes (js "text/html") (default [] contentType))
              then (error 400 (js "html page only"), fetched)
              else
                match page with
                | None => (failed, fetched)
                | Some html =>
                  ({| status := 200;
                      body := ExtractBody
                                {| title := extractTitle html (hostname parsed);
                                   text := slice0 50000 (htmlToText html) |} |},
                   fetched)
                end
            end
        end
    end
  end.

End Route.
End UrlExtract.

(** ** The chat route *)

Module ChatRoute.
Section Route.
Context `{Platform}.

Record SourceInput := {
  name : jsstring;
  text : option jsstring;
  summary : option jsstring;
  pricingPlans : option (list PricingPlan)
}.

(** The body of the request, as the handler types it. *)
Record Request := {
  question : option jsstring;
  selectedSourceName : option jsstring;
  sources : option (list SourceInput)
}.

Definition compact (text : jsstring) : jsstring :=
  trim (replace_all ws_run (js " ") text).

Definition NONE : jsstring := js "なし".

Definition plan_line (plan : PricingPlan) : jsstring :=
  let amount :=
    match Plan.priceMonthlyYen plan with
    | Some n => string_of_number n ++ js "円/月"
    | None => js "価格不明"
    end in
  Plan.name plan ++ js ": " ++ amount
    ++ (if truthy (Plan.note plan) then js " (" ++ Plan.note plan ++ js ")" else []).

Definition source_block (idx : Z) (source : SourceInput) : jsstring :=
  let plans :=
    match pricingPlans source with
    | Some ((_ :: _) as ps) => join (js " / ") (map plan_line ps)
    | _ => NONE
    end in
  join [0x0A]
    [ js "## Source " ++ decimal (idx + 1) ++ js ": " ++ name source;
      js "Summary: " ++ or_else (slice0 350 (compact (default [] (summary source)))) NONE;
      js "Pricing: " ++ plans;
      js "Text: " ++ or_else (slice0 1800 (compact (default [] (text source)))) NONE ].

Fixpoint map_idx {A B} (f : Z -> A -> B) (i : Z) (l : list A) : list B :=
  match l with
  | [] => []
  | a :: l' => f i a :: map_idx f (i + 1) l'
  end.

Definition buildContext (sources : list SourceInput) : jsstring :=
  join [0x0A; 0x0A] (map_idx source_block 0 (firstn 5 sources)).

Record Env := {
  OPENAI_API_KEY : option jsstring;
  OPENAI_MODEL : option jsstring;
  fetch_responses : jsstring -> jsstring -> jsstring -> Responses.fetch_result
}.

Inductive payload :=
| ErrorBody (error : jsstring)
| AnswerBody (answer : jsstring).

Record response := { status : Z; body : payload }.

Definition FAILED : jsstring := js "回答生成に失敗しました。".

Definition prompt_of (question : jsstring) (selectedSourceName : option jsstring)
    (context : jsstring) : jsstring :=
  join [0x0A]
    [ js "あなたは社内ナレッジアシスタントです。";
      js "基本は与えられたナレッジを根拠に回答しつつ、質問が一般論や作成依頼の場合は実務的な提案や雛形を追加してください。";
      js "不明な事実は断定しないでください。";
      match selectedSourceName with
      | Some ((_ :: _) as n) => js "現在選択中のナレッジ: " ++ n
      | _ => js "選択中ナレッジ: なし"
      end;
      [];
      js "利用可能ナレッジ:";
      or_else context NONE;
      [];
      js "ユーザー質問: " ++ question ].

(** [request_json] is [await request.json()], [None] when it throws. *)
Definition POST (env : Env) (request_json : option Request) : response :=
  match request_json with
  | None => {| status := 200; body := AnswerBody FAILED |}
  | Some body =>
    let question := trim (default [] (question body)) in
    let sources := default [] (sources body) in
    let selectedSourceName := selectedSourceName body in
    if negb (truthy question)
    then {| status := 400; body := ErrorBody (js "question is required") |}
    else
      match OPENAI_API_KEY env with
      | None | Some [] =>
        {| status := 200;
           body := AnswerBody (js "OPENAI_API_KEY が未設定のため、拡張回答を生成できません。設定後に再試行してください。") |}
      | Some apiKey =>
        let model := default (js "gpt-4o-mini") (OPENAI_MODEL env) in
        let context := buildContext sources in
        match fetch_responses env apiKey model
                (prompt_of question selectedSourceName context) with
        | Responses.FetchRejects => {| status := 200; body := AnswerBody FAILED |}
        | Responses.FetchResponse false _ => {| status := 200; body := AnswerBody FAILED |}
        | Responses.FetchResponse true None => {| status := 200; body := AnswerBody FAILED |}
        | Responses.FetchResponse true (Some data) =>
          {| status := 200;
             body := AnswerBody
                       (or_else (trim (Responses.outputText_of data))
                          (js "回答を生成できませんでした。")) |}
        end
    end
  end.

End Route.
End ChatRoute.

(** ** The home page, [src/app/home/page.tsx] *)

Module Source.
Record SourceItem `{Platform} := Make {
  id : jsstring;
  name : jsstring;
  text : jsstring;
  summary : option jsstring;
  pricingPlans : option (list PricingPlan);
  storagePath : option jsstring;
  inheritedFromDocumentId : option jsstring;
  createdAt : option Z
}.
Arguments Make {_} id name text summary pricingPlans storagePath
  inheritedFromDocumentId createdAt.
End Source.
Abbreviation SourceItem := Source.SourceItem.

(** What the page keeps in the document database, and the blob store. *)
Module Doc.
(** A document of a [documents] collection. *)
Record DocData `{Platform} := Make {
  name : jsstring;
  text : jsstring;
  summary : jsstring;
  pricingPlans : list PricingPlan;
  storagePath : jsstring;
  downloadURL : option jsstring;
  sourceType : option jsstring;
  inheritedFromDocumentId : option jsstring;
  createdAt : Z;
  updatedAt : Z
}.
Arguments Make {_} name text summary pricingPlans storagePath downloadURL
  sourceType inheritedFromDocumentId createdAt updatedAt.
End Doc.

Module Thread.
Inductive scope := personal | team.
(** A document of [users/{uid}/chats]. *)
Record ChatData := Make {
  scopeType : scope;
  teamId : jsstring;
  teamName : jsstring;
  createdAt : Z;
  updatedAt : Z
}.
End Thread.

Module Message.
Inductive sender_t := user | assistant.
(** A document of a [messages] collection. *)
Record MessageData := Make {
  sender : sender_t;
  text : jsstring;
  createdAt : Z
}.
End Message.

Module Team.
Record TeamItem := Make {
  id : jsstring;
  name : jsstring;
  memberUids : list jsstring
}.
End Team.

Module HomePage.
Section Page.
Context `{Platform}.

Definition normalizeText (value : jsstring) : jsstring :=
  trim (replace_all ws_run (js " ") (toLowerCase value)).

Definition sanitizeExtractedText (value : jsstring) : jsstring :=
  let normalized := normalize_NFKC value in
  trim (replace_all ws_run (js " ") (replace_all_u cjk_gap [] normalized)).

(** [円\s*\/?\s*月] *)
Definition yen_per_month : list regex :=
  [chr "円"; star (Unit is_space); opt (chr "/"); star (Unit is_space); chr "月"].

(** [/(?<=円\s*\/?\s*月)/g] *)
Definition afterPrice : regex := Behind (seq yen_per_month).

(** [/([0-9]{1,3}(?:,[0-9]{3})+|[0-9]{2,6})\s*円\s*\/?\s*月/] *)
Definition priceLike : regex :=
  seq (Cap 1 (Alt (seq [times 1 3 (Unit is_digit);
                        plus (seq [chr ","; times 3 3 (Unit is_digit)])])
                (times 2 6 (Unit is_digit)))
       :: star (Unit is_space) :: yen_per_month).

(** [Array.from(new Set(l))]: the first occurrence of every string. *)
Definition unique (l : list jsstring) : list jsstring :=
  fold_left (fun seen s => if existsb (str_eqb s) seen then seen else seen ++ [s]) l [].

Definition extractPriceLines (text : jsstring) : list jsstring :=
  let lines :=
    List.filter truthy (map trim (split_at afterPrice (sanitizeExtractedText text))) in
  let priceLike := List.filter (test priceLike) lines in
  firstn 5 (unique priceLike).

Definition UPLOAD_FIRST : jsstring := js "先にPDFをアップロードしてください。".
Definition NO_TEXT : jsstring := js "回答に使えるテキストを見つけられませんでした。".
Definition PRICE_HEADER : jsstring := js "料金情報:" ++ [0x0A].

(** [/料金|価格|費用|プラン|月額|値段/] *)
Definition priceIntent : regex :=
  Alt (lit (js "料金")) (Alt (lit (js "価格")) (Alt (lit (js "費用"))
    (Alt (lit (js "プラン")) (Alt (lit (js "月額")) (lit (js "値段")))))).

Definition plan_key (plan : PricingPlan) : jsstring :=
  Plan.name plan ++ js "-"
    ++ match Plan.priceMonthlyYen plan with
       | Some n => string_of_number n
       | None => js "null"
       end.

Definition price_line (plan : PricingPlan) : jsstring :=
  let amount :=
    match Plan.priceMonthlyYen plan with
    | Some n => toLocaleString_jaJP n ++ js "円/月"
    | None => js "価格不明"
    end in
  Plan.name plan ++ js ": " ++ amount
    ++ (if truthy (Plan.note plan) then js "（" ++ Plan.note plan ++ js "）" else []).

(** The inner loop [for (const token of tokens)]: the score and the
    index of the earliest hit, -1 without a hit. *)
Definition hit (normalizedSource : jsstring) (acc : Z * Z) (token : jsstring) : Z * Z :=
  let '(score, firstHitIndex) := acc in
  let index := indexOf token normalizedSource in
  if 0 <=? index
  then (score + 1,
        if (firstHitIndex <? 0) || (index <? firstHitIndex) then index else firstHitIndex)
  else (score, firstHitIndex).

Definition score_of (tokens : list jsstring) (normalizedSource : jsstring) : Z * Z :=
  fold_left (hit normalizedSource) tokens (0, -1).

Record Best := {
  bestSource : option SourceItem;
  bestScore : Z;
  bestSnippet : jsstring
}.

(** One round of [for (const source of sources)]. *)
Definition consider (tokens : list jsstring) (best : Best) (source : SourceItem) : Best :=
  let normalizedSource := normalizeText (Source.text source) in
  if negb (truthy normalizedSource) then best
  else
    let '(score, firstHitIndex) := score_of tokens normalizedSource in
    if bestScore best <? score
    then
      {| bestSource := Some source;
         bestScore := score;
         bestSnippet :=
           if 0 <=? firstHitIndex
           then
             let start := Z.max 0 (firstHitIndex - 80) in
             let end_ := Z.min (len (Source.text source)) (firstHitIndex + 220) in
             trim (replace_all ws_run (js " ") (slice start end_ (Source.text source)))
           else
             trim (replace_all ws_run (js " ") (slice0 220 (Source.text source))) |}
    else best.

Definition select (tokens : list jsstring) (sources : list SourceItem) : Best :=
  fold_left (consider tokens) sources
    {| bestSource := None; bestScore := -1; bestSnippet := [] |}.

Definition tokens_of (question : jsstring) : list jsstring :=
  List.filter (fun token => 2 <=? len token)
    (map trim (split_on SPACE (normalizeText question))).

(** The lines of the structured plans, [None] when there is none. *)
Definition structured_prices (sources : list SourceItem) : option (list jsstring) :=
  let structuredPlans :=
    List.filter (fun plan => (0 <? length (Plan.name plan))%nat)
      (flat_map (fun source => default [] (Source.pricingPlans source)) sources) in
  match structuredPlans with
  | _ :: _ =>
    let deduped :=
      map_values (map_of (map (fun plan => (plan_key plan, plan)) structuredPlans)) in
    Some (map price_line deduped)
  | [] => None
  end.

(** The part after the price branch: the best source, then its summary
    or its snippet. *)
Definition general_reply (tokens : list jsstring) (sources : list SourceItem) : jsstring :=
  let best := select tokens sources in
  match bestSource best with
  | None => NO_TEXT
  | Some source =>
    if truthy (default [] (Source.summary source)) && (bestScore best <=? 0)
    then Source.name source ++ js " の概要: " ++ default [] (Source.summary source)
    else js "「" ++ Source.name source ++ js "」を参照: " ++ bestSnippet best
  end.

Definition buildAssistantReply (question : jsstring) (sources : list SourceItem) : jsstring :=
  match sources with
  | [] => UPLOAD_FIRST
  | _ :: _ =>
    let tokens := tokens_of question in
    let isPriceQuestion := test priceIntent question in
    if isPriceQuestion
    then
      match structured_prices sources with
      | Some priceLines => PRICE_HEADER ++ join [0x0A] priceLines
      | None =>
        let prices := flat_map (fun source => extractPriceLines (Source.text source)) sources in
        match prices with
        | _ :: _ => PRICE_HEADER ++ join [0x0A] prices
        | [] => general_reply tokens sources
        end
      end
    else general_reply tokens sources
  end.

(** [None] when it throws: an item is null, or a conversion throws. *)
Definition parsePricingPlans (value : option (json number)) : option (list PricingPlan) :=
  match value with
  | Some (JArr items) =>
    plans ← mapM PdfAnalyze.plan_of_json items;
    Some (List.filter PdfAnalyze.has_name plans)
  | _ => Some []
  end.

(** *** The world of the handlers

    The document database is a map from collection paths to
    collections, the blob store the set of the paths that hold an
    object.  A handler reads the state that its closure captured (the
    [View]) and writes the React state, the stores, the log of the
    calls it made and the contexts it passed to [logError]. *)

Inductive FsData :=
| DocOf (d : Doc.DocData)
| ChatOf (c : Thread.ChatData)
| MessageOf (m : Message.MessageData).

Inductive Call :=
| AddDoc (path : list jsstring) (id : jsstring)
| UpdateDoc (path : list jsstring) (id : jsstring)
| DeleteDoc (path : list jsstring) (id : jsstring)
| DeleteObject (path : jsstring)
| FetchApi (route : jsstring).

Record SelectedKnowledge := { sk_id : jsstring; sk_name : jsstring }.

Record World := {
  firestore : gmap (list jsstring) (gmap jsstring FsData);
  blobs : gset jsstring;
  issued : gset jsstring;              (* the automatic ids given so far *)
  clock : Z;                           (* the server time *)
  outage_after : option nat;           (* the backend calls that still succeed *)
  calls : list Call;                   (* oldest first *)
  errors : list jsstring;
  st_selectedChatId : option jsstring;
  st_creatingChat : bool;
  st_deletingSourceId : option jsstring;
  st_selectedKnowledge : option SelectedKnowledge;
  st_question : jsstring;
  st_sending : bool
}.

Inductive ActiveChat :=
| Personal
| TeamChat (teamId : jsstring).

Record View := {
  authUser : option jsstring;          (* [authUser.uid] *)
  activeChat : ActiveChat;
  teams : list Team.TeamItem;
  selectedChatId : option jsstring;
  selectedKnowledge : option SelectedKnowledge;
  globalSources : list SourceItem;
  sources : list SourceItem;
  question : jsstring;
  sending : bool
}.

Definition selectedSource (v : View) : option SourceItem :=
  match selectedKnowledge v with
  | Some k => List.find (fun source => str_eqb (Source.id source) (sk_id k)) (sources v)
  | None => None
  end.

Definition selectedTeam (v : View) : option Team.TeamItem :=
  match activeChat v with
  | TeamChat teamId => List.find (fun t => str_eqb (Team.id t) teamId) (teams v)
  | Personal => None
  end.

Definition is_team (v : View) : bool :=
  match activeChat v with TeamChat _ => true | Personal => false end.

(** The browser and the two routes as the page sees them. *)
Record Browser := {
  confirm : jsstring -> bool;
  (** [fetch("/api/chat", ...)], [None] when it rejects *)
  api_chat : ChatRoute.Request -> option ChatRoute.response
}.

(** **** Computations that change the world and may throw *)

Inductive Outcome (A : Type) :=
| Ok (a : A)
| Throw (e : jsstring).
Arguments Ok {A} a.
Arguments Throw {A} e.

Definition M (A : Type) : Type := World -> Outcome A * World.

Definition ret {A} (a : A) : M A := fun w => (Ok a, w).
Definition throw {A} (e : jsstring) : M A := fun w => (Throw e, w).
Definition bind {A B} (m : M A) (f : A -> M B) : M B :=
  fun w =>
    match m w with
    | (Ok a, w') => f a w'
    | (Throw e, w') => (Throw e, w')
    end.
Definition try_catch {A} (m : M A) (handler : jsstring -> M A) : M A :=
  fun w =>
    match m w with
    | (Ok a, w') => (Ok a, w')
    | (Throw e, w') => handler e w'
    end.
Definition finally {A} (m : M A) (f : World -> World) : M A :=
  fun w => let '(r, w') := m w in (r, f w').
Definition modify (f : World -> World) : M unit := fun w => (Ok tt, f w).
Definition get {A} (f : World -> A) : M A := fun w => (Ok (f w), w).

Notation "'await' x ':=' m 'in' k" := (bind m (fun x => k))
  (at level 10, x name, m at level 100, k at level 200, only parsing).
Notation "'run' m 'in' k" := (bind m (fun _ => k))
  (at level 10, m at level 100, k at level 200, only parsing).

Definition set_world (w : World)
    (fs : gmap (list jsstring) (gmap jsstring FsData)) (bl ids : gset jsstring)
    (t : Z) (out : option nat) (cs : list Call) : World :=
  {| firestore := fs; blobs := bl; issued := ids; clock := t; outage_after := out;
     calls := cs; errors := errors w;
     st_selectedChatId := st_selectedChatId w; st_creatingChat := st_creatingChat w;
     st_deletingSourceId := st_deletingSourceId w;
     st_selectedKnowledge := st_selectedKnowledge w;
     st_question := st_question w; st_sending := st_sending w |}.

Definition logError (context : jsstring) : M unit :=
  modify (fun w =>
    {| firestore := firestore w; blobs := blobs w; issued := issued w; clock := clock w;
       outage_after := outage_after w; calls := calls w;
       errors := errors w ++ [context];
       st_selectedChatId := st_selectedChatId w; st_creatingChat := st_creatingChat w;
       st_deletingSourceId := st_deletingSourceId w;
       st_selectedKnowledge := st_selectedKnowledge w;
       st_question := st_question w; st_sending := st_sending w |}).

Definition set_state (w : World) (chat : option jsstring) (creating : bool)
    (deleting : option jsstring) (knowledge : option SelectedKnowledge)
    (q : jsstring) (snd : bool) : World :=
  {| firestore := firestore w; blobs := blobs w; issued := issued w; clock := clock w;
     outage_after := outage_after w; calls := calls w; errors := errors w;
     st_selectedChatId := chat; st_creatingChat := creating;
     st_deletingSourceId := deleting; st_selectedKnowledge := knowledge;
     st_question := q; st_sending := snd |}.

Definition setSelectedChatId (x : option jsstring) (w : World) : World :=
  set_state w x (st_creatingChat w) (st_deletingSourceId w) (st_selectedKnowledge w)
    (st_question w) (st_sending w).
Definition setCreatingChat (x : bool) (w : World) : World :=
  set_state w (st_selectedChatId w) x (st_deletingSourceId w) (st_selectedKnowledge w)
    (st_question w) (st_sending w).
Definition setDeletingSourceId (x : option jsstring) (w : World) : World :=
  set_state w (st_selectedChatId w) (st_creatingChat w) x (st_selectedKnowledge w)
    (st_question w) (st_sending w).
Definition setSelectedKnowledge (x : option SelectedKnowledge) (w : World) : World :=
  set_state w (st_selectedChatId w) (st_creatingChat w) (st_deletingSourceId w) x
    (st_question w) (st_sending w).
Definition setQuestion (x : jsstring) (w : World) : World :=
  set_state w (st_selectedChatId w) (st_creatingChat w) (st_deletingSourceId w)
    (st_selectedKnowledge w) x (st_sending w).
Definition setSending (x : bool) (w : World) : World :=
  set_state w (st_selectedChatId w) (st_creatingChat w) (st_deletingSourceId w)
    (st_selectedKnowledge w) (st_question w) x.

(** **** The backend *)

Definition UNAVAILABLE : jsstring := js "unavailable".

(** Every call is logged; it fails once the backend is out. *)
Definition backend (c : Call) : M unit :=
  fun w =>
    let w' := set_world w (firestore w) (blobs w) (issued w) (clock w)
                (match outage_after w with Some (S n) => Some n | o => o end)
                (calls w ++ [c]) in
    match outage_after w with
    | Some O => (Throw UNAVAILABLE, w')
    | _ => (Ok tt, w')
    end.

Definition collection (w : World) (path : list jsstring) : gmap jsstring FsData :=
  default ∅ (firestore w !! path).

(** An automatic id: a string that is not empty, was never given and is
    not in the collection. *)
Definition auto_id (w : World) (path : list jsstring) : jsstring :=
  fresh ({[ [] ]} ∪ issued w ∪ dom (collection w path)).

(** [addDoc(collection(db, ...path), data)]: the id of the new document;
    [data] takes the server time for [serverTimestamp()]. *)
Definition addDoc (path : list jsstring) (data : Z -> FsData) : M jsstring :=
  await id := get (fun w => auto_id w path) in
  run backend (AddDoc path id) in
  run modify (fun w =>
    set_world w (<[path := <[id := data (clock w)]> (collection w path)]> (firestore w))
      (blobs w) ({[id]} ∪ issued w) (clock w + 1) (outage_after w) (calls w)) in
  ret id.

(** [updateDoc(doc(db, ...path, id), { updatedAt: serverTimestamp() })]
    on a chat; it throws when the document does not exist. *)
Definition touch (d : FsData) (t : Z) : FsData :=
  match d with
  | ChatOf c =>
    ChatOf (Thread.Make (Thread.scopeType c) (Thread.teamId c) (Thread.teamName c)
              (Thread.createdAt c) t)
  | DocOf d' =>
    DocOf (Doc.Make (Doc.name d') (Doc.text d') (Doc.summary d') (Doc.pricingPlans d')
             (Doc.storagePath d') (Doc.downloadURL d') (Doc.sourceType d')
             (Doc.inheritedFromDocumentId d') (Doc.createdAt d') t)
  | MessageOf m => MessageOf m
  end.

Definition updateDoc (path : list jsstring) (id : jsstring) : M unit :=
  run backend (UpdateDoc path id) in
  await found := get (fun w => collection w path !! id) in
  match found with
  | None => throw (js "not-found")
  | Some d =>
    modify (fun w =>
      set_world w (<[path := <[id := touch d (clock w)]> (collection w path)]> (firestore w))
        (blobs w) (issued w) (clock w + 1) (outage_after w) (calls w))
  end.

(** [deleteDoc(doc(db, ...path, id))]; a document that does not exist is
    deleted as well. *)
Definition deleteDoc (path : list jsstring) (id : jsstring) : M unit :=
  run backend (DeleteDoc path id) in
  modify (fun w =>
    set_world w (<[path := delete id (collection w path)]> (firestore w))
      (blobs w) (issued w) (clock w) (outage_after w) (calls w)).

(** [deleteObject(ref(storage, path))]; it throws when there is no
    object at the path. *)
Definition deleteObject (path : jsstring) : M unit :=
  run backend (DeleteObject path) in
  await present := get (fun w => bool_decide (path ∈ blobs w)) in
  if present
  then modify (fun w =>
         set_world w (firestore w) (blobs w ∖ {[path]}) (issued w) (clock w)
           (outage_after w) (calls w))
  else throw (js "storage/object-not-found").

(** **** The handlers *)

Definition USERS : jsstring := js "users".
Definition CHATS : jsstring := js "chats".
Definition DOCUMENTS : jsstring := js "documents".
Definition MESSAGES : jsstring := js "messages".

(** A string or null that is truthy. *)
Definition present (x : option jsstring) : bool := truthy (default [] x).

Fixpoint for_each {A} (l : list A) (body : A -> M unit) : M unit :=
  match l with
  | [] => ret tt
  | a :: l' => run body a in for_each l' body
  end.

Definition generateAiReply (br : Browser) (question : jsstring)
    (selectedSourceName : option jsstring) (sources : list SourceItem) : M jsstring :=
  run modify (fun w =>
        set_world w (firestore w) (blobs w) (issued w) (clock w) (outage_after w)
          (calls w ++ [FetchApi (js "/api/chat")])) in
  match api_chat br
          {| ChatRoute.question := Some question;
             ChatRoute.selectedSourceName := selectedSourceName;
             ChatRoute.sources :=
               Some (map (fun source =>
                            {| ChatRoute.name := Source.name source;
                               ChatRoute.summary := Some (default [] (Source.summary source));
                               ChatRoute.text := Some (Source.text source);
                               ChatRoute.pricingPlans :=
                                 Some (default [] (Source.pricingPlans source)) |})
                       sources) |} with
  | None => throw (js "fetch failed")
  | Some response =>
    if negb (in_range 200 299 (ChatRoute.status response))
    then throw (js "chat api failed: " ++ decimal (ChatRoute.status response))
    else
      match ChatRoute.body response with
      | ChatRoute.AnswerBody answer => ret (trim answer)
      | ChatRoute.ErrorBody _ => ret []
      end
  end.

Definition createNewChatThread (v : View) : M (option jsstring) :=
  match authUser v with
  | None => ret None
  | Some uid =>
    if is_team v && negb (bool_decide (is_Some (selectedTeam v))) then ret None
    else
      run modify (setCreatingChat true) in
      finally
        (try_catch
           (await created :=
              addDoc [USERS; uid; CHATS] (fun t =>
                ChatOf (Thread.Make
                          (if is_team v then Thread.team else Thread.personal)
                          (if is_team v then default [] (Team.id <$> selectedTeam v) else [])
                          (if is_team v then default [] (Team.name <$> selectedTeam v) else [])
                          t t)) in
            run modify (setSelectedChatId (Some created)) in
            ret (Some created))
           (fun _ => run logError (js "chat-create") in ret None))
        (setCreatingChat false)
  end.

Definition ensureActiveChatId (v : View) : M (option jsstring) :=
  if present (selectedChatId v) then ret (selectedChatId v)
  else createNewChatThread v.

Definition ASK_FAILED : jsstring := js "回答の生成に失敗しました。もう一度お試しください。".

Definition handleAsk (br : Browser) (v : View) : M unit :=
  match authUser v with
  | None => ret tt
  | Some uid =>
    if negb (truthy (trim (question v))) || sending v then ret tt
    else
      await activeId' := ensureActiveChatId v in
      if negb (present activeId') then ret tt
      else
        let activeId := default [] activeId' in
        let messages := [USERS; uid; CHATS; activeId; MESSAGES] in
        let userQuestion := trim (question v) in
        run modify (setQuestion []) in
        run modify (setSending true) in
        finally
          (try_catch
             (run addDoc messages (fun t =>
                    MessageOf (Message.Make Message.user userQuestion t)) in
              let targetSources :=
                match selectedSource v with
                | Some source => [source]
                | None => sources v
                end in
              await assistantReply :=
                try_catch
                  (generateAiReply br userQuestion (Source.name <$> selectedSource v)
                     targetSources)
                  (fun _ => run logError (js "chat-api") in ret []) in
              let assistantReply :=
                if negb (truthy assistantReply)
                then buildAssistantReply userQuestion targetSources
                else assistantReply in
              run addDoc messages (fun t =>
                    MessageOf (Message.Make Message.assistant assistantReply t)) in
              updateDoc [USERS; uid; CHATS] activeId)
             (fun _ =>
                run logError (js "chat-send") in
                try_catch
                  (run addDoc messages (fun t =>
                         MessageOf (Message.Make Message.assistant ASK_FAILED t)) in
                   ret tt)
                  (fun _ => logError (js "chat-fallback"))))
          (setSending false)
  end.

Definition handleDeleteSource (br : Browser) (v : View) (source : SourceItem) : M unit :=
  match authUser v with
  | None => ret tt
  | Some uid =>
    if is_team v && negb (present (selectedChatId v)) then ret tt
    else
      let shouldDelete :=
        confirm br (js "「" ++ Source.name source ++ js "」を削除しますか？") in
      if negb shouldDelete then ret tt
      else
        run modify (setDeletingSourceId (Some (Source.id source))) in
        finally
          (try_catch
             (let deletingTeamLocalSource :=
                is_team v && negb (present (Source.inheritedFromDocumentId source)) in
              run (if present (Source.storagePath source)
                      && (negb (is_team v) || deletingTeamLocalSource)
                   then deleteObject (default [] (Source.storagePath source))
                   else ret tt) in
              let forget :=
                if bool_decide (sk_id <$> selectedKnowledge v = Some (Source.id source))
                then modify (setSelectedKnowledge None)
                else ret tt in
              if is_team v
              then
                if negb (present (selectedChatId v)) then ret tt
                else
                  run deleteDoc
                        [USERS; uid; CHATS; default [] (selectedChatId v); DOCUMENTS]
                        (Source.id source) in
                  forget
              else
                run deleteDoc [USERS; uid; DOCUMENTS] (Source.id source) in
                forget)
             (fun _ => logError (js "delete-source")))
          (setDeletingSourceId None)
  end.

(** The document that inheritance writes for [source]. *)
Definition inherited_copy (source : SourceItem) (t : Z) : FsData :=
  DocOf (Doc.Make (Source.name source) (Source.text source)
           (default [] (Source.summary source))
           (default [] (Source.pricingPlans source))
           (default [] (Source.storagePath source))
           None None
           (Some (Source.id source))
           t t).

Definition createTeamChatWithInheritance (v : View) (sourceIds : list jsstring)
  : M (option jsstring) :=
  match authUser v, selectedTeam v with
  | Some uid, Some team =>
    run modify (setCreatingChat true) in
    finally
      (try_catch
         (await created :=
            addDoc [USERS; uid; CHATS] (fun t =>
              ChatOf (Thread.Make Thread.team (Team.id team) (Team.name team) t t)) in
          let inheritTargets :=
            List.filter (fun source => existsb (str_eqb (Source.id source)) sourceIds)
              (globalSources v) in
          run for_each inheritTargets (fun source =>
                run addDoc [USERS; uid; CHATS; created; DOCUMENTS]
                      (inherited_copy source) in
                ret tt) in
          run modify (setSelectedChatId (Some created)) in
          ret (Some created))
         (fun _ => run logError (js "team-chat-create") in ret None))
      (setCreatingChat false)
  | _, _ => ret None
  end.

(** **** The client of the analysis route *)

(** What [JSON.stringify] writes for a plan and [response.json()] reads
    back: a price that is not finite becomes null. *)
Definition json_of_plan (plan : PricingPlan) : json number :=
  JObj [ (js "name", JStr (Plan.name plan));
         (js "priceMonthlyYen",
          match Plan.priceMonthlyYen plan with
          | Some n => if number_isFinite n then JNum n else JNull
          | None => JNull
          end);
         (js "note", JStr (Plan.note plan)) ].

Definition json_of_body (b : PdfAnalyze.payload) : json number :=
  match b with
  | PdfAnalyze.ErrorBody e => JObj [(js "error", JStr e)]
  | PdfAnalyze.AnalyzeBody r =>
    JObj [ (js "summary", JStr (PdfAnalyze.summary r));
           (js "plans", JArr (map json_of_plan (PdfAnalyze.plans r))) ]
  end.

(** [api_analyze] is [fetch("/api/pdf-analyze", ...)] on the body of the
    request, [None] when it rejects. *)
Definition analyzePdfText (api_analyze : json number -> option PdfAnalyze.response)
    (fileName text : jsstring) : Outcome (jsstring * list PricingPlan) :=
  match api_analyze (JObj [(js "fileName", JStr fileName); (js "text", JStr text)]) with
  | None => Throw (js "fetch failed")
  | Some response =>
    if negb (in_range 200 299 (PdfAnalyze.status response))
    then Throw (js "analyze failed: " ++ decimal (PdfAnalyze.status response))
    else
      let data := json_of_body (PdfAnalyze.body response) in
      match String_of string_of_number (nullish (prop (js "summary") data) (JStr [])),
            parsePricingPlans (prop (js "plans") data) with
      | Some summary, Some plans => Ok (trim summary, plans)
      | _, _ => Throw (js "TypeError")
      end
  end.

End Page.
Arguments Ok {A} a.
Arguments Throw {A} e.
End HomePage.

(** ** The bootstrap script, and the selection of the sources to inherit *)

Module Bootstrap.

Definition FLAG : jsstring := js "--".
Definition TRUE : jsstring := js "true".
Definition PROTO : jsstring := js "__proto__".

(** The names that a plain object inherits from [Object.prototype]. *)
Definition prototype_names : list jsstring :=
  [ js "constructor"; js "hasOwnProperty"; js "isPrototypeOf";
    js "propertyIsEnumerable"; js "toLocaleString"; js "toString"; js "valueOf";
    js "__defineGetter__"; js "__defineSetter__"; js "__lookupGetter__";
    js "__lookupSetter__"; PROTO ].

(** What [args[key]] gives on the record that [parseArgs] fills: the
    string of an own property, a member of the prototype (a function, or
    the prototype itself under [__proto__]), or undefined. *)
Inductive member :=
| Own (value : jsstring)
| Inherited
| Undefined.

(** [args[key] = value] with a string [value]: under [__proto__] it calls
    the setter of the prototype, which ignores a value that is no object;
    every other key becomes, or stays, an own property. *)
Definition assign (key value : jsstring) (args : list (jsstring * jsstring))
  : list (jsstring * jsstring) :=
  if str_eqb key PROTO then args else map_set key value args.

(** [args[key]]: the own property first, then the prototype. *)
Definition arg (key : jsstring) (args : list (jsstring * jsstring)) : member :=
  match List.find (fun e => str_eqb (fst e) key) args with
  | Some e => Own (snd e)
  | None => if existsb (str_eqb key) prototype_names then Inherited else Undefined
  end.

(** The loop of [parseArgs] from one token on. *)
Fixpoint parseArgs_from (argv : list jsstring) (args : list (jsstring * jsstring))
  : list (jsstring * jsstring) :=
  match argv with
  | [] => args
  | token :: rest =>
    if negb (startsWith FLAG token) then parseArgs_from rest args
    else
      let key := skipn 2 token in
      match rest with
      | next :: rest' =>
        if negb (truthy next) || startsWith FLAG next
        then parseArgs_from rest (assign key TRUE args)
        else parseArgs_from rest' (assign key next args)
      | [] => assign key TRUE args
      end
  end.

Definition parseArgs (argv : list jsstring) : list (jsstring * jsstring) :=
  parseArgs_from argv [].

(** What [requireArg] does: it returns what [args[key]] gave when that is
    truthy, a member of the prototype as well as a string that is not
    empty, and throws otherwise. *)
Inductive required :=
| Value (value : member)
| Missing (message : jsstring).

Definition requireArg (args : list (jsstring * jsstring)) (key : jsstring) : required :=
  match arg key args with
  | Own (_ :: _) as value => Value value
  | Inherited => Value Inherited
  | Own [] | Undefined => Missing (js "Missing required argument: --" ++ key)
  end.

End Bootstrap.

(** [toggleInheritSource] of the page, on the list of the selected ids. *)
Definition toggleInheritSource (sourceId : jsstring) (prev : list jsstring) : list jsstring :=
  if existsb (str_eqb sourceId) prev
  then List.filter (fun id => negb (str_eqb id sourceId)) prev
  else prev ++ [sourceId].

(** ** Teams: the members of a new team, and the check of an invitation *)

(** [Array.from(new Set([authUser.uid, ...selectedMemberUids]))] of
    [handleCreateTeam]. *)
Definition memberUids (uid : jsstring) (selectedMemberUids : list jsstring) : list jsstring :=
  HomePage.unique (uid :: selectedMemberUids).

(** [[^\s@]] *)
Definition email_unit (c : Z) : bool := negb (is_space c) && negb (c =? unit_of "@").

(** [/^[^\s@]+@[^\s@]+\.[^\s@]+$/] of [handleInviteSubmit], without its
    last assertion. *)
Definition emailRegex : regex :=
  seq [ Bol; plus (Unit email_unit); chr "@"; plus (Unit email_unit); chr ".";
        plus (Unit email_unit) ].

(** [$] without the m flag, as the continuation of a match. *)
Definition at_end (y : mstate) : option mstate :=
  match after y with
  | [] => Some y
  | _ :: _ => None
  end.

(** [r.test(s)] for a regex [r] that ends with [$]. *)
Fixpoint test_to_end (r : regex) (b a : jsstring) : bool :=
  match run r Fwd at_end (MState b a []) with
  | Some _ => true
  | None =>
    match a with
    | [] => false
    | c :: a' => test_to_end r (c :: b) a'
    end
  end.

Definition looksLikeEmail (email : jsstring) : bool := test_to_end emailRegex [] email.

(** ** The text modal of the page *)

Module TextModal.
Section Page.
Context `{Platform}.
Import HomePage.

Notation "'await' x ':=' m 'in' k" := (bind m (fun x => k))
  (at level 10, x name, m at level 100, k at level 200, only parsing).
Notation "'run' m 'in' k" := (bind m (fun _ => k))
  (at level 10, m at level 100, k at level 200, only parsing).

Definition amount_of (plan : PricingPlan) : jsstring :=
  match Plan.priceMonthlyYen plan with
  | Some n => toLocaleString_jaJP n ++ js "円/月"
  | None => js "価格不明"
  end.

Definition buildPdfSummaryMessage (fileName summary : jsstring) (plans : list PricingPlan)
  : jsstring :=
  let summaryLine := or_else (trim summary) (js "概要を抽出できませんでした。") in
  let planLine :=
    match plans with
    | _ :: _ =>
      js "料金: "
      ++ join (js " / ") (map (fun plan => Plan.name plan ++ js " " ++ amount_of plan) plans)
    | [] => js "料金: 抽出なし"
    end in
  js "「" ++ fileName ++ js "」をアップロードしました。" ++ [0x0A]
  ++ js "概要: " ++ summaryLine ++ [0x0A] ++ planLine.

Definition ANALYZE_API : Call := FetchApi (js "/api/pdf-analyze").

(** [await analyzePdfText(fileName, text)] inside a handler: the call is
    logged, and its error is thrown. *)
Definition analyze (api_analyze : json number -> option PdfAnalyze.response)
    (fileName text : jsstring) : M (jsstring * list PricingPlan) :=
  bind (modify (fun w =>
          set_world w (firestore w) (blobs w) (issued w) (clock w) (outage_after w)
            (calls w ++ [ANALYZE_API])))
    (fun _ w => (analyzePdfText api_analyze fileName text, w)).

Definition TEXT_KNOWLEDGE : jsstring := js "テキストナレッジ".

(** The collection that takes a new document of the active chat. *)
Definition documents_of (v : View) (uid activeId : jsstring) : list jsstring :=
  if is_team v then [USERS; uid; CHATS; activeId; DOCUMENTS] else [USERS; uid; DOCUMENTS].

(** The document that the text modal writes. *)
Definition text_document (title body summary : jsstring) (plans : list PricingPlan) (t : Z)
  : FsData :=
  DocOf (Doc.Make (title ++ js ".txt") body summary plans [] (Some []) (Some (js "text"))
           None t t).

(** [handleTextModalSubmit] on the title and the body that the modal
    holds.  The state of the modal and of the progress bar is not part
    of the world: the handler sets it, and nothing that the handler
    does depends on it. *)
Definition handleTextModalSubmit (api_analyze : json number -> option PdfAnalyze.response)
    (v : View) (textTitle textBody : jsstring) : M unit :=
  match authUser v with
  | None => ret tt
  | Some uid =>
    await activeId' := ensureActiveChatId v in
    if negb (present activeId') then ret tt
    else
      let activeId := default [] activeId' in
      let title := or_else (trim textTitle) TEXT_KNOWLEDGE in
      let body := sanitizeExtractedText textBody in
      if negb (truthy body) then ret tt
      else
        try_catch
          (await analysis := analyze api_analyze title body in
           run addDoc (documents_of v uid activeId)
                 (text_document title body (fst analysis) (snd analysis)) in
           run addDoc [USERS; uid; CHATS; activeId; MESSAGES] (fun t =>
                 MessageOf (Message.Make Message.assistant
                              (buildPdfSummaryMessage (title ++ js ".txt")
                                 (fst analysis) (snd analysis)) t)) in
           updateDoc [USERS; uid; CHATS] activeId)
          (fun _ => logError (js "text-modal-submit"))
  end.

End Page.
End TextModal.

(** ** A reference platform for closed examples

    Numbers are the integers (doubles are exact on them below 2^53, where
    [Number], [String] and [toLocaleString] are as below), [normalize] and
    [toLowerCase] are taken on strings that they leave alone but for the
    letters A-Z, the script class lists the blocks of Scripts.txt that the
    examples use, and the two parsers are tables of the texts that the
    examples parse. *)

Module Ref.

Fixpoint digits_value (acc : Z) (s : jsstring) : Z :=
  match s with
  | [] => acc
  | c :: s' => digits_value (10 * acc + (c - 0x30)) s'
  end.

(** [Number(s)] on a string of decimal digits. *)
Definition Number_of_string (s : jsstring) : Z := digits_value 0 s.

(** [String(n)] on an integer. *)
Definition string_of_number (n : Z) : jsstring := decimal n.

(** A comma before every group of three digits, counted from the right;
    [k] digits were written since the last comma. *)
Fixpoint group3 (k : nat) (rev_digits : jsstring) : jsstring :=
  match rev_digits with
  | [] => []
  | d :: r =>
    match k with
    | 3%nat => unit_of "," :: d :: group3 1 r
    | _ => d :: group3 (S k) r
    end
  end.

(** [n.toLocaleString("ja-JP")] on an integer. *)
Definition toLocaleString_jaJP (n : Z) : jsstring :=
  if 0 <=? n
  then rev (group3 0 (rev (string_of_number n)))
  else unit_of "-" :: rev (group3 0 (rev (string_of_number (- n)))).

(** [s.toLowerCase()] on a string whose cased letters are in A-Z. *)
Definition toLowerCase (s : jsstring) : jsstring :=
  map (fun c => if in_range 0x41 0x5A c then c + 0x20 else c) s.

(** CJK Unified Ideographs with Extension A, the iteration marks and
    Hangzhou numerals of Han, Hiragana, Katakana with its phonetic
    extensions and half-width forms, and Extension B. *)
Definition script_cjk (c : Z) : bool :=
  in_range 0x4E00 0x9FFF c || in_range 0x3400 0x4DBF c
  || (c =? 0x3005) || (c =? 0x3007) || in_range 0x3021 0x3029 c
  || in_range 0x3038 0x303B c || in_range 0xF900 0xFA6D c
  || in_range 0x3041 0x3096 c || in_range 0x309D 0x309F c
  || in_range 0x30A1 0x30FA c || in_range 0x30FD 0x30FF c
  || in_range 0x31F0 0x31FF c || in_range 0xFF66 0xFF6F c
  || in_range 0xFF71 0xFF9D c || in_range 0x20000 0x2A6DF c.

(** [new URL(s)] on the URLs of the examples. *)
Definition URL_parse (s : jsstring) : option url :=
  if str_eqb s (js "http://10.0.0.5/page")
  then Some (Url (js "http:") (js "10.0.0.5") (js "http://10.0.0.5/page"))
  else if str_eqb s (js "ftp://example.com/file")
  then Some (Url (js "ftp:") (js "example.com") (js "ftp://example.com/file"))
  else if str_eqb s (js "https://example.com/")
  then Some (Url (js "https:") (js "example.com") (js "https://example.com/"))
  else None.

Definition quoted (s : jsstring) : jsstring := PdfAnalyze.DQ ++ s ++ PdfAnalyze.DQ.

(** One plan, as a model writes it and as [JSON.parse] reads it. *)
Definition PLAN_A_TEXT : jsstring :=
  js "{" ++ quoted (js "name") ++ js ":" ++ quoted (js "A") ++ js ","
  ++ quoted (js "priceMonthlyYen") ++ js ":1000}".

Definition PLAN_A : json Z :=
  JObj [(js "name", JStr (js "A")); (js "priceMonthlyYen", JNum 1000)].

(** A reply of the model that repeats the plan nine times. *)
Definition NINE_PLANS : jsstring :=
  js "{" ++ quoted (js "summary") ++ js ":" ++ quoted (js "s") ++ js ","
  ++ quoted (js "plans") ++ js ":[" ++ join (js ",") (replicate 9 PLAN_A_TEXT)
  ++ js "]}".

(** [JSON.parse(s)] on the text of the examples; it throws on the other
    texts that the examples reach. *)
Definition JSON_parse (s : jsstring) : option (json Z) :=
  if str_eqb s NINE_PLANS
  then Some (JObj [(js "summary", JStr (js "s")); (js "plans", JArr (replicate 9 PLAN_A))])
  else None.

End Ref.

#[export] Instance ref_platform : Platform := {
  number := Z;
  Number_of_string := Ref.Number_of_string;
  string_of_number := Ref.string_of_number;
  toLocaleString_jaJP := Ref.toLocaleString_jaJP;
  number_isFinite := fun _ => true;
  normalize_NFKC := fun s => s;
  toLowerCase := Ref.toLowerCase;
  script_cjk := Ref.script_cjk;
  JSON_parse := Ref.JSON_parse;
  URL_parse := Ref.URL_parse
}.

(** The reference platform with a piece of the real NFKC and of the real
    script table.  The two alternate reading marks U+16FF0 and U+16FF1
    are of Script=Han and have the combining class 6; the voiced sound
    mark U+3099 has the class 8, so that in KA U+16FF1 U+16FF0 U+3099 it
    is not blocked and composes with KA into GA.  The other texts of the
    examples are in NFKC form. *)
Definition KA_MARKS : jsstring := [0x304B; 0xD81B; 0xDFF1; 0xD81B; 0xDFF0; 0x3099].
Definition GA_MARKS : jsstring := [0x304C; 0xD81B; 0xDFF1; 0xD81B; 0xDFF0].
Definition KA_MARKS_GAP : jsstring :=
  [0x304B; 0xD81B; 0xDFF1; 0x20; 0xD81B; 0xDFF0; 0x3099].

Definition marks_NFKC (s : jsstring) : jsstring :=
  if str_eqb s KA_MARKS then GA_MARKS else s.

Definition marks_script_cjk (c : Z) : bool :=
  Ref.script_cjk c || in_range 0x16FF0 0x16FF1 c.

Definition marks_platform : Platform := {|
  number := Z;
  Number_of_string := Ref.Number_of_string;
  string_of_number := Ref.string_of_number;
  toLocaleString_jaJP := Ref.toLocaleString_jaJP;
  number_isFinite := fun _ => true;
  normalize_NFKC := marks_NFKC;
  toLowerCase := Ref.toLowerCase;
  script_cjk := marks_script_cjk;
  JSON_parse := Ref.JSON_parse;
  URL_parse := Ref.URL_parse
|}.



(** * Properties *)

Arguments js : simpl never.
Set Warnings "-clear-no-such-hyp".

Lemma str_eqb_eq a b : str_eqb a b = true <-> a = b.
Proof. unfold str_eqb. apply bool_decide_eq_true. Qed.

Lemma str_eqb_refl a : str_eqb a a = true.
Proof. now apply str_eqb_eq. Qed.

Lemma str_eqb_neq a b : str_eqb a b = false <-> a <> b.
Proof. unfold str_eqb. apply bool_decide_eq_false. Qed.

(** ** The fallback analysis on the example of the specification *)

Definition SPEC_EXAMPLE : jsstring := js "プランA 3,000円/月 プランB 5,000円/月".

(** The normaliser removes the space between 月 and プ, both of the class. *)
Example sanitize_spec_example :
  PdfAnalyze.sanitizeText SPEC_EXAMPLE = js "プランA 3,000円/月プランB 5,000円/月".
Proof. vm_compute. reflexivity. Qed.

(** C1: on the text "プランA 3,000円/月 プランB 5,000円/月" the fallback
    returns no plan at all: the amount of [planRegex] starts with two to six
    digits, and "3" and "5" stand alone before their comma. *)
Theorem C1_fallback_finds_no_plan :
  PdfAnalyze.plans <$> PdfAnalyze.fallbackAnalyze SPEC_EXAMPLE = Some [].
Proof. vm_compute. reflexivity. Qed.

(** The same through the handler without a credential. *)
Example C1_handler_without_key fetch :
  PdfAnalyze.POST
    {| PdfAnalyze.OPENAI_API_KEY := None; PdfAnalyze.OPENAI_MODEL := None;
       PdfAnalyze.fetch_responses := fetch |}
    (Some (JObj [(js "fileName", JStr (js "plans.pdf")); (js "text", JStr SPEC_EXAMPLE)]))
  = Some {| PdfAnalyze.status := 200;
            PdfAnalyze.body :=
              PdfAnalyze.AnalyzeBody
                {| PdfAnalyze.summary := js "プランA 3,000円/月プランB 5,000円/月";
                   PdfAnalyze.plans := [] |} |}.
Proof. vm_compute. reflexivity. Qed.

(** With two digits before the comma both plans are found. *)
Example fallback_two_leading_digits :
  PdfAnalyze.plans <$> PdfAnalyze.fallbackAnalyze (js "プランA 30,000円/月 プランB 50,000円/月")
  = Some [ Plan.Make (js "プランA") (Some 30000) [];
           Plan.Make (js "プランB") (Some 50000) [] ].
Proof. vm_compute. reflexivity. Qed.

(** The price regex of the page accepts the amounts of the example. *)
Example priceLike_accepts_spec_example :
  HomePage.extractPriceLines SPEC_EXAMPLE
  = [js "プランA 3,000円/月"; js "プランB 5,000円/月"].
Proof. vm_compute. reflexivity. Qed.

(** ** The answer engine: selection of the best source *)

Section Selection.
Context `{Platform}.
Import HomePage.

Variable tokens : list jsstring.

(** A source takes part in the selection when its normalised text is not
    empty; its score is the number of tokens found in it. *)
Definition usable (s : SourceItem) : bool :=
  truthy (normalizeText (Source.text s)).
Definition score (s : SourceItem) : Z :=
  fst (score_of tokens (normalizeText (Source.text s))).

Lemma hit_fst_mono n acc t : fst acc <= fst (hit n acc t).
Proof.
  destruct acc as [sc fh]. unfold hit. destruct (0 <=? indexOf t n); simpl; lia.
Qed.

Lemma fold_hit_mono n ts : forall acc, fst acc <= fst (fold_left (hit n) ts acc).
Proof.
  induction ts as [|t ts IH]; intros acc; simpl; [lia|].
  etransitivity; [apply (hit_fst_mono n acc t)|apply IH].
Qed.

Lemma score_nonneg s : 0 <= score s.
Proof. unfold score, score_of. apply (fold_hit_mono _ tokens (0, -1)). Qed.

(** What the loop over the sources keeps: nothing before the first usable
    source, then the first source among those of the highest score. *)
Definition first_best (seen : list SourceItem) (best : Best) : Prop :=
  match bestSource best with
  | None => bestScore best = -1 /\ forall s, s ∈ seen -> usable s = false
  | Some s =>
    exists pre post,
      seen = pre ++ s :: post /\ usable s = true /\ bestScore best = score s
      /\ (forall s', s' ∈ pre -> usable s' = true -> score s' < score s)
      /\ (forall s', s' ∈ post -> usable s' = true -> score s' <= score s)
  end.

Lemma consider_unusable best x : usable x = false -> consider tokens best x = best.
Proof. unfold usable, consider. intros ->. reflexivity. Qed.

Lemma consider_usable best x :
  usable x = true ->
  (bestScore best < score x
   /\ bestSource (consider tokens best x) = Some x
   /\ bestScore (consider tokens best x) = score x)
  \/ (score x <= bestScore best /\ consider tokens best x = best).
Proof.
  unfold usable, consider, score. intros ->. simpl.
  destruct (score_of tokens (normalizeText (Source.text x))) as [sc fh]. simpl.
  destruct (bestScore best <? sc) eqn:E.
  - left. apply Z.ltb_lt in E. simpl. auto.
  - right. apply Z.ltb_ge in E. auto.
Qed.

Lemma first_best_step seen best x :
  first_best seen best -> first_best (seen ++ [x]) (consider tokens best x).
Proof.
  intros I. destruct (usable x) eqn:U.
  - destruct (consider_usable best x U) as [(Hlt & Hs & Hsc)|[Hle ->]].
    + unfold first_best. rewrite Hs. exists seen, []. repeat split; auto.
      * unfold first_best in I. destruct (bestSource best) as [s|].
        -- destruct I as (pre & post & -> & Us & Eb & Hpre & Hpost).
           intros s' Hin Us'. rewrite Eb in Hlt.
           apply elem_of_app in Hin as [Hin|Hin].
           ++ specialize (Hpre s' Hin Us'). lia.
           ++ apply elem_of_cons in Hin as [->|Hin]; [lia|].
              specialize (Hpost s' Hin Us'). lia.
        -- destruct I as [_ Hno]. intros s' Hin Us'.
           rewrite (Hno s' Hin) in Us'. discriminate.
      * intros s' Hin. apply elem_of_nil in Hin. contradiction.
    + unfold first_best in *. destruct (bestSource best) as [s|].
      * destruct I as (pre & post & -> & Us & Eb & Hpre & Hpost).
        exists pre, (post ++ [x]). rewrite <- app_assoc. repeat split; auto.
        intros s' Hin Us'. apply elem_of_app in Hin as [Hin|Hin]; [auto|].
        apply list_elem_of_singleton in Hin as ->. lia.
      * destruct I as [Eb _]. pose proof (score_nonneg x). lia.
  - rewrite (consider_unusable best x U).
    unfold first_best in *. destruct (bestSource best) as [s|].
    + destruct I as (pre & post & -> & Us & Eb & Hpre & Hpost).
      exists pre, (post ++ [x]). rewrite <- app_assoc. repeat split; auto.
      intros s' Hin Us'. apply elem_of_app in Hin as [Hin|Hin]; [auto|].
      apply list_elem_of_singleton in Hin as ->. congruence.
    + destruct I as [Eb Hno]. split; [assumption|].
      intros s Hin. apply elem_of_app in Hin as [Hin|Hin]; [auto|].
      apply list_elem_of_singleton in Hin as ->. assumption.
Qed.

Lemma select_first_best sources : first_best sources (select tokens sources).
Proof.
  unfold select.
  induction sources as [|x l IH] using rev_ind.
  - simpl. split; [reflexivity|]. intros s Hin. apply elem_of_nil in Hin. contradiction.
  - rewrite fold_left_app. simpl. apply first_best_step, IH.
Qed.

End Selection.


Module Examples.
Import HomePage.

Definition path_a : jsstring := js "users/u1/documents/1-a.pdf".
Definition path_b : jsstring := js "users/u1/documents/2-b.pdf".

Definition hello_a : SourceItem :=
  Source.Make (js "doc1") (js "a.pdf") (js "Hello World, once") (Some []) (Some [])
    (Some path_a) (Some []) None.
Definition hello_b : SourceItem :=
  Source.Make (js "doc2") (js "b.pdf") (js "hello there world") (Some []) (Some [])
    (Some path_b) (Some []) None.

(** The copy of [hello_a] in a team chat, as the listener reads it. *)
Definition copy_of_a : SourceItem :=
  Source.Make (js "copy1") (js "a.pdf") (js "Hello World, once") (Some []) (Some [])
    (Some path_a) (Some (js "doc1")) None.

(** The chat route without a credential. *)
Definition chat_env : ChatRoute.Env :=
  {| ChatRoute.OPENAI_API_KEY := None;
     ChatRoute.OPENAI_MODEL := None;
     ChatRoute.fetch_responses := fun _ _ _ => Responses.FetchRejects |}.

Definition browser : Browser :=
  {| confirm := fun _ => true;
     api_chat := fun request => Some (ChatRoute.POST chat_env (Some request)) |}.

(** A browser whose chat route cannot be reached. *)
Definition offline : Browser :=
  {| confirm := fun _ => true; api_chat := fun _ => None |}.

Definition world : World :=
  {| firestore := ∅; blobs := {[path_a; path_b]}; issued := ∅; clock := 0;
     outage_after := None; calls := []; errors := [];
     st_selectedChatId := None; st_creatingChat := false;
     st_deletingSourceId := None; st_selectedKnowledge := None;
     st_question := []; st_sending := false |}.

Definition personal_view : View :=
  {| authUser := Some (js "u1"); activeChat := Personal; teams := [];
     selectedChatId := Some (js "chat1"); selectedKnowledge := None;
     globalSources := [hello_a; hello_b]; sources := [hello_a; hello_b];
     question := js "HELLO world"; sending := false |}.

Definition team_view : View :=
  {| authUser := Some (js "u1"); activeChat := TeamChat (js "t1");
     teams := [Team.Make (js "t1") (js "Sales") [js "u1"]];
     selectedChatId := Some (js "chat2"); selectedKnowledge := None;
     globalSources := [hello_a; hello_b]; sources := [copy_of_a];
     question := js "HELLO world"; sending := false |}.

(** No source at all. *)
Definition empty_view : View :=
  {| authUser := Some (js "u1"); activeChat := Personal; teams := [];
     selectedChatId := Some (js "chat1"); selectedKnowledge := None;
     globalSources := []; sources := [];
     question := js "料金は?"; sending := false |}.
End Examples.


(** The reply names the earlier of the two tied sources. *)
Example tie_reply :
  HomePage.buildAssistantReply (js "HELLO world") [Examples.hello_a; Examples.hello_b]
  = js "「a.pdf」を参照: Hello World, once".
Proof. vm_compute. reflexivity. Qed.

(** ** The answer engine: the reply is never empty *)

Section Reply.
Context `{Platform}.
Import HomePage.

Lemma app_not_nil_l {A} (a b : list A) : a <> [] -> a ++ b <> [].
Proof. destruct a; simpl; congruence. Qed.

Lemma app_not_nil_r {A} (a b : list A) : b <> [] -> a ++ b <> [].
Proof. destruct a; simpl; [auto|congruence]. Qed.

Lemma UPLOAD_FIRST_not_empty : UPLOAD_FIRST <> [].
Proof. vm_compute. discriminate. Qed.

Lemma NO_TEXT_not_empty : NO_TEXT <> [].
Proof. vm_compute. discriminate. Qed.

Lemma PRICE_HEADER_not_empty : PRICE_HEADER <> [].
Proof. vm_compute. discriminate. Qed.

(** What the general branch returns. *)
Inductive general_case (tokens : list jsstring) (sources : list SourceItem)
    (reply : jsstring) : Prop :=
| NoText :
    (forall s, s ∈ sources -> usable s = false) ->
    reply = NO_TEXT -> general_case tokens sources reply
| SummaryLine s :
    s ∈ sources -> usable s = true ->
    reply = Source.name s ++ js " の概要: " ++ default [] (Source.summary s) ->
    general_case tokens sources reply
| SnippetLine s snippet :
    s ∈ sources -> usable s = true ->
    reply = js "「" ++ Source.name s ++ js "」を参照: " ++ snippet ->
    general_case tokens sources reply.

Lemma general_reply_case tokens sources :
  general_case tokens sources (general_reply tokens sources).
Proof.
  unfold general_reply.
  pose proof (select_first_best tokens sources) as I. unfold first_best in I.
  destruct (bestSource (select tokens sources)) as [s|].
  - destruct I as (pre & post & E & U & _).
    assert (Hin : s ∈ sources).
    { rewrite E. apply elem_of_app. right. apply elem_of_cons. now left. }
    destruct (truthy (default [] (Source.summary s)) && _).
    + now apply (SummaryLine _ _ _ s).
    + now apply (SnippetLine _ _ _ s (bestSnippet (select tokens sources))).
  - destruct I as [_ Hno]. now apply NoText.
Qed.

Lemma general_reply_not_empty tokens sources : general_reply tokens sources <> [].
Proof.
  destruct (general_reply_case tokens sources) as [_ ->|s _ _ ->|s snip _ _ ->].
  - apply NO_TEXT_not_empty.
  - apply app_not_nil_r, app_not_nil_l. vm_compute. discriminate.
  - apply app_not_nil_l. vm_compute. discriminate.
Qed.

Lemma general_reply_no_text tokens sources :
  (forall s, s ∈ sources -> usable s = false) -> general_reply tokens sources = NO_TEXT.
Proof.
  intros Hno.
  destruct (general_reply_case tokens sources) as [_ E|s Hin U _|s snip Hin U _]; auto.
  - rewrite (Hno s Hin) in U. discriminate.
  - rewrite (Hno s Hin) in U. discriminate.
Qed.

(** The price block of a question with price intent, when there is one. *)
Definition price_block (question : jsstring) (sources : list SourceItem) : option jsstring :=
  if test priceIntent question
  then
    match structured_prices sources with
    | Some priceLines => Some (PRICE_HEADER ++ join [0x0A] priceLines)
    | None =>
      match flat_map (fun source => extractPriceLines (Source.text source)) sources with
      | (_ :: _) as prices => Some (PRICE_HEADER ++ join [0x0A] prices)
      | [] => None
      end
    end
  else None.

Lemma reply_cases question (sources : list SourceItem) :
  sources <> [] ->
  buildAssistantReply question sources
  = match price_block question sources with
    | Some block => block
    | None => general_reply (tokens_of question) sources
    end.
Proof.
  intros Hne. unfold buildAssistantReply, price_block.
  destruct sources as [|s0 rest]; [congruence|].
  destruct (test priceIntent question); [|reflexivity].
  destruct (structured_prices (s0 :: rest)); [reflexivity|].
  destruct (flat_map _ (s0 :: rest)); reflexivity.
Qed.

Lemma price_block_header question sources block :
  price_block question sources = Some block ->
  test priceIntent question = true /\ exists lines, block = PRICE_HEADER ++ lines.
Proof.
  unfold price_block. destruct (test priceIntent question); [|discriminate].
  intros E. split; [reflexivity|].
  destruct (structured_prices sources).
  - injection E as <-. eauto.
  - destruct (flat_map _ sources); [discriminate|]. injection E as <-. eauto.
Qed.

End Reply.

Module Examples2.
Definition plans_only : SourceItem :=
  Source.Make (js "doc3") (js "c.pdf") [] (Some [])
    (Some [Plan.Make (js "Basic") (Some 1000) []]) (Some []) (Some []) None.
End Examples2.

(** C10 as stated fails: the text of the only source is empty, and the
    reply to a price question is the price block of its plan, not the
    no-usable-text message. *)
Lemma C10_counterexample :
  (forall s, s ∈ [Examples2.plans_only] -> Source.text s = [])
  /\ HomePage.buildAssistantReply (js "料金") [Examples2.plans_only]
     = HomePage.PRICE_HEADER ++ js "Basic: 1,000円/月"
  /\ HomePage.buildAssistantReply (js "料金") [Examples2.plans_only] <> HomePage.NO_TEXT.
Proof.
  split; [|split].
  - intros s Hin. apply list_elem_of_singleton in Hin as ->. reflexivity.
  - vm_compute. reflexivity.
  - vm_compute. discriminate.
Qed.

(** ** The URL guard *)

Section UrlGuard.
Context `{Platform}.
Import UrlExtract.

(** The hosts that the specification lists. *)
Definition listed_private (host : jsstring) : Prop :=
  host = js "localhost" \/ host = js "0.0.0.0"
  \/ (exists pre, host = pre ++ js ".local")
  \/ (exists rest, host = js "127." ++ rest)
  \/ (exists rest, host = js "10." ++ rest)
  \/ (exists rest, host = js "192.168." ++ rest)
  \/ (exists n rest, 16 <= n <= 31 /\ host = js "172." ++ decimal n ++ js "." ++ rest).

Lemma startsWith_app p q : startsWith p (p ++ q) = true.
Proof. induction p as [|c p IH]; simpl; [reflexivity|]. now rewrite Z.eqb_refl. Qed.

Lemma endsWith_app p q : endsWith p (q ++ p) = true.
Proof. unfold endsWith. rewrite rev_app_distr. apply startsWith_app. Qed.

Lemma private172_range n rest :
  16 <= n <= 31 -> test private172 (js "172." ++ decimal n ++ js "." ++ rest) = true.
Proof.
  intros Hn.
  assert (n = 16 \/ n = 17 \/ n = 18 \/ n = 19 \/ n = 20 \/ n = 21 \/ n = 22 \/ n = 23
          \/ n = 24 \/ n = 25 \/ n = 26 \/ n = 27 \/ n = 28 \/ n = 29 \/ n = 30 \/ n = 31)
    as Hcases by lia.
  repeat (destruct Hcases as [->|Hcases]; [vm_compute; reflexivity|]).
  subst n. vm_compute. reflexivity.
Qed.

Lemma isPrivateHostname_listed host :
  toLowerCase host = host -> listed_private host -> isPrivateHostname host = true.
Proof.
  intros Hlow Hl. unfold isPrivateHostname. rewrite Hlow.
  destruct (str_eqb host (js "localhost")) eqn:E1; [reflexivity|].
  destruct (endsWith (js ".local") host) eqn:E2; [reflexivity|].
  destruct (str_eqb host (js "0.0.0.0") || startsWith (js "127.") host) eqn:E3; [reflexivity|].
  destruct (startsWith (js "10.") host) eqn:E4; [reflexivity|].
  destruct (startsWith (js "192.168.") host) eqn:E5; [reflexivity|].
  destruct (test private172 host) eqn:E6; [reflexivity|].
  apply orb_false_iff in E3 as [E3 E3'].
  destruct Hl as [->|[->|[[pre ->]|[[rest ->]|[[rest ->]|[[rest ->]|(n & rest & Hn & ->)]]]]]].
  - rewrite str_eqb_refl in E1. discriminate.
  - rewrite str_eqb_refl in E3. discriminate.
  - rewrite endsWith_app in E2. discriminate.
  - rewrite startsWith_app in E3'. discriminate.
  - rewrite startsWith_app in E4. discriminate.
  - rewrite startsWith_app in E5. discriminate.
  - rewrite (private172_range n rest Hn) in E6. discriminate.
Qed.

End UrlGuard.

(** C9: a URL whose scheme is neither http nor https is answered with the
    protocol error, and a URL whose host is one that the specification
    lists (localhost, 0.0.0.0, a name ending in .local, a name starting
    with 127., 10., 192.168. or 172.16. to 172.31.) with the protocol or the
    host error; in both cases nothing was fetched.  The hostname of a
    parsed URL is in lower case. *)
Theorem C9_url_guard_rejects_before_fetch `{Platform}
    (fetch : jsstring -> UrlExtract.fetch_result) (body : json number)
    (s : jsstring) (parsed : url) :
  prop (js "url") body = Some (JStr s) ->
  trim s <> [] ->
  URL_parse (trim s) = Some parsed ->
  (protocol parsed <> js "http:" -> protocol parsed <> js "https:" ->
   UrlExtract.POST fetch (Some body) = (UrlExtract.error 400 (js "http/https only"), []))
  /\ (listed_private (hostname parsed) ->
      toLowerCase (hostname parsed) = hostname parsed ->
      UrlExtract.POST fetch (Some body) = (UrlExtract.error 400 (js "http/https only"), [])
      \/ UrlExtract.POST fetch (Some body)
         = (UrlExtract.error 400 (js "private host is not allowed"), [])).
Proof.
  intros Hurl Hraw Hparse.
  assert (Hbody : body <> JNull) by (intros ->; discriminate).
  assert (Htruthy : truthy (trim s) = true) by (destruct (trim s); [congruence|reflexivity]).
  unfold UrlExtract.POST.
  destruct body; try congruence; rewrite Hurl; simpl; rewrite Htruthy, Hparse; simpl.
  all: split.
  all: try (intros Hh Hs;
            apply str_eqb_neq in Hh; apply str_eqb_neq in Hs; rewrite Hh, Hs; reflexivity).
  all: intros Hl Hlow;
       rewrite (isPrivateHostname_listed _ Hlow Hl);
       destruct (str_eqb (protocol parsed) (js "http:")
                 || str_eqb (protocol parsed) (js "https:")); simpl; auto.
Qed.

Lemma C9_witness :
  UrlExtract.POST (fun _ => UrlExtract.FetchRejects)
    (Some (JObj [(js "url", JStr (js "ftp://example.com/file"))]))
  = (UrlExtract.error 400 (js "http/https only"), [])
  /\ (UrlExtract.POST (fun _ => UrlExtract.FetchRejects)
        (Some (JObj [(js "url", JStr (js " http://10.0.0.5/page "))]))
      = (UrlExtract.error 400 (js "http/https only"), [])
      \/ UrlExtract.POST (fun _ => UrlExtract.FetchRejects)
           (Some (JObj [(js "url", JStr (js " http://10.0.0.5/page "))]))
         = (UrlExtract.error 400 (js "private host is not allowed"), [])).
Proof.
  split.
  - refine (proj1 (C9_url_guard_rejects_before_fetch (fun _ => UrlExtract.FetchRejects)
                     (JObj [(js "url", JStr (js "ftp://example.com/file"))])
                     (js "ftp://example.com/file")
                     (Url (js "ftp:") (js "example.com") (js "ftp://example.com/file"))
                     _ _ _) _ _).
    + reflexivity.
    + vm_compute. discriminate.
    + vm_compute. reflexivity.
    + vm_compute. discriminate.
    + vm_compute. discriminate.
  - refine (proj2 (C9_url_guard_rejects_before_fetch (fun _ => UrlExtract.FetchRejects)
                     (JObj [(js "url", JStr (js " http://10.0.0.5/page "))])
                     (js " http://10.0.0.5/page ")
                     (Url (js "http:") (js "10.0.0.5") (js "http://10.0.0.5/page"))
                     _ _ _) _ _).
    + reflexivity.
    + vm_compute. discriminate.
    + vm_compute. reflexivity.
    + right. right. right. right. left. exists (js "0.0.5"). reflexivity.
    + vm_compute. reflexivity.
Defined.

(** The scenario of the specification: the host error, and no fetch. *)
Example url_guard_private_address fetch :
  UrlExtract.POST fetch (Some (JObj [(js "url", JStr (js "http://10.0.0.5/page"))]))
  = (UrlExtract.error 400 (js "private host is not allowed"), []).
Proof. vm_compute. reflexivity. Qed.

(** A public page is fetched, once. *)
Example url_guard_public_page :
  UrlExtract.POST
    (fun _ => UrlExtract.FetchResponse true 200 (Some (js "text/html; charset=utf-8"))
                (Some (js "<html><title>Plans</title><body><p>Basic&nbsp;plan</p></body></html>")))
    (Some (JObj [(js "url", JStr (js "https://example.com/"))]))
  = ({| UrlExtract.status := 200;
        UrlExtract.body :=
          UrlExtract.ExtractBody
            {| UrlExtract.title := js "Plans"; UrlExtract.text := js "Plans Basic plan" |} |},
     [js "https://example.com/"]).
Proof. vm_compute. reflexivity. Qed.

(** ** Frame reasoning for the handlers *)

Section Frames.
Context `{Platform}.
Import HomePage.

(** A computation keeps an observation [X] of the world. *)
Definition keeps {A B} (X : World -> B) (m : M A) : Prop :=
  forall w, X (snd (m w)) = X w.

Lemma keeps_ret {A B} (X : World -> B) (a : A) : keeps X (ret a).
Proof. intros w. reflexivity. Qed.

Lemma keeps_throw {A B} (X : World -> B) e : keeps X (@throw _ A e).
Proof. intros w. reflexivity. Qed.

Lemma keeps_get {A B} (X : World -> B) (f : World -> A) : keeps X (get f).
Proof. intros w. reflexivity. Qed.

Lemma keeps_modify {B} (X : World -> B) f :
  (forall w, X (f w) = X w) -> keeps X (modify f).
Proof. intros Hf w. apply Hf. Qed.

Lemma snd_bind {A B} (m : M A) (f : A -> M B) w :
  snd (bind m f w)
  = match fst (m w) with
    | Ok a => snd (f a (snd (m w)))
    | Throw _ => snd (m w)
    end.
Proof. unfold bind. destruct (m w) as [[a|e] w']; reflexivity. Qed.

Lemma fst_bind {A B} (m : M A) (f : A -> M B) w :
  fst (bind m f w)
  = match fst (m w) with
    | Ok a => fst (f a (snd (m w)))
    | Throw e => Throw e
    end.
Proof. unfold bind. destruct (m w) as [[a|e] w']; reflexivity. Qed.

Lemma snd_try_catch {A} (m : M A) h w :
  snd (try_catch m h w)
  = match fst (m w) with
    | Ok _ => snd (m w)
    | Throw e => snd (h e (snd (m w)))
    end.
Proof. unfold try_catch. destruct (m w) as [[a|e] w']; reflexivity. Qed.

Lemma snd_finally {A} (m : M A) f w : snd (finally m f w) = f (snd (m w)).
Proof. unfold finally. destruct (m w) as [r w']. reflexivity. Qed.

Lemma keeps_bind {A B C} (X : World -> C) (m : M A) (f : A -> M B) :
  keeps X m -> (forall a, keeps X (f a)) -> keeps X (bind m f).
Proof.
  intros Hm Hf w. rewrite snd_bind. destruct (fst (m w)) as [a|e].
  - rewrite Hf. apply Hm.
  - apply Hm.
Qed.

Lemma keeps_try_catch {A C} (X : World -> C) (m : M A) h :
  keeps X m -> (forall e, keeps X (h e)) -> keeps X (try_catch m h).
Proof.
  intros Hm Hh w. rewrite snd_try_catch. destruct (fst (m w)) as [a|e].
  - apply Hm.
  - rewrite Hh. apply Hm.
Qed.

Lemma keeps_finally {A C} (X : World -> C) (m : M A) f :
  keeps X m -> (forall w, X (f w) = X w) -> keeps X (finally m f).
Proof. intros Hm Hf w. rewrite snd_finally, Hf. apply Hm. Qed.

(** What follows a step does not show in [X] when it keeps [X]. *)
Lemma after_bind {A B C} (X : World -> C) (m : M A) (f : A -> M B) w :
  (forall a, keeps X (f a)) -> X (snd (bind m f w)) = X (snd (m w)).
Proof.
  intros Hf. rewrite snd_bind. destruct (fst (m w)) as [a|e]; [apply Hf|reflexivity].
Qed.

Lemma after_try_catch {A C} (X : World -> C) (m : M A) h w :
  (forall e, keeps X (h e)) -> X (snd (try_catch m h w)) = X (snd (m w)).
Proof.
  intros Hh. rewrite snd_try_catch. destruct (fst (m w)) as [a|e]; [reflexivity|apply Hh].
Qed.

(** The blobs that the calls of a log asked the store to delete. *)
Definition deleted_objects (cs : list Call) : list jsstring :=
  flat_map (fun c => match c with DeleteObject p => [p] | _ => [] end) cs.

Definition asked (w : World) : list jsstring := deleted_objects (calls w).

Lemma deleted_objects_app a b :
  deleted_objects (a ++ b) = deleted_objects a ++ deleted_objects b.
Proof. apply flat_map_app. Qed.

Lemma backend_world c w :
  firestore (snd (backend c w)) = firestore w
  /\ blobs (snd (backend c w)) = blobs w
  /\ calls (snd (backend c w)) = calls w ++ [c].
Proof. unfold backend. destruct (outage_after w) as [[|n]|]; repeat split. Qed.

Lemma backend_up c w :
  outage_after w = None ->
  fst (backend c w) = Ok tt /\ outage_after (snd (backend c w)) = None.
Proof. unfold backend. intros ->. split; reflexivity. Qed.

Lemma keeps_blobs_logError context : keeps blobs (logError context).
Proof. intros w. reflexivity. Qed.

Lemma keeps_asked_logError context : keeps asked (logError context).
Proof. intros w. reflexivity. Qed.

Lemma keeps_blobs_deleteDoc path id : keeps blobs (deleteDoc path id).
Proof.
  intros w. unfold deleteDoc. rewrite snd_bind.
  destruct (fst (backend (DeleteDoc path id) w)); [|apply backend_world].
  cbn. apply backend_world.
Qed.

Lemma keeps_asked_deleteDoc path id : keeps asked (deleteDoc path id).
Proof.
  intros w. unfold deleteDoc. rewrite snd_bind.
  assert (E : asked (snd (backend (DeleteDoc path id) w)) = asked w).
  { unfold asked. destruct (backend_world (DeleteDoc path id) w) as (_ & _ & ->).
    rewrite deleted_objects_app. cbn. apply app_nil_r. }
  destruct (fst (backend (DeleteDoc path id) w)); [|exact E].
  cbn. exact E.
Qed.

Lemma asked_deleteObject path w :
  asked (snd (deleteObject path w)) = asked w ++ [path].
Proof.
  unfold deleteObject. rewrite snd_bind.
  assert (E : asked (snd (backend (DeleteObject path) w)) = asked w ++ [path]).
  { unfold asked. destruct (backend_world (DeleteObject path) w) as (_ & _ & ->).
    rewrite deleted_objects_app. reflexivity. }
  destruct (fst (backend (DeleteObject path) w)); [|exact E].
  unfold bind, get. cbn.
  destruct (bool_decide _); cbn; exact E.
Qed.

Lemma blobs_deleteObject path w :
  outage_after w = None ->
  blobs (snd (deleteObject path w)) = blobs w ∖ {[path]}.
Proof.
  intros Hup. unfold deleteObject. rewrite snd_bind.
  destruct (backend_up (DeleteObject path) w Hup) as [-> _].
  destruct (backend_world (DeleteObject path) w) as (_ & Hb & _).
  unfold bind, get. cbn.
  destruct (bool_decide _) eqn:Hin; cbn; rewrite Hb; [reflexivity|].
  apply bool_decide_eq_false in Hin. rewrite Hb in Hin. set_solver.
Qed.

End Frames.

(** ** The knowledge store: deleting a source *)

Section Delete.
Context `{Platform}.
Import HomePage.

(** The blob of a source is to be deleted with it. *)
Definition deletes_blob (v : View) (source : SourceItem) : bool :=
  present (Source.storagePath source)
  && (negb (is_team v) || negb (present (Source.inheritedFromDocumentId source))).

(** The part of the handler after the blob. *)
Lemma delete_rest_keeps {B} (X : World -> B) v uid source :
  (forall path id, keeps X (deleteDoc path id)) ->
  (forall w, X (setSelectedKnowledge None w) = X w) ->
  keeps X
    (let forget :=
       if bool_decide (sk_id <$> selectedKnowledge v = Some (Source.id source))
       then modify (setSelectedKnowledge None)
       else ret tt in
     if is_team v
     then
       if negb (present (selectedChatId v)) then ret tt
       else
         bind (deleteDoc [USERS; uid; CHATS; default [] (selectedChatId v); DOCUMENTS]
                 (Source.id source)) (fun _ => forget)
     else
       bind (deleteDoc [USERS; uid; DOCUMENTS] (Source.id source)) (fun _ => forget)).
Proof.
  intros Hd Hs. cbv zeta.
  assert (Hf : keeps X
                 (if bool_decide (sk_id <$> selectedKnowledge v = Some (Source.id source))
                  then modify (setSelectedKnowledge None) else ret tt)).
  { destruct (bool_decide _); [apply keeps_modify, Hs|apply keeps_ret]. }
  destruct (is_team v).
  - destruct (negb (present (selectedChatId v))); [apply keeps_ret|].
    apply keeps_bind; [apply Hd|intros _; exact Hf].
  - apply keeps_bind; [apply Hd|intros _; exact Hf].
Qed.

(** The handler, once the deletion goes through, shows in [X] what its
    blob step shows. *)
Lemma handleDeleteSource_step {B} (X : World -> B) br v source uid w :
  (forall path id, keeps X (deleteDoc path id)) ->
  (forall context, keeps X (logError context)) ->
  (forall x w, X (setSelectedKnowledge x w) = X w) ->
  (forall x w, X (setDeletingSourceId x w) = X w) ->
  authUser v = Some uid ->
  (is_team v = true -> present (selectedChatId v) = true) ->
  confirm br (js "「" ++ Source.name source ++ js "」を削除しますか？") = true ->
  X (snd (handleDeleteSource br v source w))
  = X (snd ((if deletes_blob v source
             then deleteObject (default [] (Source.storagePath source))
             else ret tt)
            (setDeletingSourceId (Some (Source.id source)) w))).
Proof.
  intros Hd Hl Hk Hs Hu Hchat Hc. unfold handleDeleteSource.
  rewrite Hu, Hc.
  assert (Hguard : is_team v && negb (present (selectedChatId v)) = false).
  { destruct (is_team v); [rewrite (Hchat eq_refl)|]; reflexivity. }
  rewrite Hguard. cbn [negb].
  rewrite snd_bind. cbn [modify fst snd].
  rewrite snd_finally, Hs.
  rewrite (after_try_catch X) by (intros e; apply Hl).
  rewrite (after_bind X).
  - unfold deletes_blob. destruct (is_team v); reflexivity.
  - intros _. apply (delete_rest_keeps X v uid source Hd). intros w'. apply Hk.
Qed.

Lemma handleDeleteSource_blobs br v source uid w :
  authUser v = Some uid ->
  (is_team v = true -> present (selectedChatId v) = true) ->
  confirm br (js "「" ++ Source.name source ++ js "」を削除しますか？") = true ->
  outage_after w = None ->
  blobs (snd (handleDeleteSource br v source w))
  = if deletes_blob v source
    then blobs w ∖ {[default [] (Source.storagePath source)]}
    else blobs w.
Proof.
  intros Hu Hchat Hc Hup.
  rewrite (handleDeleteSource_step blobs br v source uid w
             keeps_blobs_deleteDoc keeps_blobs_logError
             (fun _ _ => eq_refl) (fun _ _ => eq_refl) Hu Hchat Hc).
  destruct (deletes_blob v source); [|reflexivity].
  rewrite blobs_deleteObject by exact Hup. reflexivity.
Qed.

Lemma handleDeleteSource_calls br v source uid w :
  authUser v = Some uid ->
  (is_team v = true -> present (selectedChatId v) = true) ->
  confirm br (js "「" ++ Source.name source ++ js "」を削除しますか？") = true ->
  asked (snd (handleDeleteSource br v source w))
  = asked w
    ++ (if deletes_blob v source then [default [] (Source.storagePath source)] else []).
Proof.
  intros Hu Hchat Hc.
  rewrite (handleDeleteSource_step asked br v source uid w
             keeps_asked_deleteDoc keeps_asked_logError
             (fun _ _ => eq_refl) (fun _ _ => eq_refl) Hu Hchat Hc).
  destruct (deletes_blob v source).
  - rewrite asked_deleteObject. reflexivity.
  - cbn. symmetry. apply app_nil_r.
Qed.

(** The deletion of an inherited team copy keeps [X], whatever the state
    is. *)
Lemma handleDeleteSource_inherited {B} (X : World -> B) br v source :
  (forall path id, keeps X (deleteDoc path id)) ->
  (forall context, keeps X (logError context)) ->
  (forall x w, X (setSelectedKnowledge x w) = X w) ->
  (forall x w, X (setDeletingSourceId x w) = X w) ->
  is_team v = true ->
  present (Source.inheritedFromDocumentId source) = true ->
  keeps X (handleDeleteSource br v source).
Proof.
  intros Hd Hl Hk Hs Ht Hi. unfold handleDeleteSource.
  destruct (authUser v) as [uid|]; [|apply keeps_ret].
  destruct (is_team v && negb (present (selectedChatId v))); [apply keeps_ret|].
  destruct (negb (confirm br _)); [apply keeps_ret|].
  apply keeps_bind; [apply keeps_modify; intros w; apply Hs|intros _].
  apply keeps_finally; [|intros w; apply Hs].
  apply keeps_try_catch; [|intros e; apply Hl].
  rewrite Ht, Hi. cbn [negb orb andb]. rewrite andb_false_r.
  apply keeps_bind; [apply keeps_ret|intros _].
  pose proof (delete_rest_keeps X v uid source Hd (fun w => Hk None w)) as Hrest.
  rewrite Ht in Hrest. exact Hrest.
Qed.

End Delete.

(** C3: when a deletion goes through (a signed-in user, in team scope a
    selected chat, and the confirmation), the handler asks the blob store
    to delete the blob of the source if and only if the source has a
    storage path and the scope is personal or the source is not inherited,
    and with the backend up exactly that blob is gone afterwards.  The
    deletion of an inherited team copy never deletes a blob, whatever the
    state is. *)
Theorem C3_delete_removes_blob_iff `{Platform} (br : HomePage.Browser) (v : HomePage.View)
    (source : SourceItem) (uid : jsstring) (w : HomePage.World) :
  HomePage.authUser v = Some uid ->
  (HomePage.is_team v = true -> HomePage.present (HomePage.selectedChatId v) = true) ->
  HomePage.confirm br (js "「" ++ Source.name source ++ js "」を削除しますか？") = true ->
  let w' := snd (HomePage.handleDeleteSource br v source w) in
  let wanted :=
    HomePage.present (Source.storagePath source)
    && (negb (HomePage.is_team v)
        || negb (HomePage.present (Source.inheritedFromDocumentId source))) in
  asked w' = asked w ++ (if wanted then [default [] (Source.storagePath source)] else [])
  /\ (HomePage.outage_after w = None ->
      HomePage.blobs w'
      = if wanted
        then HomePage.blobs w ∖ {[default [] (Source.storagePath source)]}
        else HomePage.blobs w)
  /\ (HomePage.is_team v = true ->
      HomePage.present (Source.inheritedFromDocumentId source) = true ->
      HomePage.blobs w' = HomePage.blobs w).
Proof.
  intros Hu Hchat Hc w' wanted. split; [|split].
  - apply (handleDeleteSource_calls br v source uid w Hu Hchat Hc).
  - intros Hup. apply (handleDeleteSource_blobs br v source uid w Hu Hchat Hc Hup).
  - intros Ht Hi.
    apply (handleDeleteSource_inherited HomePage.blobs br v source
             keeps_blobs_deleteDoc keeps_blobs_logError
             (fun _ _ => eq_refl) (fun _ _ => eq_refl) Ht Hi).
Qed.

Lemma C3_witness :
  let w' := snd (HomePage.handleDeleteSource Examples.browser Examples.personal_view
                   Examples.hello_a Examples.world) in
  let wanted :=
    HomePage.present (Source.storagePath Examples.hello_a)
    && (negb (HomePage.is_team Examples.personal_view)
        || negb (HomePage.present (Source.inheritedFromDocumentId Examples.hello_a))) in
  wanted = true
  /\ asked w'
     = asked Examples.world
       ++ (if wanted then [default [] (Source.storagePath Examples.hello_a)] else [])
  /\ (HomePage.outage_after Examples.world = None ->
      HomePage.blobs w'
      = if wanted
        then HomePage.blobs Examples.world
             ∖ {[default [] (Source.storagePath Examples.hello_a)]}
        else HomePage.blobs Examples.world).
Proof.
  intros w' wanted. split; [reflexivity|].
  pose proof (C3_delete_removes_blob_iff Examples.browser Examples.personal_view
                Examples.hello_a (js "u1") Examples.world eq_refl
                (fun Hteam : false = true => False_ind _ (Bool.diff_false_true Hteam))
                eq_refl) as (Hcalls & Hblobs & _).
  exact (conj Hcalls Hblobs).
Defined.

(** The deletion of a personal source deletes its blob. *)
Example delete_personal_source :
  let w' := snd (HomePage.handleDeleteSource Examples.browser Examples.personal_view
                   Examples.hello_a Examples.world) in
  HomePage.calls w'
  = [HomePage.DeleteObject Examples.path_a;
     HomePage.DeleteDoc [js "users"; js "u1"; js "documents"] (js "doc1")]
  /\ elements (HomePage.blobs w') = [Examples.path_b].
Proof. vm_compute. split; reflexivity. Qed.

(** The deletion of the inherited copy in the team chat leaves the blob of
    the owner in place. *)
Example delete_inherited_copy_keeps_blob :
  let w' := snd (HomePage.handleDeleteSource Examples.browser Examples.team_view
                   Examples.copy_of_a Examples.world) in
  HomePage.calls w'
  = [HomePage.DeleteDoc
       [js "users"; js "u1"; js "chats"; js "chat2"; js "documents"] (js "copy1")]
  /\ elements (HomePage.blobs w') = elements (HomePage.blobs Examples.world).
Proof. vm_compute. split; reflexivity. Qed.

(** ** The knowledge store: inheritance into a team chat *)

Section Inherit.
Context `{Platform}.
Import HomePage.

Lemma auto_id_fresh w path :
  auto_id w path <> []
  /\ (auto_id w path ∉ issued w)
  /\ collection w path !! auto_id w path = None.
Proof.
  unfold auto_id.
  pose proof (is_fresh ({[ [] ]} ∪ issued w ∪ dom (collection w path))) as Hf.
  repeat split.
  - intros E. apply Hf. rewrite E. set_solver.
  - intros E. apply Hf. set_solver.
  - apply not_elem_of_dom. intros E. apply Hf. set_solver.
Qed.

(** [addDoc] either fails, or writes the document under a new id. *)
Lemma addDoc_ok path data w id :
  fst (addDoc path data w) = Ok id ->
  id = auto_id w path
  /\ firestore (snd (addDoc path data w))
     = <[path := <[id := data (clock w)]> (collection w path)]> (firestore w).
Proof.
  unfold addDoc, bind, get, backend, modify, ret, set_world. cbn.
  destruct (outage_after w) as [[|n]|]; cbn; intros E; try discriminate;
    injection E as <-; split; reflexivity.
Qed.

Lemma collection_insert_eq w w' path c :
  firestore w' = <[path := c]> (firestore w) -> collection w' path = c.
Proof. intros E. unfold collection. rewrite E, lookup_insert_eq. reflexivity. Qed.

Lemma collection_insert_ne w w' path path' c :
  path <> path' ->
  firestore w' = <[path := c]> (firestore w) -> collection w' path' = collection w path'.
Proof.
  intros Hne E. unfold collection. rewrite E, lookup_insert_ne by assumption. reflexivity.
Qed.

(** One round of the loop of the copies. *)
Definition copy_to (path : list jsstring) (source : SourceItem) : M unit :=
  bind (addDoc path (inherited_copy source)) (fun _ => ret tt).

Lemma copy_to_ok path source w :
  fst (copy_to path source w) = Ok tt ->
  firestore (snd (copy_to path source w))
  = <[path := <[auto_id w path := inherited_copy source (clock w)]> (collection w path)]>
      (firestore w).
Proof.
  unfold copy_to. rewrite fst_bind, snd_bind.
  destruct (fst (addDoc path (inherited_copy source) w)) as [id|e] eqn:E; [|discriminate].
  intros _. destruct (addDoc_ok _ _ _ _ E) as [-> Hfs]. exact Hfs.
Qed.

(** The loop of the copies: when it ends without an error, every target
    has its copy under an id that the collection did not have, and the
    documents that were there are still there. *)
Lemma copies_written path targets : forall w,
  fst (for_each targets (copy_to path) w) = Ok tt ->
  let w' := snd (for_each targets (copy_to path) w) in
  (forall id d, collection w path !! id = Some d -> collection w' path !! id = Some d)
  /\ (forall path', path' <> path -> collection w' path' = collection w path')
  /\ (forall source, source ∈ targets ->
        exists id t, collection w path !! id = None
                     /\ collection w' path !! id = Some (inherited_copy source t)).
Proof.
  induction targets as [|a l IH]; intros w Hok; cbn [for_each] in *.
  - repeat split; auto. intros source Hin. apply elem_of_nil in Hin. contradiction.
  - rewrite fst_bind in Hok. rewrite snd_bind.
    destruct (fst (copy_to path a w)) as [[]|e] eqn:Ea; [|discriminate].
    pose proof (copy_to_ok path a w Ea) as Hfs.
    set (w1 := snd (copy_to path a w)) in *.
    specialize (IH w1 Hok). cbv zeta in IH. destruct IH as (Hkeep & Hother & Hnew).
    destruct (auto_id_fresh w path) as (_ & _ & Hfresh).
    assert (Hc1 : collection w1 path
                  = <[auto_id w path := inherited_copy a (clock w)]> (collection w path))
      by (eapply collection_insert_eq; exact Hfs).
    cbv zeta. repeat split.
    + intros id' d Hd. apply Hkeep. rewrite Hc1.
      rewrite lookup_insert_ne; [assumption|]. intros E. subst id'. congruence.
    + intros path' Hne. rewrite (Hother path' Hne).
      eapply collection_insert_ne; [|exact Hfs]. congruence.
    + intros source Hin. apply elem_of_cons in Hin as [->|Hin].
      * exists (auto_id w path), (clock w). split; [assumption|].
        apply Hkeep. rewrite Hc1. apply lookup_insert_eq.
      * destruct (Hnew source Hin) as (id' & t & Hnone & Hsome).
        exists id', t. split; [|assumption].
        rewrite Hc1 in Hnone.
        destruct (decide (id' = auto_id w path)) as [->|Hne].
        -- rewrite lookup_insert_eq in Hnone. discriminate.
        -- rewrite lookup_insert_ne in Hnone by congruence. assumption.
Qed.

End Inherit.

(** C6: when the creation of a team chat with inheritance returns the id
    [T] of the new thread, every selected personal source [A] has a new
    document in the document collection of [T] with the name, the text,
    the summary, the plans and the storage path of [A] (an absent summary,
    plan list or path is stored as the empty one), stamped with the id of
    [A]; [T] itself is a new team thread. *)
Theorem C6_inherit_copies_selected_sources `{Platform} (v : HomePage.View)
    (sourceIds : list jsstring) (w : HomePage.World) (T : jsstring) :
  fst (HomePage.createTeamChatWithInheritance v sourceIds w) = HomePage.Ok (Some T) ->
  let w' := snd (HomePage.createTeamChatWithInheritance v sourceIds w) in
  exists uid,
    HomePage.authUser v = Some uid
    /\ HomePage.collection w [HomePage.USERS; uid; HomePage.CHATS] !! T = None
    /\ (exists c, HomePage.collection w' [HomePage.USERS; uid; HomePage.CHATS] !! T
                  = Some (HomePage.ChatOf c)
                  /\ Thread.scopeType c = Thread.team)
    /\ forall A, A ∈ HomePage.globalSources v -> Source.id A ∈ sourceIds ->
       exists docid d,
         HomePage.collection w
           [HomePage.USERS; uid; HomePage.CHATS; T; HomePage.DOCUMENTS] !! docid = None
         /\ HomePage.collection w'
              [HomePage.USERS; uid; HomePage.CHATS; T; HomePage.DOCUMENTS] !! docid
            = Some (HomePage.DocOf d)
         /\ Doc.name d = Source.name A
         /\ Doc.text d = Source.text A
         /\ Doc.summary d = default [] (Source.summary A)
         /\ Doc.pricingPlans d = default [] (Source.pricingPlans A)
         /\ Doc.storagePath d = default [] (Source.storagePath A)
         /\ Doc.inheritedFromDocumentId d = Some (Source.id A).
Proof.
  unfold HomePage.createTeamChatWithInheritance.
  destruct (HomePage.authUser v) as [uid|]; [|cbn; discriminate].
  destruct (HomePage.selectedTeam v) as [team|]; [|cbn; discriminate].
  set (chats := [HomePage.USERS; uid; HomePage.CHATS]).
  set (chat := fun t : Z =>
                 HomePage.ChatOf (Thread.Make Thread.team (Team.id team) (Team.name team) t t)).
  set (targets := List.filter _ (HomePage.globalSources v)).
  set (w0 := HomePage.setCreatingChat true w).
  rewrite fst_bind, snd_bind. cbn [HomePage.modify fst snd]. fold w0.
  rewrite snd_finally. unfold HomePage.finally at 1.
  destruct (HomePage.try_catch _ _ w0) as [r w3] eqn:Etry. cbn [fst snd].
  intros ->.
  unfold HomePage.try_catch in Etry.
  match type of Etry with
  | (match ?body w0 with _ => _ end) = _ => destruct (body w0) as [[r|e] w2] eqn:Ebody
  end.
  2:{ unfold HomePage.bind, HomePage.logError, HomePage.modify, HomePage.ret in Etry.
      cbn in Etry. discriminate. }
  injection Etry as -> ->.
  assert (Hf := f_equal fst Ebody). assert (Hs := f_equal snd Ebody).
  cbn [fst snd] in Hf, Hs. clear Ebody.
  rewrite fst_bind in Hf. rewrite snd_bind in Hs.
  destruct (fst (HomePage.addDoc chats chat w0)) as [created|e] eqn:Ea; [|discriminate].
  destruct (addDoc_ok _ _ _ _ Ea) as [Hid Hfs].
  set (w1 := snd (HomePage.addDoc chats chat w0)) in *.
  set (docs := [HomePage.USERS; uid; HomePage.CHATS; created; HomePage.DOCUMENTS]) in *.
  change (HomePage.for_each targets _) with (HomePage.for_each targets (copy_to docs)) in Hf, Hs.
  rewrite fst_bind in Hf. rewrite snd_bind in Hs.
  destruct (fst (HomePage.for_each targets (copy_to docs) w1)) as [[]|e] eqn:El;
    [|discriminate].
  cbn in Hf. injection Hf as <-.
  cbn in Hs.
  destruct (copies_written docs targets w1 El) as (_ & Hother & Hnew).
  set (w2' := snd (HomePage.for_each targets (copy_to docs) w1)) in *.
  assert (Hcoll : forall path, HomePage.collection (HomePage.setCreatingChat false w3) path
                               = HomePage.collection w2' path).
  { intros path. rewrite <- Hs. reflexivity. }
  assert (Hcoll0 : forall path, HomePage.collection w0 path = HomePage.collection w path)
    by reflexivity.
  destruct (auto_id_fresh w0 chats) as (_ & _ & Hfresh).
  exists uid. split; [reflexivity|]. split; [|split].
  - fold chats. rewrite <- Hcoll0, Hid. exact Hfresh.
  - exists (Thread.Make Thread.team (Team.id team) (Team.name team)
              (HomePage.clock w0) (HomePage.clock w0)).
    split; [|reflexivity]. fold chats.
    rewrite Hcoll, (Hother chats) by (unfold chats, docs; congruence).
    rewrite (collection_insert_eq w0 w1 chats _ Hfs).
    apply lookup_insert_eq.
  - intros A HA Hsel.
    assert (Hin : A ∈ targets).
    { unfold targets. apply list_elem_of_In. apply filter_In. split.
      - apply list_elem_of_In. exact HA.
      - apply existsb_exists. exists (Source.id A). split.
        + apply list_elem_of_In. exact Hsel.
        + apply str_eqb_refl. }
    destruct (Hnew A Hin) as (docid & t & Hnone & Hsome).
    exists docid.
    exists (Doc.Make (Source.name A) (Source.text A) (default [] (Source.summary A))
              (default [] (Source.pricingPlans A)) (default [] (Source.storagePath A))
              None None (Some (Source.id A)) t t).
    fold docs. rewrite Hcoll.
    split; [|split; [exact Hsome|repeat split]].
    rewrite <- Hcoll0, <- Hnone. f_equal.
    symmetry. eapply (collection_insert_ne w0 w1 chats docs); [|exact Hfs].
    unfold chats, docs. congruence.
Qed.

Lemma C6_witness :
  fst (HomePage.createTeamChatWithInheritance Examples.team_view [js "doc1"] Examples.world)
  = HomePage.Ok (Some [1])
  /\ let w' := snd (HomePage.createTeamChatWithInheritance Examples.team_view [js "doc1"]
                     Examples.world) in
     exists uid,
       HomePage.authUser Examples.team_view = Some uid
       /\ HomePage.collection Examples.world [HomePage.USERS; uid; HomePage.CHATS] !! [1]
          = None
       /\ (exists c, HomePage.collection w' [HomePage.USERS; uid; HomePage.CHATS] !! [1]
                     = Some (HomePage.ChatOf c)
                     /\ Thread.scopeType c = Thread.team)
       /\ forall A, A ∈ HomePage.globalSources Examples.team_view ->
          Source.id A ∈ [js "doc1"] ->
          exists docid d,
            HomePage.collection Examples.world
              [HomePage.USERS; uid; HomePage.CHATS; [1]; HomePage.DOCUMENTS] !! docid = None
            /\ HomePage.collection w'
                 [HomePage.USERS; uid; HomePage.CHATS; [1]; HomePage.DOCUMENTS] !! docid
               = Some (HomePage.DocOf d)
            /\ Doc.name d = Source.name A
            /\ Doc.text d = Source.text A
            /\ Doc.summary d = default [] (Source.summary A)
            /\ Doc.pricingPlans d = default [] (Source.pricingPlans A)
            /\ Doc.storagePath d = default [] (Source.storagePath A)
            /\ Doc.inheritedFromDocumentId d = Some (Source.id A).
Proof.
  split.
  - vm_compute. reflexivity.
  - apply (C6_inherit_copies_selected_sources Examples.team_view [js "doc1"]
             Examples.world [1]).
    vm_compute. reflexivity.
Defined.

(** The same run: the thread and the copy that it writes. *)
Example inherit_run :
  HomePage.calls
    (snd (HomePage.createTeamChatWithInheritance Examples.team_view [js "doc1"]
            Examples.world))
  = [HomePage.AddDoc [js "users"; js "u1"; js "chats"] [1];
     HomePage.AddDoc [js "users"; js "u1"; js "chats"; [1]; js "documents"] [1; 1]].
Proof. vm_compute. reflexivity. Qed.

(** ** The answer engine in the page: [handleAsk] *)

Section Stable.
Context `{Platform}.
Import HomePage.

(** A computation never undoes a fact [P] of the world. *)
Definition stable {A} (P : World -> Prop) (m : M A) : Prop :=
  forall w, P w -> P (snd (m w)).

Lemma stable_ret {A} P (a : A) : stable P (ret a).
Proof. intros w Hw. exact Hw. Qed.

Lemma stable_throw {A} P e : stable P (@throw _ A e).
Proof. intros w Hw. exact Hw. Qed.

Lemma stable_modify P f : (forall w, P w -> P (f w)) -> stable P (modify f).
Proof. intros Hf w Hw. apply Hf, Hw. Qed.

Lemma stable_bind {A B} P (m : M A) (f : A -> M B) :
  stable P m -> (forall a, stable P (f a)) -> stable P (bind m f).
Proof.
  intros Hm Hf w Hw. rewrite snd_bind. destruct (fst (m w)) as [a|e].
  - apply Hf, Hm, Hw.
  - apply Hm, Hw.
Qed.

Lemma stable_try_catch {A} P (m : M A) h :
  stable P m -> (forall e, stable P (h e)) -> stable P (try_catch m h).
Proof.
  intros Hm Hh w Hw. rewrite snd_try_catch. destruct (fst (m w)) as [a|e].
  - apply Hm, Hw.
  - apply Hh, Hm, Hw.
Qed.

Lemma stable_finally {A} P (m : M A) f :
  stable P m -> (forall w, P w -> P (f w)) -> stable P (finally m f).
Proof. intros Hm Hf w Hw. rewrite snd_finally. apply Hf, Hm, Hw. Qed.

(** The document [d] is stored under [id] in the collection [path]. *)
Definition stored (path : list jsstring) (id : jsstring) (d : FsData) (w : World) : Prop :=
  collection w path !! id = Some d.

(** The call [c] was made. *)
Definition called (c : Call) (w : World) : Prop := c ∈ calls w.

Lemma stable_logError P context :
  (forall w e, P w ->
     P {| firestore := firestore w; blobs := blobs w; issued := issued w; clock := clock w;
          outage_after := outage_after w; calls := calls w; errors := e;
          st_selectedChatId := st_selectedChatId w; st_creatingChat := st_creatingChat w;
          st_deletingSourceId := st_deletingSourceId w;
          st_selectedKnowledge := st_selectedKnowledge w;
          st_question := st_question w; st_sending := st_sending w |}) ->
  stable P (logError context).
Proof. intros HP w Hw. apply HP, Hw. Qed.

Lemma stored_logError path id d context : stable (stored path id d) (logError context).
Proof. apply stable_logError. intros w e Hw. exact Hw. Qed.

Lemma called_logError c context : stable (called c) (logError context).
Proof. apply stable_logError. intros w e Hw. exact Hw. Qed.

Lemma stored_backend path id d c : stable (stored path id d) (backend c).
Proof.
  intros w Hw. unfold stored, collection in *.
  destruct (backend_world c w) as (-> & _ & _). exact Hw.
Qed.

Lemma called_backend c c' : stable (called c) (backend c').
Proof.
  intros w Hw. unfold called in *.
  destruct (backend_world c' w) as (_ & _ & ->). apply elem_of_app. left. exact Hw.
Qed.

Lemma backend_calls c w : called c (snd (backend c w)).
Proof.
  unfold called. destruct (backend_world c w) as (_ & _ & ->).
  apply elem_of_app. right. apply elem_of_cons. left. reflexivity.
Qed.

(** A new document does not replace a stored one. *)
Lemma stored_addDoc path id d path' data : stable (stored path id d) (addDoc path' data).
Proof.
  intros w Hw. unfold addDoc.
  rewrite snd_bind. cbn [get fst snd].
  rewrite snd_bind.
  pose proof (stored_backend path id d (AddDoc path' (auto_id w path')) w Hw) as Hb.
  destruct (fst (backend (AddDoc path' (auto_id w path')) w)); [|exact Hb].
  set (w1 := snd (backend _ w)) in *.
  rewrite snd_bind. cbn [modify ret fst snd].
  unfold stored, collection in *. cbn [set_world firestore].
  destruct (decide (path' = path)) as [->|Hne].
  - rewrite lookup_insert_eq. cbn.
    rewrite lookup_insert_ne; [exact Hb|].
    intros E.
    destruct (auto_id_fresh w path) as (_ & _ & Hfresh).
    unfold collection in Hfresh, Hw. rewrite E, Hw in Hfresh. discriminate.
  - rewrite lookup_insert_ne by assumption. exact Hb.
Qed.

Lemma called_addDoc c path data : stable (called c) (addDoc path data).
Proof.
  unfold addDoc. apply stable_bind; [intros w Hw; exact Hw|intros id].
  apply stable_bind; [apply called_backend|intros _].
  apply stable_bind; [|intros _; apply stable_ret].
  apply stable_modify. intros w Hw. exact Hw.
Qed.

(** A bump of a document of another collection leaves a stored one. *)
Lemma stored_updateDoc path id d path' id' :
  path' <> path -> stable (stored path id d) (updateDoc path' id').
Proof.
  intros Hne. unfold updateDoc.
  apply stable_bind; [apply stored_backend|intros _].
  apply stable_bind; [intros w Hw; exact Hw|intros found].
  destruct found as [d'|]; [|apply stable_throw].
  apply stable_modify. intros w Hw.
  unfold stored, collection in *. cbn [set_world firestore].
  rewrite lookup_insert_ne by assumption. exact Hw.
Qed.

Lemma called_updateDoc c path id : stable (called c) (updateDoc path id).
Proof.
  unfold updateDoc.
  apply stable_bind; [apply called_backend|intros _].
  apply stable_bind; [intros w Hw; exact Hw|intros found].
  destruct found as [d'|]; [|apply stable_throw].
  apply stable_modify. intros w Hw. exact Hw.
Qed.

(** With the backend up, [addDoc] stores the document and returns. *)
Lemma addDoc_up path data w :
  outage_after w = None ->
  fst (addDoc path data w) = Ok (auto_id w path)
  /\ outage_after (snd (addDoc path data w)) = None
  /\ calls (snd (addDoc path data w)) = calls w ++ [AddDoc path (auto_id w path)]
  /\ stored path (auto_id w path) (data (clock w)) (snd (addDoc path data w)).
Proof.
  intros Hup. unfold addDoc, bind, get, backend, modify, ret, stored, collection.
  rewrite Hup. cbn. repeat split.
  rewrite lookup_insert_eq. cbn. apply lookup_insert_eq.
Qed.

End Stable.
Section Ask.
Context `{Platform}.
Import HomePage.

(** The request that [generateAiReply] sends. *)
Definition chat_request (question : jsstring) (selectedSourceName : option jsstring)
    (sources : list SourceItem) : ChatRoute.Request :=
  {| ChatRoute.question := Some question;
     ChatRoute.selectedSourceName := selectedSourceName;
     ChatRoute.sources :=
       Some (map (fun source =>
                    {| ChatRoute.name := Source.name source;
                       ChatRoute.summary := Some (default [] (Source.summary source));
                       ChatRoute.text := Some (Source.text source);
                       ChatRoute.pricingPlans :=
                         Some (default [] (Source.pricingPlans source)) |})
               sources) |}.

(** The answer of the chat route as [handleAsk] keeps it: empty when the
    call fails. *)
Definition remote_answer (br : Browser) (request : ChatRoute.Request) : jsstring :=
  match api_chat br request with
  | Some response =>
    if in_range 200 299 (ChatRoute.status response)
    then match ChatRoute.body response with
         | ChatRoute.AnswerBody answer => trim answer
         | ChatRoute.ErrorBody _ => []
         end
    else []
  | None => []
  end.

Definition CHAT_API : Call := FetchApi (js "/api/chat").

(** The guarded call of the chat route: it always calls the route, and
    gives its answer or the empty string. *)
Lemma guarded_reply br question name sources w :
  let m := try_catch (generateAiReply br question name sources)
             (fun _ => bind (logError (js "chat-api")) (fun _ => ret [])) in
  fst (m w) = Ok (remote_answer br (chat_request question name sources))
  /\ outage_after (snd (m w)) = outage_after w
  /\ firestore (snd (m w)) = firestore w
  /\ issued (snd (m w)) = issued w
  /\ calls (snd (m w)) = calls w ++ [CHAT_API].
Proof.
  cbv zeta. unfold try_catch, generateAiReply, remote_answer.
  fold (chat_request question name sources).
  unfold bind at 1. cbn [modify].
  destruct (api_chat br (chat_request question name sources)) as [response|].
  - destruct (in_range 200 299 (ChatRoute.status response)); cbn.
    + destruct (ChatRoute.body response); cbn; repeat split.
    + repeat split.
  - cbn. repeat split.
Qed.

Lemma bind_ret {A B} (a : A) (f : A -> M B) w : bind (ret a) f w = f a w.
Proof. reflexivity. Qed.

(** The sources that a question is answered from. *)
Definition targetSources (v : View) : list SourceItem :=
  match selectedSource v with
  | Some source => [source]
  | None => sources v
  end.

(** What [handleAsk] stores as the reply: the answer of the route, or the
    local reply when there is none. *)
Definition reply_of (br : Browser) (v : View) : jsstring :=
  let userQuestion := trim (question v) in
  let answer :=
    remote_answer br
      (chat_request userQuestion (Source.name <$> selectedSource v) (targetSources v)) in
  if negb (truthy answer) then buildAssistantReply userQuestion (targetSources v)
  else answer.

Lemma stable_setSending P x :
  (forall w a b c d e f,
     P w -> P (set_state w a b c d e f)) ->
  forall w, P w -> P (setSending x w).
Proof. intros HP w Hw. apply HP, Hw. Qed.

(** A question that goes through (a signed-in user, a question that is not
    blank, no question in flight, a selected chat) with the backend up:
    the chat route is called, and the reply is stored as a message of the
    assistant. *)
Lemma handleAsk_stores_reply br v w uid chat :
  authUser v = Some uid ->
  truthy (trim (question v)) = true ->
  sending v = false ->
  selectedChatId v = Some chat ->
  truthy chat = true ->
  outage_after w = None ->
  let w' := snd (handleAsk br v w) in
  called CHAT_API w'
  /\ exists id t,
       stored [USERS; uid; CHATS; chat; MESSAGES] id
         (MessageOf (Message.Make Message.assistant (reply_of br v) t)) w'.
Proof.
  intros Hu Hq Hsend Hchat Hc Hup. cbv zeta.
  unfold handleAsk, ensureActiveChatId, present.
  rewrite Hu, Hq, Hsend, Hchat. cbn [negb orb from_option id]. rewrite Hc.
  rewrite (bind_ret (Some chat)). cbn [ret negb from_option id]. rewrite Hc. cbn [negb].
  set (messages := [USERS; uid; CHATS; chat; MESSAGES]).
  set (q := trim (question v)).
  fold (targetSources v).
  rewrite snd_bind. cbn [modify fst snd].
  rewrite snd_bind. cbn [modify fst snd].
  set (w1 := setSending true (setQuestion [] w)).
  assert (Hup1 : outage_after w1 = None) by exact Hup.
  rewrite snd_finally.
  assert (Hfin : forall (P : World -> Prop) x,
             (forall w a b c d e f, P w -> P (set_state w a b c d e f)) ->
             P x -> P (setSending false x)).
  { intros P x HP Hx. apply HP, Hx. }
  match goal with
  | |- context [try_catch ?body ?handler w1] =>
    set (BODY := body); set (HANDLER := handler)
  end.
  assert (Hh : forall P : World -> Prop,
             (forall c, stable P (logError c)) ->
             (forall path data, stable P (addDoc path data)) ->
             forall e, stable P (HANDLER e)).
  { intros P Hl Ha e. unfold HANDLER.
    apply stable_bind; [apply Hl|intros _].
    apply stable_try_catch; [|intros e'; apply Hl].
    apply stable_bind; [apply Ha|intros _; apply stable_ret]. }
  (* the body, step by step *)
  destruct (addDoc_up messages
              (fun t => MessageOf (Message.Make Message.user q t)) w1 Hup1)
    as (Hf1 & Hup2 & _ & _).
  set (w2 := snd (addDoc messages (fun t => MessageOf (Message.Make Message.user q t)) w1))
    in *.
  destruct (guarded_reply br q (Source.name <$> selectedSource v) (targetSources v) w2)
    as (Hf2 & Hup3 & _ & _ & Hcalls3).
  cbv zeta in Hf2, Hup3, Hcalls3.
  set (G := try_catch (generateAiReply br q (Source.name <$> selectedSource v)
                         (targetSources v)) _) in *.
  set (w3 := snd (G w2)) in *.
  rewrite Hup2 in Hup3.
  destruct (addDoc_up messages
              (fun t => MessageOf (Message.Make Message.assistant (reply_of br v) t))
              w3 Hup3) as (Hf4 & _ & _ & Hst4).
  set (w4 := snd (addDoc messages _ w3)) in *.
  assert (Hbody : snd (BODY w1) = snd (updateDoc [USERS; uid; CHATS] chat w4)).
  { unfold BODY. rewrite snd_bind, Hf1. fold w2. fold G.
    rewrite snd_bind, Hf2. fold w3.
    rewrite snd_bind.
    change (if negb (truthy (remote_answer br _)) then _ else _) with (reply_of br v).
    rewrite Hf4. reflexivity. }
  assert (Hcalled4 : called CHAT_API w4).
  { apply called_addDoc. unfold called. rewrite Hcalls3.
    apply elem_of_app. right. apply elem_of_cons. left. reflexivity. }
  assert (Hend : forall P : World -> Prop,
             (forall c, stable P (logError c)) ->
             (forall path data, stable P (addDoc path data)) ->
             stable P (updateDoc [USERS; uid; CHATS] chat) ->
             P w4 -> P (snd (try_catch BODY HANDLER w1))).
  { intros P Hl Ha Hud Hw4.
    pose proof (snd_try_catch BODY HANDLER w1) as Htc.
    rewrite Htc.
    assert (Hb : P (snd (BODY w1))) by (rewrite Hbody; apply Hud, Hw4).
    destruct (fst (BODY w1)) as [u|e]; [exact Hb|].
    apply (Hh P Hl Ha e), Hb. }
  split.
  - apply (Hfin (called CHAT_API) (snd (try_catch BODY HANDLER w1)));
      [intros; assumption|].
    apply (Hend (called CHAT_API));
      auto using called_logError, called_addDoc, called_updateDoc.
  - exists (auto_id w3 messages), (clock w3).
    set (d := MessageOf (Message.Make Message.assistant (reply_of br v) (clock w3))) in *.
    apply (Hfin (stored messages (auto_id w3 messages) d)
             (snd (try_catch BODY HANDLER w1))); [intros; assumption|].
    apply (Hend (stored messages (auto_id w3 messages) d));
      auto using stored_logError, stored_addDoc.
    apply stored_updateDoc. unfold messages. congruence.
Qed.

End Ask.

(** C2 (as amended): the local reply to a question without candidate sources
    is the upload-first message, for every question.  [handleAsk] calls the
    chat route first, also when there is no source: for a question that
    goes through with the backend up the call is made, and the stored reply
    is the answer of the route when it is not empty, and the upload-first
    message when the route gives no answer. *)
Theorem C2_empty_candidates_after_remote `{Platform} (br : HomePage.Browser)
    (v : HomePage.View) (w : HomePage.World) (uid chat : jsstring) :
  (forall q, HomePage.buildAssistantReply q [] = HomePage.UPLOAD_FIRST)
  /\ (HomePage.authUser v = Some uid ->
      truthy (trim (HomePage.question v)) = true ->
      HomePage.sending v = false ->
      HomePage.selectedChatId v = Some chat ->
      truthy chat = true ->
      HomePage.outage_after w = None ->
      HomePage.selectedKnowledge v = None ->
      HomePage.sources v = [] ->
      let w' := snd (HomePage.handleAsk br v w) in
      let answer :=
        remote_answer br (chat_request (trim (HomePage.question v)) None []) in
      called CHAT_API w'
      /\ exists id t,
           stored [HomePage.USERS; uid; HomePage.CHATS; chat; HomePage.MESSAGES] id
             (HomePage.MessageOf
                (Message.Make Message.assistant
                   (if truthy answer then answer else HomePage.UPLOAD_FIRST) t)) w').
Proof.
  split; [reflexivity|].
  intros Hu Hq Hsend Hchat Hc Hup Hk Hs w' answer.
  destruct (handleAsk_stores_reply br v w uid chat Hu Hq Hsend Hchat Hc Hup)
    as (Hcall & id & t & Hst).
  split; [exact Hcall|]. exists id, t.
  assert (E : reply_of br v = if truthy answer then answer else HomePage.UPLOAD_FIRST).
  { unfold reply_of, targetSources, HomePage.selectedSource. rewrite Hk, Hs. cbn.
    fold answer. destruct (truthy answer); reflexivity. }
  rewrite <- E. exact Hst.
Qed.

Module Examples3.
Import HomePage.

(** A world whose personal chat [chat1] exists. *)
Definition chat_world : World :=
  {| firestore :=
       {[ [USERS; js "u1"; CHATS]
          := {[ js "chat1" := ChatOf (Thread.Make Thread.personal [] [] 0 0) ]} ]};
     blobs := ∅; issued := ∅; clock := 1;
     outage_after := None; calls := []; errors := [];
     st_selectedChatId := Some (js "chat1"); st_creatingChat := false;
     st_deletingSourceId := None; st_selectedKnowledge := None;
     st_question := js "料金は?"; st_sending := false |}.

Definition messages1 : list jsstring := [USERS; js "u1"; CHATS; js "chat1"; MESSAGES].

(** The answer of the chat route without a credential. *)
Definition NO_KEY : jsstring :=
  js "OPENAI_API_KEY が未設定のため、拡張回答を生成できません。設定後に再試行してください。".
End Examples3.

Lemma C2_witness :
  let w' := snd (HomePage.handleAsk Examples.offline Examples.empty_view
                   Examples3.chat_world) in
  let answer :=
    remote_answer Examples.offline
      (chat_request (trim (HomePage.question Examples.empty_view)) None []) in
  called CHAT_API w'
  /\ exists id t,
       stored [HomePage.USERS; js "u1"; HomePage.CHATS; js "chat1"; HomePage.MESSAGES] id
         (HomePage.MessageOf
            (Message.Make Message.assistant
               (if truthy answer then answer else HomePage.UPLOAD_FIRST) t)) w'.
Proof.
  apply (proj2 (C2_empty_candidates_after_remote Examples.offline Examples.empty_view
                  Examples3.chat_world (js "u1") (js "chat1")));
    vm_compute; reflexivity.
Defined.

(** C2 as stated fails: without any source, and without a credential on the
    chat route, [handleAsk] calls the route and stores the answer of the
    route, not the upload-first message. *)
Lemma C2_counterexample :
  let w' := snd (HomePage.handleAsk Examples.browser Examples.empty_view
                   Examples3.chat_world) in
  HomePage.sources Examples.empty_view = []
  /\ HomePage.calls w'
     = [HomePage.AddDoc Examples3.messages1 [1];
        HomePage.FetchApi (js "/api/chat");
        HomePage.AddDoc Examples3.messages1 [1; 1];
        HomePage.UpdateDoc [js "users"; js "u1"; js "chats"] (js "chat1")]
  /\ HomePage.collection w' Examples3.messages1 !! [1; 1]
     = Some (HomePage.MessageOf (Message.Make Message.assistant Examples3.NO_KEY 2))
  /\ Examples3.NO_KEY <> HomePage.UPLOAD_FIRST.
Proof.
  cbv zeta. split; [reflexivity|]. split; [vm_compute; reflexivity|].
  split; [vm_compute; reflexivity|]. vm_compute. discriminate.
Qed.

(** With the chat route out of reach the same question gets the
    upload-first message, after the call. *)
Example ask_offline_without_sources :
  let w' := snd (HomePage.handleAsk Examples.offline Examples.empty_view
                   Examples3.chat_world) in
  HomePage.calls w'
  = [HomePage.AddDoc Examples3.messages1 [1];
     HomePage.FetchApi (js "/api/chat");
     HomePage.AddDoc Examples3.messages1 [1; 1];
     HomePage.UpdateDoc [js "users"; js "u1"; js "chats"] (js "chat1")]
  /\ HomePage.collection w' Examples3.messages1 !! [1; 1]
     = Some (HomePage.MessageOf (Message.Make Message.assistant HomePage.UPLOAD_FIRST 2))
  /\ HomePage.errors w' = [js "chat-api"].
Proof. vm_compute. repeat split; reflexivity. Qed.

(** ** The matcher only moves forward *)

(** The regex consumes at least one unit in every match. *)
Fixpoint nonnull (r : regex) : bool :=
  match r with
  | Unit _ | Point _ => true
  | Cat a b => nonnull a || nonnull b
  | Alt a b => nonnull a && nonnull b
  | Rep _ lo _ _ => (0 <? lo)%nat
  | Cap _ r' => nonnull r'
  | Eps | Behind _ | Ahead _ | Bol => false
  end.

Definition gain (b : bool) : nat := if b then 1%nat else 0%nat.

(** A forward matcher that hands over to its continuation at a position
    not before its own, and [n] units further at least. *)
Definition advances (n : nat)
    (m : (mstate -> option mstate) -> mstate -> option mstate) : Prop :=
  forall k x res, m k x = Some res ->
    exists y, k y = Some res /\ (length (after y) + n <= length (after x))%nat.

Lemma point_fwd_shorter a cp us a' :
  point_fwd a = Some (cp, us, a') -> (length a' + 1 <= length a)%nat.
Proof.
  unfold point_fwd. destruct a as [|hi [|lo a'']]; [discriminate| |].
  - intros E. injection E as <- <- <-. simpl. lia.
  - destruct (is_lead hi && is_trail lo); intros E; injection E as <- <- <-; simpl; lia.
Qed.

Lemma rounds_advances body greedy lo hi :
  advances 0 body ->
  forall fuel k n x res,
    rounds body Fwd greedy lo hi k fuel n x = Some res ->
    exists y, k y = Some res
              /\ (length (after y) + gain ((n <? lo)%nat) <= length (after x))%nat.
Proof.
  intros Hbody. induction fuel as [|fuel IH]; intros k n x res; simpl.
  - destruct (lo <=? n)%nat eqn:E; [|discriminate].
    apply Nat.leb_le in E. intros Hk. exists x. split; [exact Hk|].
    replace (n <? lo)%nat with false by (symmetry; apply Nat.ltb_ge; lia). simpl. lia.
  - assert (Hstop : (if (lo <=? n)%nat then k x else None) = Some res ->
                    exists y, k y = Some res
                      /\ (length (after y) + gain ((n <? lo)%nat) <= length (after x))%nat).
    { destruct (lo <=? n)%nat eqn:E; [|discriminate].
      apply Nat.leb_le in E. intros Hk. exists x. split; [exact Hk|].
      replace (n <? lo)%nat with false by (symmetry; apply Nat.ltb_ge; lia). simpl. lia. }
    assert (Hmore : (if below hi n
                     then body (fun y => if (length (after y) <? length (after x))%nat
                                         then rounds body Fwd greedy lo hi k fuel (S n) y
                                         else None) x
                     else None) = Some res ->
                    exists y, k y = Some res
                      /\ (length (after y) + gain ((n <? lo)%nat) <= length (after x))%nat).
    { destruct (below hi n); [|discriminate]. intros Hb.
      destruct (Hbody _ _ _ Hb) as (y1 & Hy1 & Hlen1).
      destruct (length (after y1) <? length (after x))%nat eqn:E; [|discriminate].
      apply Nat.ltb_lt in E.
      destruct (IH _ _ _ _ Hy1) as (y & Hy & Hlen). exists y. split; [exact Hy|].
      destruct (n <? lo)%nat; simpl; lia. }
    destruct greedy.
    + destruct (if below hi n then _ else None) as [y|] eqn:Em.
      * intros E. injection E as ->. apply Hmore. reflexivity.
      * exact Hstop.
    + destruct (if (lo <=? n)%nat then k x else None) as [y|] eqn:Es.
      * intros E. injection E as ->. apply Hstop. reflexivity.
      * exact Hmore.
Qed.

Lemma advances_weaken n n' m : (n' <= n)%nat -> advances n m -> advances n' m.
Proof.
  intros Hle Hm k x res Hr. destruct (Hm k x res Hr) as (y & Hy & Hlen).
  exists y. split; [exact Hy|lia].
Qed.

Lemma run_advances r : advances (gain (nonnull r)) (run r Fwd).
Proof.
  induction r as [|p|p|a IHa b IHb|a IHa b IHb|g lo hi r IH|i r IH|r _|r _|];
    intros k x res; cbn [run nonnull].
  - intros Hk. exists x. split; [exact Hk|simpl; lia].
  - destruct (after x) as [|c a] eqn:Ea; [discriminate|].
    destruct (p c); [|discriminate]. intros Hk. eexists. split; [exact Hk|]. simpl. lia.
  - destruct (point_fwd (after x)) as [[[cp us] a]|] eqn:Ep; [|discriminate].
    destruct (p cp); [|discriminate]. intros Hk. eexists. split; [exact Hk|]. simpl.
    apply point_fwd_shorter in Ep. exact Ep.
  - intros Hr.
    destruct (IHa _ _ _ Hr) as (y1 & Hy1 & Hl1).
    destruct (IHb _ _ _ Hy1) as (y2 & Hy2 & Hl2).
    exists y2. split; [exact Hy2|].
    destruct (nonnull a), (nonnull b); simpl in *; lia.
  - destruct (run a Fwd k x) as [y|] eqn:Ea.
    + intros E. injection E as ->.
      destruct (IHa _ _ _ Ea) as (y1 & Hy1 & Hl1). exists y1. split; [exact Hy1|].
      destruct (nonnull a), (nonnull b); simpl in *; lia.
    + intros Hr. destruct (IHb _ _ _ Hr) as (y1 & Hy1 & Hl1). exists y1. split; [exact Hy1|].
      destruct (nonnull a), (nonnull b); simpl in *; lia.
  - intros Hr.
    apply (rounds_advances (run r Fwd) g lo hi
             (advances_weaken _ 0 _ (Nat.le_0_l _) IH)) in Hr.
    destruct Hr as (y & Hy & Hl). exists y. split; [exact Hy|exact Hl].
  - intros Hr. destruct (IH _ _ _ Hr) as (y & Hy & Hl).
    exists (set_cap i (between Fwd x y) y). split; [exact Hy|exact Hl].
  - destruct (run r Bwd Some x) as [y|]; [|discriminate].
    intros Hk. eexists. split; [exact Hk|]. simpl. lia.
  - destruct (run r Fwd Some x) as [y|]; [|discriminate].
    intros Hk. eexists. split; [exact Hk|]. simpl. lia.
  - destruct (before x); [|discriminate]. intros Hk. exists x. split; [exact Hk|simpl; lia].
Qed.

(** A match ends at or after the position where it was looked for, and
    after it when the regex is not nullable. *)
Lemma match_at_advances r b a m :
  match_at r b a = Some m ->
  m_before m = b
  /\ (length (after (m_end m)) + gain (nonnull r) <= length a)%nat.
Proof.
  unfold match_at. destruct (run r Fwd Some (MState b a [])) as [y|] eqn:E; [|discriminate].
  intros Em. injection Em as <-. split; [reflexivity|].
  destruct (run_advances r _ _ _ E) as (y' & Hy & Hl). injection Hy as ->. exact Hl.
Qed.

Lemma search_advances r : forall a b m,
  search r b a = Some m ->
  (length (after (m_end m)) + gain (nonnull r) <= length a)%nat.
Proof.
  induction a as [|c a IH]; intros b m; simpl.
  - destruct (match_at r b []) as [m'|] eqn:E; [|discriminate].
    intros Em. injection Em as ->. apply (match_at_advances _ _ _ _ E).
  - destruct (match_at r b (c :: a)) as [m'|] eqn:E.
    + intros Em. injection Em as ->. apply (match_at_advances _ _ _ _ E).
    + intros Hs. apply IH in Hs. simpl. lia.
Qed.

(** The loop over the matches of a regex that is not nullable ends. *)
Lemma exec_loop_total r :
  nonnull r = true ->
  forall fuel b a, (length a < fuel)%nat -> exists ms, exec_loop fuel r b a = Some ms.
Proof.
  intros Hn. induction fuel as [|fuel IH]; intros b a Hlt; [lia|]. simpl.
  destruct (search r b a) as [m|] eqn:Es; [|eauto].
  pose proof (search_advances r a b m Es) as Hl. rewrite Hn in Hl. simpl in Hl.
  replace (length (after (m_end m)) <? length a)%nat with true
    by (symmetry; apply Nat.ltb_lt; lia).
  destruct (IH (before (m_end m)) (after (m_end m))) as [ms Hms]; [lia|].
  rewrite Hms. eauto.
Qed.

Lemma exec_all_total r s : nonnull r = true -> exists ms, exec_all r s = Some ms.
Proof. intros Hn. apply (exec_loop_total r Hn). lia. Qed.
(** ** The analysis pipeline *)

Section Maps.
Context {V : Type}.

Lemma map_has_false key (m : list (jsstring * V)) :
  map_has key m = false -> key ∉ map fst m.
Proof.
  unfold map_has. induction m as [|[k v] m IH]; simpl; intros Hh Hin.
  - apply elem_of_nil in Hin. exact Hin.
  - apply orb_false_iff in Hh as [Hk Hm].
    apply elem_of_cons in Hin as [->|Hin].
    + rewrite str_eqb_refl in Hk. discriminate.
    + exact (IH Hm Hin).
Qed.

(** A new key goes last. *)
Lemma map_set_new key v (m : list (jsstring * V)) :
  map_has key m = false -> map_set key v m = m ++ [(key, v)].
Proof.
  unfold map_has. induction m as [|[k v'] m IH]; simpl; intros Hh; [reflexivity|].
  apply orb_false_iff in Hh as [Hk Hm]. rewrite Hk. f_equal. exact (IH Hm).
Qed.

(** [set] keeps the keys of the map, in their order, and adds a new one
    at the end. *)
Lemma map_set_keys key v (m : list (jsstring * V)) :
  map fst (map_set key v m)
  = if map_has key m then map fst m else map fst m ++ [key].
Proof.
  unfold map_has. induction m as [|[k v'] m IH]; simpl; [reflexivity|].
  destruct (str_eqb k key) eqn:E; simpl; [reflexivity|].
  rewrite IH. destruct (existsb _ m); reflexivity.
Qed.

Lemma lookup_firstn_map {B} (f : V -> B) : forall (l : list V) n i y,
  firstn n (map f l) !! i = Some y -> exists x, l !! i = Some x /\ f x = y.
Proof.
  induction l as [|a l IH]; intros n i y; destruct n; simpl; try discriminate.
  destruct i; simpl.
  - intros E. injection E as <-. eauto.
  - apply IH.
Qed.

Lemma lookup_map {B} (f : V -> B) : forall (l : list V) i x,
  l !! i = Some x -> map f l !! i = Some (f x).
Proof.
  induction l as [|a l IH]; intros i x; destruct i; simpl; try discriminate.
  - intros E. injection E as <-. reflexivity.
  - apply IH.
Qed.

End Maps.

Section Fallback.
Context `{Platform}.
Import PdfAnalyze.

Definition DEFAULT_NAME : jsstring := js "プラン".

Lemma planRegex_nonnull : nonnull planRegex = true.
Proof. reflexivity. Qed.

(** An entry of the map of [fallbackAnalyze]: its key is made of the name
    that the regex captured and of the amount, and its plan keeps the
    name, or the default for an empty one. *)
Definition entry_ok (e : jsstring * PricingPlan) : Prop :=
  exists raw n,
    fst e = raw ++ js "-" ++ string_of_number n
    /\ Plan.name (snd e) = or_else raw DEFAULT_NAME
    /\ Plan.priceMonthlyYen (snd e) = Some n
    /\ Plan.note (snd e) = [].

Definition map_ok (m : list (jsstring * PricingPlan)) : Prop :=
  NoDup (map fst m) /\ Forall entry_ok m.

Lemma add_plan_ok m x : map_ok m -> map_ok (add_plan m x).
Proof.
  intros [Hnd Hall]. unfold add_plan.
  set (name := replace_all ws_run (js " ") (trim (default [] (m_group 1 x)))).
  set (price := Number_of_string (strip_commas (default [] (m_group 2 x)))).
  set (key := name ++ js "-" ++ string_of_number price).
  destruct (map_has key m) eqn:Eh; simpl; [split; assumption|].
  rewrite (map_set_new _ _ _ Eh). split.
  - rewrite map_app. simpl. apply NoDup_app. repeat split.
    + exact Hnd.
    + intros k Hk Hk'. apply list_elem_of_singleton in Hk' as ->.
      exact (map_has_false _ _ Eh Hk).
    + apply NoDup_singleton.
  - apply Forall_app. split; [exact Hall|].
    apply Forall_cons. split; [|apply Forall_nil; exact I].
    exists name, price. repeat split.
Qed.

Lemma fold_add_plan_ok ms : forall m, map_ok m -> map_ok (fold_left add_plan ms m).
Proof.
  induction ms as [|x ms IH]; intros m Hm; simpl; [exact Hm|].
  apply IH, add_plan_ok, Hm.
Qed.

Lemma or_else_not_empty a b : b <> [] -> or_else a b <> [].
Proof. unfold or_else. destruct a; simpl; [auto|discriminate]. Qed.

Lemma or_else_other a b : or_else a b <> b -> or_else a b = a.
Proof. unfold or_else. destruct a; simpl; congruence. Qed.

(** The fallback returns, for every text. *)
Lemma fallbackAnalyze_total text :
  exists ms,
    exec_all planRegex (sanitizeText text) = Some ms
    /\ fallbackAnalyze text
       = Some {| summary := or_else (slice0 180 (sanitizeText text)) NO_SUMMARY;
                 plans := firstn 8 (map_values (fold_left add_plan ms [])) |}.
Proof.
  destruct (exec_all_total planRegex (sanitizeText text) planRegex_nonnull) as [ms Hms].
  exists ms. split; [exact Hms|]. unfold fallbackAnalyze. rewrite Hms. reflexivity.
Qed.

(** Two plans of a list agree on the name and on the price. *)
Definition same_plan (p q : PricingPlan) : Prop :=
  Plan.name p = Plan.name q /\ Plan.priceMonthlyYen p = Plan.priceMonthlyYen q.

Lemma fallback_plans text r :
  fallbackAnalyze text = Some r ->
  (length (plans r) <= 8)%nat
  /\ Forall (fun p => Plan.name p <> []) (plans r)
  /\ (forall i j p q,
        plans r !! i = Some p -> plans r !! j = Some q -> i <> j ->
        Plan.name p <> DEFAULT_NAME -> Plan.name q <> DEFAULT_NAME ->
        ~ same_plan p q).
Proof.
  destruct (fallbackAnalyze_total text) as (ms & _ & ->).
  intros E. injection E as <-. simpl.
  assert (Hok : map_ok (fold_left add_plan ms [])).
  { apply fold_add_plan_ok. split; [apply NoDup_nil_2|apply Forall_nil; exact I]. }
  set (m := fold_left add_plan ms []) in *. destruct Hok as [Hnd Hall].
  split; [apply firstn_le_length|]. split.
  - apply Forall_forall. intros p Hp.
    apply list_elem_of_lookup in Hp as [i Hi].
    apply lookup_firstn_map in Hi as (e & He & <-).
    rewrite Forall_forall in Hall.
    destruct (Hall e) as (raw & n & _ & -> & _).
    { apply list_elem_of_lookup. eauto. }
    apply or_else_not_empty. vm_compute. discriminate.
  - intros i j p q Hi Hj Hij Hp Hq [Hname Hprice].
    apply lookup_firstn_map in Hi as (e1 & He1 & <-).
    apply lookup_firstn_map in Hj as (e2 & He2 & <-).
    rewrite Forall_forall in Hall.
    destruct (Hall e1) as (raw1 & n1 & Hk1 & Hn1 & Hp1 & _).
    { apply list_elem_of_lookup. eauto. }
    destruct (Hall e2) as (raw2 & n2 & Hk2 & Hn2 & Hp2 & _).
    { apply list_elem_of_lookup. eauto. }
    rewrite Hn1 in Hp, Hname. rewrite Hn2 in Hq, Hname.
    rewrite (or_else_other _ _ Hp), (or_else_other _ _ Hq) in Hname.
    rewrite Hp1, Hp2 in Hprice. injection Hprice as ->. subst raw2.
    apply Hij.
    apply (NoDup_lookup (map fst m) i j (fst e1) Hnd).
    + apply lookup_map. exact He1.
    + rewrite Hk1, <- Hk2. apply lookup_map. exact He2.
Qed.

(** The plans of a parsed reply have a name. *)
Lemma safeParse_plans raw r :
  safeParseAnalyze raw = Some r -> Forall (fun p => Plan.name p <> []) (plans r).
Proof.
  unfold safeParseAnalyze.
  destruct (JSON_parse raw) as [parsed|]; [|discriminate]. cbn.
  destruct (prop (js "summary") parsed) as [[| | |s| |]|]; try discriminate.
  destruct (prop (js "plans") parsed) as [[| | | |items|]|]; try discriminate.
  destruct (mapM plan_of_json items) as [ps|]; [|discriminate]. cbn.
  intros E. injection E as <-. cbn.
  apply Forall_forall. intros p Hp. apply list_elem_of_In, filter_In in Hp as [_ Hn].
  unfold has_name in Hn. destruct (Plan.name p); [discriminate|discriminate].
Qed.

End Fallback.
Section Analysis.
Context `{Platform}.
Import PdfAnalyze.

(** What the two producers of a plan list do guarantee.  A parsed reply
    of the model is only filtered: its entries have a name.  The local
    fallback always returns, with at most 8 entries, all named, and no
    two of its entries whose names are not the default name agree on the
    name and on the price. *)
Lemma plan_list_guarantees (raw text : jsstring) :
  (forall r, safeParseAnalyze raw = Some r ->
     Forall (fun p => Plan.name p <> []) (plans r))
  /\ exists r, fallbackAnalyze text = Some r
     /\ (length (plans r) <= 8)%nat
     /\ Forall (fun p => Plan.name p <> []) (plans r)
     /\ (forall i j p q,
           plans r !! i = Some p -> plans r !! j = Some q -> i <> j ->
           Plan.name p <> DEFAULT_NAME -> Plan.name q <> DEFAULT_NAME ->
           ~ same_plan p q).
Proof.
  split.
  - intros r. apply safeParse_plans.
  - destruct (fallbackAnalyze_total text) as (ms & _ & E).
    eexists. split; [exact E|]. exact (fallback_plans text _ E).
Qed.

Lemma exec_all_empty : exec_all planRegex [] = Some [].
Proof. vm_compute. reflexivity. Qed.

Lemma fallback_of_empty text :
  sanitizeText text = [] ->
  fallbackAnalyze text = Some {| summary := NO_SUMMARY; plans := [] |}.
Proof.
  intros E. unfold fallbackAnalyze. rewrite E, exec_all_empty. reflexivity.
Qed.

(** What the page sends to the route. *)
Definition analyze_request (fileName text : jsstring) : json number :=
  JObj [(js "fileName", JStr fileName); (js "text", JStr text)].

Definition TEXT_REQUIRED : response :=
  {| status := 400; body := ErrorBody (js "text is required") |}.

Lemma POST_empty_text env fileName text :
  sanitizeText text = [] -> POST env (Some (analyze_request fileName text)) = Some TEXT_REQUIRED.
Proof.
  intros E. unfold POST, analyze_request.
  change (prop (js "text") (JObj [(js "fileName", JStr fileName); (js "text", JStr text)]))
    with (Some (JStr text) : option (json number)).
  cbn [nullish]. rewrite E. reflexivity.
Qed.

(** C5 (amended).  For every file name, a text whose normalised form is
    empty is refused by the route with status 400 and the error
    [text is required], and the page's call of the route throws
    [analyze failed: 400]; the fixed summary is what [fallbackAnalyze]
    gives for such a text, with no plan, but the route does not reach
    it. *)
Theorem C5_empty_text_is_refused env (fileName text : jsstring) :
  sanitizeText text = [] ->
  POST env (Some (analyze_request fileName text)) = Some TEXT_REQUIRED
  /\ HomePage.analyzePdfText (fun b => POST env (Some b)) fileName text
     = HomePage.Throw (js "analyze failed: 400")
  /\ fallbackAnalyze text = Some {| summary := NO_SUMMARY; plans := [] |}.
Proof.
  intros E. split; [exact (POST_empty_text env fileName text E)|]. split.
  - unfold HomePage.analyzePdfText.
    change (JObj [(js "fileName", JStr fileName); (js "text", JStr text)])
      with (analyze_request fileName text).
    rewrite (POST_empty_text env fileName text E). reflexivity.
  - exact (fallback_of_empty text E).
Qed.

End Analysis.

Module Examples4.
Definition no_key : PdfAnalyze.Env :=
  {| PdfAnalyze.OPENAI_API_KEY := None;
     PdfAnalyze.OPENAI_MODEL := None;
     PdfAnalyze.fetch_responses := fun _ _ _ => Responses.FetchRejects |}.

(** A model that answers with the nine plans of [Ref.NINE_PLANS]. *)
Definition nine : PdfAnalyze.Env :=
  {| PdfAnalyze.OPENAI_API_KEY := Some (js "k");
     PdfAnalyze.OPENAI_MODEL := None;
     PdfAnalyze.fetch_responses := fun _ _ _ =>
       Responses.FetchResponse true
         (Some {| Responses.output_text := Some Ref.NINE_PLANS; Responses.output := None |}) |}.

Definition TWICE : jsstring := js "プラン 3000円/月 3000円/月".
End Examples4.

(** C4: the claim fails for both producers of a plan list.  The route
    asks the model for plans without duplicates, 8 at most, and its
    fallback removes duplicates and keeps 8 entries; but a reply of the
    model is only mapped and filtered by [safeParseAnalyze], so that a reply
    with the same plan nine times is returned with nine equal entries.
    The fallback keys its map on the captured name before it puts the
    default name in the place of an empty one: when a second amount
    follows the first one directly it returns the default name twice
    with the same price. *)
Theorem C4_plan_list_defects :
  PdfAnalyze.plans <$> PdfAnalyze.safeParseAnalyze Ref.NINE_PLANS
  = Some (replicate 9 (Plan.Make (js "A") (Some 1000) []))
  /\ (PdfAnalyze.body <$> PdfAnalyze.POST Examples4.nine
        (Some (analyze_request (js "a.pdf") (js "A 1000"))))
     = Some (PdfAnalyze.AnalyzeBody
               {| PdfAnalyze.summary := js "s";
                  PdfAnalyze.plans := replicate 9 (Plan.Make (js "A") (Some 1000) []) |})
  /\ PdfAnalyze.plans <$> PdfAnalyze.fallbackAnalyze Examples4.TWICE
     = Some [ Plan.Make (js "プラン") (Some 3000) [];
              Plan.Make (js "プラン") (Some 3000) [] ].
Proof. split; [|split]; vm_compute; reflexivity. Qed.

Lemma C5_witness :
  PdfAnalyze.sanitizeText (js "   ") = []
  /\ PdfAnalyze.POST Examples4.no_key (Some (analyze_request (js "a.pdf") (js "   ")))
     = Some TEXT_REQUIRED.
Proof.
  split; [vm_compute; reflexivity|].
  apply (C5_empty_text_is_refused Examples4.no_key (js "a.pdf") (js "   ")).
  vm_compute. reflexivity.
Defined.

(** The route refuses the blank text of a scanned page, and the page's
    call throws. *)
Lemma C5_counterexample :
  PdfAnalyze.POST Examples4.no_key (Some (analyze_request (js "scan.pdf") (js "   ")))
  = Some {| PdfAnalyze.status := 400;
            PdfAnalyze.body := PdfAnalyze.ErrorBody (js "text is required") |}
  /\ HomePage.analyzePdfText (fun b => PdfAnalyze.POST Examples4.no_key (Some b))
       (js "scan.pdf") (js "   ")
     = HomePage.Throw (js "analyze failed: 400").
Proof. split; vm_compute; reflexivity. Qed.

(** The [catch] of the route is the one place where the route itself
    answers with the fixed summary: a request whose body cannot be read. *)
Lemma POST_unreadable_request `{Platform} env :
  PdfAnalyze.POST env None
  = Some (PdfAnalyze.ok200 {| PdfAnalyze.summary := PdfAnalyze.NO_SUMMARY;
                              PdfAnalyze.plans := [] |}).
Proof. reflexivity. Qed.
(** ** The two normalisers of extracted text *)

Lemma space_not_lead c : is_space c = true -> is_lead c = false.
Proof.
  unfold is_space, is_lead, in_range. intros Hs.
  rewrite ?orb_true_iff, ?andb_true_iff, ?negb_true_iff, ?Z.leb_le, ?Z.ltb_ge,
    ?Z.eqb_eq in Hs.
  destruct (0xD800 <=? c) eqn:E1; [|reflexivity].
  destruct (0xDBFF <? c) eqn:E2; [reflexivity|].
  apply Z.leb_le in E1. apply Z.ltb_ge in E2. lia.
Qed.

Lemma space_not_trail c : is_space c = true -> is_trail c = false.
Proof.
  unfold is_space, is_trail, in_range. intros Hs.
  rewrite ?orb_true_iff, ?andb_true_iff, ?negb_true_iff, ?Z.leb_le, ?Z.ltb_ge,
    ?Z.eqb_eq in Hs.
  destruct (0xDC00 <=? c) eqn:E1; [|reflexivity].
  destruct (0xDFFF <? c) eqn:E2; [reflexivity|].
  apply Z.leb_le in E1. apply Z.ltb_ge in E2. lia.
Qed.

Lemma trail_not_lead c : is_trail c = true -> is_lead c = false.
Proof.
  unfold is_trail, is_lead, in_range. intros Hs.
  rewrite ?andb_true_iff, ?negb_true_iff, ?Z.leb_le, ?Z.ltb_ge in Hs.
  destruct (0xD800 <=? c) eqn:E1; [|reflexivity].
  destruct (0xDBFF <? c) eqn:E2; [reflexivity|].
  apply Z.leb_le in E1. apply Z.ltb_ge in E2. lia.
Qed.

Lemma drop_while_idem p s : drop_while p (drop_while p s) = drop_while p s.
Proof.
  induction s as [|c s IH]; simpl; [reflexivity|].
  destruct (p c) eqn:E; [exact IH|]. simpl. rewrite E. reflexivity.
Qed.

Lemma drop_while_split p s :
  exists l, s = l ++ drop_while p s /\ forallb p l = true.
Proof.
  induction s as [|c s (l & E & Hl)]; simpl.
  - exists []. split; reflexivity.
  - destruct (p c) eqn:Ec.
    + exists (c :: l). simpl. rewrite Ec, Hl. split; [f_equal; exact E|reflexivity].
    + exists []. split; reflexivity.
Qed.

Lemma drop_while_all p l : forallb p l = true -> drop_while p l = [].
Proof.
  induction l as [|c l IH]; simpl; [reflexivity|].
  intros Hc. apply andb_true_iff in Hc as [-> Hl]. exact (IH Hl).
Qed.

Lemma drop_while_snoc p l x :
  p x = false -> drop_while p (l ++ [x]) = drop_while p l ++ [x].
Proof.
  intros Hx. induction l as [|c l IH]; simpl.
  - rewrite Hx. reflexivity.
  - destruct (p c); [exact IH|reflexivity].
Qed.

Lemma trimEnd_split s :
  exists r, s = trimEnd s ++ r /\ forallb is_space r = true.
Proof.
  unfold trimEnd. destruct (drop_while_split is_space (rev s)) as (l & E & Hl).
  exists (rev l). split.
  - rewrite <- rev_app_distr, <- E, rev_involutive. reflexivity.
  - rewrite forallb_forall in *. intros x Hx. apply Hl, in_rev, Hx.
Qed.

(** [trim] changes nothing the second time. *)
Lemma trim_idem s : trim (trim s) = trim s.
Proof.
  unfold trim, trimStart.
  assert (Hs : drop_while is_space (trimEnd (drop_while is_space s))
               = trimEnd (drop_while is_space s)).
  { pose proof (drop_while_idem is_space s) as Hi.
    destruct (drop_while is_space s) as [|x t] eqn:E; [reflexivity|].
    simpl in Hi. destruct (is_space x) eqn:Ex.
    - exfalso. clear -Hi. assert (Hl : (length (drop_while is_space t) <= length t)%nat).
      { clear. induction t as [|c t IH]; simpl; [lia|]. destruct (is_space c); simpl; lia. }
      rewrite Hi in Hl. simpl in Hl. lia.
    - unfold trimEnd. simpl rev.
      rewrite (drop_while_snoc _ _ _ Ex), rev_app_distr. simpl. rewrite Ex. reflexivity. }
  rewrite Hs. unfold trimEnd. rewrite rev_involutive, drop_while_idem. reflexivity.
Qed.

(** *** White space in runs of one space *)

(** Every white-space unit of [t] is a space that follows no white
    space; [f] tells that the unit before [t] is white space. *)
Fixpoint single (f : bool) (t : jsstring) : bool :=
  match t with
  | [] => true
  | c :: t' =>
    if is_space c then negb f && (c =? SPACE) && single true t'
    else single false t'
  end.

Lemma single_collapse u : forall f, single f (collapse_from f u) = true.
Proof.
  induction u as [|c u IH]; intros f; simpl; [reflexivity|].
  destruct (is_space c) eqn:Ec.
  - destruct f; [apply IH|]. simpl. rewrite (IH true). reflexivity.
  - simpl. rewrite Ec. apply IH.
Qed.

Lemma single_fixed t : forall f, single f t = true -> collapse_from f t = t.
Proof.
  induction t as [|c t IH]; intros f; simpl; [reflexivity|].
  destruct (is_space c) eqn:Ec.
  - intros Hs. apply andb_true_iff in Hs as [Hs Ht]. apply andb_true_iff in Hs as [Hf Hc].
    destruct f; [discriminate|]. apply Z.eqb_eq in Hc. rewrite (IH _ Ht). congruence.
  - intros Ht. rewrite (IH _ Ht). reflexivity.
Qed.

Lemma single_weaken t : forall f, single f t = true -> single false t = true.
Proof.
  destruct t as [|c t]; intros f; simpl; [reflexivity|].
  destruct (is_space c); [|auto]. destruct f; [discriminate|auto].
Qed.

Lemma single_suffix l : forall f t, single f (l ++ t) = true -> single false t = true.
Proof.
  induction l as [|c l IH]; intros f t; simpl; [apply single_weaken|].
  destruct (is_space c).
  - intros Hs. apply andb_true_iff in Hs as [_ Ht]. exact (IH _ _ Ht).
  - apply IH.
Qed.

Lemma single_prefix t : forall f r, single f (t ++ r) = true -> single f t = true.
Proof.
  induction t as [|c t IH]; intros f r; simpl; [reflexivity|].
  destruct (is_space c).
  - intros Hs. apply andb_true_iff in Hs as [-> Ht]. exact (IH _ _ Ht).
  - apply IH.
Qed.

Lemma single_trim t : single false t = true -> single false (trim t) = true.
Proof.
  intros Ht. unfold trim, trimStart.
  destruct (drop_while_split is_space t) as (l & E & _).
  rewrite E in Ht. apply single_suffix in Ht.
  destruct (trimEnd_split (drop_while is_space t)) as (r & E' & _).
  rewrite E' in Ht. exact (single_prefix _ _ _ Ht).
Qed.

Lemma single_no_double p : forall f c d q,
  single f (p ++ c :: d :: q) = true -> is_space c = true -> is_space d = false.
Proof.
  induction p as [|x p IH]; intros f c d q; simpl.
  - intros Hs Hc. rewrite Hc in Hs. apply andb_true_iff in Hs as [_ Hs].
    destruct (is_space d); [discriminate|reflexivity].
  - destruct (is_space x).
    + intros Hs. apply andb_true_iff in Hs as [_ Hs]. exact (IH _ _ _ _ Hs).
    + apply IH.
Qed.
(** *** A greedy run of one class *)

(** The units of the class at the head of [a], pushed on [b]. *)
Fixpoint push_while (p : Z -> bool) (b a : jsstring) : jsstring :=
  match a with
  | c :: a' => if p c then push_while p (c :: b) a' else b
  | [] => b
  end.

(** [rounds] on a class [p], greedy and without upper bound: the longest
    run first, then the shorter ones. *)
Fixpoint gtry (p : Z -> bool) (lo : nat) (k : mstate -> option mstate)
    (cs : list (nat * jsstring)) (n : nat) (b a : jsstring) : option mstate :=
  let stop := if (lo <=? n)%nat then k (MState b a cs) else None in
  match a with
  | c :: a' =>
    if p c
    then match gtry p lo k cs (S n) (c :: b) a' with Some y => Some y | None => stop end
    else stop
  | [] => stop
  end.

Lemma rounds_unit p lo k : forall fuel n b a cs,
  (length a < fuel)%nat ->
  rounds (run (Unit p) Fwd) Fwd true lo None k fuel n (MState b a cs)
  = gtry p lo k cs n b a.
Proof.
  induction fuel as [|fuel IH]; intros n b a cs Hf; [lia|].
  cbn [rounds below run after before caps room].
  destruct a as [|c a]; [reflexivity|]. cbn [gtry]. simpl in Hf.
  destruct (p c); [|reflexivity].
  assert (Hlt : (length a <? length (c :: a))%nat = true) by (apply Nat.ltb_lt; simpl; lia).
  rewrite Hlt, IH by lia. reflexivity.
Qed.

Lemma push_while_length p a : forall b, (length b <= length (push_while p b a))%nat.
Proof.
  induction a as [|c a IH]; intros b; simpl; [lia|].
  destruct (p c); [|lia]. specialize (IH (c :: b)). simpl in IH. lia.
Qed.

Lemma drop_while_length p a : (length (drop_while p a) <= length a)%nat.
Proof. induction a as [|c a IH]; simpl; [lia|]. destruct (p c); simpl; lia. Qed.

Lemma gtry_some p cs a : forall n b,
  gtry p 1 Some cs (S n) b a = Some (MState (push_while p b a) (drop_while p a) cs).
Proof.
  induction a as [|c a IH]; intros n b; simpl; [reflexivity|].
  destruct (p c); [|reflexivity]. rewrite IH. reflexivity.
Qed.

Lemma run_rep g lo hi r d k x :
  run (Rep g lo hi r) d k x = rounds (run r d) d g lo hi k (S (room d x)) 0%nat x.
Proof. reflexivity. Qed.

(** [/\s+/] at one position: the whole run of white space there. *)
Lemma match_at_ws b a :
  match_at ws_run b a
  = match a with
    | c :: a' =>
      if is_space c
      then Some (RMatch b (MState (push_while is_space (c :: b) a')
                             (drop_while is_space a') []))
      else None
    | [] => None
    end.
Proof.
  unfold match_at, ws_run, plus. rewrite run_rep, rounds_unit by (simpl; lia).
  destruct a as [|c a]; [reflexivity|]. cbn [gtry].
  destruct (is_space c); [|reflexivity]. rewrite gtry_some. reflexivity.
Qed.

(** *** Searching and replacing *)

Lemma search_before r a : forall b m,
  search r b a = Some m -> exists p, m_before m = rev p ++ b.
Proof.
  induction a as [|c a IH]; intros b m; simpl; unfold match_at.
  - destruct (run r Fwd Some _); [|discriminate].
    intros E. injection E as <-. exists []. reflexivity.
  - destruct (run r Fwd Some _).
    + intros E. injection E as <-. exists []. reflexivity.
    + intros E. destruct (IH _ _ E) as [p Hp]. exists (c :: p).
      rewrite Hp. simpl. rewrite <- app_assoc. reflexivity.
Qed.

Lemma search_u_before r n : forall a b m,
  (length a <= n)%nat ->
  search_u r b a = Some m -> exists p, m_before m = rev p ++ b.
Proof.
  induction n as [|n IH]; intros a b m Hn.
  - destruct a; [|simpl in Hn; lia]. simpl. unfold match_at.
    destruct (run r Fwd Some _); [|discriminate].
    intros E. injection E as <-. exists []. reflexivity.
  - destruct a as [|c a]; simpl; unfold match_at.
    + destruct (run r Fwd Some _); [|discriminate].
      intros E. injection E as <-. exists []. reflexivity.
    + destruct (run r Fwd Some _).
      * intros E. injection E as <-. exists []. reflexivity.
      * simpl in Hn. destruct a as [|c' a].
        -- intros E. apply IH in E as [p Hp]; [|simpl; lia]. exists (c :: p).
           rewrite Hp. simpl. rewrite <- app_assoc. reflexivity.
        -- destruct (is_lead c && is_trail c').
           ++ intros E. simpl in Hn.
              apply IH in E as [p Hp]; [|lia]. exists (c :: c' :: p).
              rewrite Hp. simpl. rewrite <- !app_assoc. reflexivity.
           ++ intros E. apply IH in E as [p Hp]; [|simpl in *; lia].
              exists (c :: p). rewrite Hp. simpl. rewrite <- app_assoc. reflexivity.
Qed.

Lemma skipped_eq p b m : m_before m = rev p ++ b -> skipped b m = p.
Proof.
  intros E. unfold skipped. rewrite E, length_app.
  replace (length (rev p) + length b - length b)%nat with (length (rev p)) by lia.
  rewrite take_app_length. apply rev_involutive.
Qed.

(** One step of a replacement over a unit where nothing matches. *)
Lemma replace_step (find : jsstring -> jsstring -> option rmatch) f rep b p a' b' :
  find b (p ++ a') = find b' a' ->
  b' = rev p ++ b ->
  (forall m, find b' a' = Some m -> exists q, m_before m = rev q ++ b') ->
  replace_loop find (S f) rep b (p ++ a') = p ++ replace_loop find (S f) rep b' a'.
Proof.
  intros Hfind -> Hbefore. cbn [replace_loop]. rewrite Hfind.
  destruct (find (rev p ++ b) a') as [m|]; [|reflexivity].
  destruct (Hbefore m eq_refl) as [q Hq].
  rewrite (skipped_eq q _ m Hq).
  rewrite (skipped_eq (p ++ q) b m) by (rewrite Hq, rev_app_distr, <- app_assoc; reflexivity).
  rewrite <- app_assoc. reflexivity.
Qed.

(** One step of a replacement at a match that is not empty. *)
Lemma replace_match (find : jsstring -> jsstring -> option rmatch) f rep b a y :
  find b a = Some (RMatch b y) ->
  (length b < length (before y))%nat ->
  replace_loop find (S f) rep b a
  = rep ++ replace_loop find f rep (before y) (after y).
Proof.
  intros Hfind Hlen. cbn [replace_loop]. rewrite Hfind. cbn [m_end m_before].
  unfold skipped. cbn [m_before]. rewrite Nat.sub_diag. simpl firstn. simpl rev.
  apply Nat.ltb_lt in Hlen. rewrite Hlen. reflexivity.
Qed.

Lemma collapse_true_dw a :
  collapse_from true a = collapse_from false (drop_while is_space a).
Proof.
  induction a as [|c a IH]; simpl; [reflexivity|].
  destruct (is_space c) eqn:E; [exact IH|]. simpl. rewrite E. reflexivity.
Qed.

(** The second replacement of the normalisers, [replace(/\s+/g, " ")],
    is [collapse_ws]. *)
Lemma replace_ws_loop n : forall a b f,
  (length a <= n)%nat -> (length a < f)%nat ->
  replace_loop (search ws_run) f (js " ") b a = collapse_from false a.
Proof.
  induction n as [|n IH]; intros a b f Hn Hf.
  - destruct a; [|simpl in Hn; lia]. destruct f; [simpl in Hf; lia|].
    cbn [replace_loop search]. rewrite match_at_ws. reflexivity.
  - destruct f as [|f]; [lia|]. destruct a as [|c a].
    + cbn [replace_loop search]. rewrite match_at_ws. reflexivity.
    + simpl in Hn, Hf. pose proof (match_at_ws b (c :: a)) as Hm. cbn [collapse_from].
      destruct (is_space c) eqn:Ec.
      * rewrite (replace_match (search ws_run) f (js " ") b (c :: a)
                   (MState (push_while is_space (c :: b) a) (drop_while is_space a) [])).
        -- cbn [before after]. rewrite IH.
           ++ rewrite collapse_true_dw. reflexivity.
           ++ pose proof (drop_while_length is_space a). lia.
           ++ pose proof (drop_while_length is_space a). lia.
        -- cbn [search]. rewrite Hm, Ec. reflexivity.
        -- cbn [before]. pose proof (push_while_length is_space a (c :: b)) as Hl.
           simpl in Hl. lia.
      * etransitivity; [apply (replace_step (search ws_run) f (js " ") b [c] a (c :: b))|].
        -- cbn [app search]. rewrite Hm, Ec. reflexivity.
        -- reflexivity.
        -- intros m. apply search_before.
        -- cbn [app]. f_equal. apply IH; lia.
Qed.

Lemma replace_ws s : replace_all ws_run (js " ") s = collapse_ws s.
Proof. unfold replace_all, collapse_ws. apply (replace_ws_loop (length s)); lia. Qed.
Section Gaps.
Context `{Platform}.

(** The code point after, and before, a position is of the three
    scripts. *)
Definition cjk_fwd (a : jsstring) : bool :=
  match point_fwd a with Some (cp, _, _) => script_cjk cp | None => false end.

Definition cjk_bwd (b : jsstring) : bool :=
  match point_bwd b with Some (cp, _, _) => script_cjk cp | None => false end.

(** What the first replacement of the normalisers does, unit by unit:
    [b] is the input before the position, nearest first, and [dropping]
    tells that the position is inside a run that is being removed. *)
Fixpoint squeeze (dropping : bool) (b a : jsstring) : jsstring :=
  match a with
  | [] => []
  | c :: a' =>
    if is_space c
    then if dropping || (cjk_bwd b && cjk_fwd (drop_while is_space a'))
         then squeeze true (c :: b) a'
         else c :: squeeze false (c :: b) a'
    else c :: squeeze false (c :: b) a'
  end.

(** No white-space unit of [t] has a code point of the three scripts
    before its run and another one after it; [o] is the text before
    [t]. *)
Fixpoint nogap (o t : jsstring) : bool :=
  match t with
  | [] => true
  | c :: t' =>
    (if is_space c then negb (cjk_bwd o && cjk_fwd (drop_while is_space t')) else true)
    && nogap (c :: o) t'
  end.

Definition unlead (b : jsstring) : bool :=
  match b with [] => true | y :: _ => negb (is_lead y) end.

Definition untrail (a : jsstring) : bool :=
  match a with [] => true | y :: _ => negb (is_trail y) end.

(** Two texts before a position that no look-behind of one code point
    tells apart, now and after one more unit. *)
Definition sim1 (o b : jsstring) : Prop :=
  forall x, cjk_bwd (x :: o) = cjk_bwd (x :: b).

Definition sim0 (o b : jsstring) : Prop := cjk_bwd o = cjk_bwd b /\ sim1 o b.

(** The scripts of the platform hold no white space and no surrogate. *)
Hypothesis cjk_not_space : forall c, script_cjk c = true -> is_space c = false.
Hypothesis cjk_not_surrogate :
  forall c, script_cjk c = true -> is_lead c = false /\ is_trail c = false.

Lemma space_not_cjk c : is_space c = true -> script_cjk c = false.
Proof.
  intros Hs. destruct (script_cjk c) eqn:E; [|reflexivity].
  apply cjk_not_space in E. congruence.
Qed.

Lemma fwd_single x a :
  is_lead x = false \/ untrail a = true -> cjk_fwd (x :: a) = script_cjk x.
Proof.
  unfold cjk_fwd, point_fwd, untrail. destruct a as [|y a]; [reflexivity|].
  intros [->| ->%negb_true_iff]; rewrite ?andb_false_r; reflexivity.
Qed.

Lemma bwd_single x b :
  is_trail x = false \/ unlead b = true -> cjk_bwd (x :: b) = script_cjk x.
Proof.
  unfold cjk_bwd, point_bwd, unlead. destruct b as [|y b]; [reflexivity|].
  intros [->| ->%negb_true_iff]; rewrite ?andb_false_r; reflexivity.
Qed.

Lemma fwd_two x y a a' : cjk_fwd (x :: y :: a) = cjk_fwd (x :: y :: a').
Proof. unfold cjk_fwd, point_fwd. destruct (is_lead x && is_trail y); reflexivity. Qed.

Lemma bwd_two x y b b' : cjk_bwd (x :: y :: b) = cjk_bwd (x :: y :: b').
Proof. unfold cjk_bwd, point_bwd. destruct (is_lead y && is_trail x); reflexivity. Qed.

Lemma fwd_ws c a : is_space c = true -> cjk_fwd (c :: a) = false.
Proof.
  intros Hc. rewrite fwd_single by (left; exact (space_not_lead c Hc)).
  exact (space_not_cjk c Hc).
Qed.

Lemma bwd_ws c b : is_space c = true -> cjk_bwd (c :: b) = false.
Proof.
  intros Hc. rewrite bwd_single by (left; exact (space_not_trail c Hc)).
  exact (space_not_cjk c Hc).
Qed.

Lemma unlead_ws c b : is_space c = true -> unlead (c :: b) = true.
Proof. intros Hc. simpl. rewrite (space_not_lead c Hc). reflexivity. Qed.

Lemma untrail_ws c b : is_space c = true -> untrail (c :: b) = true.
Proof. intros Hc. simpl. rewrite (space_not_trail c Hc). reflexivity. Qed.

(** A code point of the scripts ends with a unit that starts no pair. *)
Lemma bwd_not_lead x b : cjk_bwd (x :: b) = true -> is_lead x = false.
Proof.
  unfold cjk_bwd, point_bwd. destruct b as [|y b].
  - intros Hx. apply cjk_not_surrogate in Hx as [Hx _]. exact Hx.
  - destruct (is_lead y && is_trail x) eqn:E.
    + intros _. apply andb_true_iff in E as [_ E]. exact (trail_not_lead x E).
    + intros Hx. apply cjk_not_surrogate in Hx as [Hx _]. exact Hx.
Qed.

Lemma bwd_unlead o : cjk_bwd o = true -> unlead o = true.
Proof.
  destruct o as [|x o]; [reflexivity|]. intros Ho. simpl.
  rewrite (bwd_not_lead x o Ho). reflexivity.
Qed.

Lemma sim_push x o b : sim1 o b -> sim0 (x :: o) (x :: b).
Proof. intros Hs. split; [apply Hs|]. intros y. apply bwd_two. Qed.

Lemma sim_unlead o b : unlead o = true -> unlead b = true -> sim1 o b.
Proof.
  intros Ho Hb x. rewrite !bwd_single by (right; assumption). reflexivity.
Qed.

Lemma sim0_refl o : sim0 o o.
Proof. split; [reflexivity|]. intros x. reflexivity. Qed.

Lemma nogap_sim t : forall o b, sim0 o b -> nogap o t = nogap b t.
Proof.
  induction t as [|c t IH]; intros o b [H0 H1]; simpl; [reflexivity|].
  rewrite H0. f_equal. apply IH, sim_push, H1.
Qed.

(** **** The first replacement leaves no gap *)

Lemma fwd_head_squeeze x b a :
  cjk_fwd (x :: squeeze false (x :: b) a) = cjk_fwd (x :: a).
Proof.
  destruct a as [|y a]; [reflexivity|]. simpl.
  destruct (is_space y) eqn:Ey; [|apply fwd_two].
  destruct (cjk_bwd (x :: b)) eqn:Eb; simpl; [|apply fwd_two].
  destruct (cjk_fwd (drop_while is_space a)); [|apply fwd_two].
  rewrite !fwd_single by (left; exact (bwd_not_lead x b Eb)). reflexivity.
Qed.

Lemma fwd_dw_squeeze a : forall b,
  cjk_bwd b = false ->
  cjk_fwd (drop_while is_space (squeeze false b a)) = cjk_fwd (drop_while is_space a).
Proof.
  induction a as [|c a IH]; intros b Hb; simpl; [reflexivity|].
  destruct (is_space c) eqn:Ec.
  - rewrite Hb. simpl. rewrite Ec. apply IH, bwd_ws, Ec.
  - simpl. rewrite Ec. apply fwd_head_squeeze.
Qed.

(** What links the output [o] so far to the input [b] so far. *)
Definition squeeze_inv (dropping : bool) (o b : jsstring) : Prop :=
  if dropping then cjk_bwd o = true /\ unlead b = true else sim0 o b.

Lemma nogap_squeeze a : forall d o b,
  squeeze_inv d o b -> nogap o (squeeze d b a) = true.
Proof.
  induction a as [|c a IH]; intros d o b Hinv; simpl; [reflexivity|].
  destruct (is_space c) eqn:Ec.
  - destruct d; simpl.
    + destruct Hinv as [Ho _]. apply IH. split; [exact Ho|apply unlead_ws, Ec].
    + destruct Hinv as [H0 H1].
      destruct (cjk_bwd b && cjk_fwd (drop_while is_space a)) eqn:Eg.
      * apply andb_true_iff in Eg as [Eb _]. apply IH. split.
        -- rewrite H0. exact Eb.
        -- apply unlead_ws, Ec.
      * simpl. rewrite Ec, (fwd_dw_squeeze a (c :: b) (bwd_ws c b Ec)), H0, Eg. simpl.
        apply IH. apply sim_push, H1.
  - simpl. rewrite Ec. simpl. apply IH. destruct d.
    + destruct Hinv as [Ho Hb]. split; [|intros y; apply bwd_two].
      rewrite !bwd_single by (right; auto using bwd_unlead). reflexivity.
    + apply sim_push, Hinv.
Qed.

Lemma nogap_fixed t : forall o, nogap o t = true -> squeeze false o t = t.
Proof.
  induction t as [|c t IH]; intros o; simpl; [reflexivity|].
  intros Hn. apply andb_true_iff in Hn as [Hc Ht]. rewrite (IH _ Ht).
  destruct (is_space c); [|reflexivity].
  apply negb_true_iff in Hc. rewrite Hc. reflexivity.
Qed.

(** **** The second replacement and [trim] make none *)

Lemma fwd_dw_collapse u : forall f,
  cjk_fwd (drop_while is_space (collapse_from f u)) = cjk_fwd (drop_while is_space u).
Proof.
  induction u as [|c u IH]; intros f; simpl; [reflexivity|].
  destruct (is_space c) eqn:Ec.
  - destruct f; [apply IH|]. simpl. apply IH.
  - simpl. rewrite Ec. destruct u as [|y u]; [reflexivity|]. simpl.
    destruct (is_space y) eqn:Ey; [|apply fwd_two].
    rewrite !fwd_single; [reflexivity| |].
    + right. apply untrail_ws, Ey.
    + right. reflexivity.
Qed.

Lemma nogap_collapse u : forall f o' o,
  sim0 o' o -> (f = true -> cjk_bwd o' = false /\ unlead o' = true) ->
  nogap o u = true -> nogap o' (collapse_from f u) = true.
Proof.
  induction u as [|c u IH]; intros f o' o [H0 H1] Hf; simpl; [reflexivity|].
  intros Hn. apply andb_true_iff in Hn as [Hc Hu].
  destruct (is_space c) eqn:Ec.
  - destruct f.
    + destruct (Hf eq_refl) as [Hb Hl]. apply (IH true o' (c :: o)); [|exact Hf|exact Hu].
      split; [rewrite Hb; symmetry; apply bwd_ws, Ec|].
      apply sim_unlead; [exact Hl|apply unlead_ws, Ec].
    + simpl. rewrite fwd_dw_collapse, H0, Hc. simpl.
      apply (IH true (SPACE :: o') (c :: o)); [| |exact Hu].
      * split; [rewrite !bwd_ws by (reflexivity || exact Ec); reflexivity|].
        apply sim_unlead; [reflexivity|apply unlead_ws, Ec].
      * intros _. split; [apply bwd_ws; reflexivity|reflexivity].
  - simpl. rewrite Ec. simpl. apply (IH false (c :: o') (c :: o)); [|discriminate|exact Hu].
    apply sim_push, H1.
Qed.

Lemma nogap_dw v : forall o,
  cjk_bwd o = false -> unlead o = true ->
  nogap o v = true -> nogap o (drop_while is_space v) = true.
Proof.
  induction v as [|c v IH]; intros o Ho Hl; simpl; [reflexivity|].
  destruct (is_space c) eqn:Ec; [|simpl; rewrite Ec; auto].
  intros Hn. apply andb_true_iff in Hn as [_ Hv].
  rewrite (nogap_sim _ o (c :: o)).
  - apply IH; [apply bwd_ws, Ec|apply unlead_ws, Ec|exact Hv].
  - split; [rewrite Ho; symmetry; apply bwd_ws, Ec|].
    apply sim_unlead; [exact Hl|apply unlead_ws, Ec].
Qed.

Lemma fwd_dw_app t : forall r,
  forallb is_space r = true ->
  cjk_fwd (drop_while is_space (t ++ r)) = cjk_fwd (drop_while is_space t).
Proof.
  induction t as [|c t IH]; intros r Hr.
  - simpl. rewrite (drop_while_all _ _ Hr). reflexivity.
  - simpl. destruct (is_space c); [exact (IH r Hr)|].
    destruct t as [|y t]; [|apply fwd_two]. simpl.
    destruct r as [|z r]; [reflexivity|]. simpl in Hr. apply andb_true_iff in Hr as [Hz _].
    rewrite !fwd_single; [reflexivity| |].
    + right. reflexivity.
    + right. apply untrail_ws, Hz.
Qed.

Lemma nogap_prefix t : forall o r,
  forallb is_space r = true -> nogap o (t ++ r) = true -> nogap o t = true.
Proof.
  induction t as [|c t IH]; intros o r Hr; simpl; [reflexivity|].
  intros Hn. apply andb_true_iff in Hn as [Hc Ht].
  rewrite (fwd_dw_app t r Hr) in Hc. rewrite Hc. exact (IH _ _ Hr Ht).
Qed.

Lemma nogap_trim v : nogap [] v = true -> nogap [] (trim v) = true.
Proof.
  intros Hv. unfold trim, trimStart.
  apply (nogap_dw v []) in Hv; [|reflexivity|reflexivity].
  destruct (trimEnd_split (drop_while is_space v)) as (r & E & Hr).
  rewrite E in Hv. exact (nogap_prefix _ _ _ Hr Hv).
Qed.

(** The white space of a text without gaps and with single spaces. *)
Lemma nogap_split p : forall o c q,
  nogap o (p ++ c :: q) = true -> is_space c = true ->
  cjk_bwd (rev p ++ o) && cjk_fwd (drop_while is_space q) = false.
Proof.
  induction p as [|x p IH]; intros o c q; simpl.
  - intros Hn Hc. rewrite Hc in Hn. apply andb_true_iff in Hn as [Hn _].
    apply negb_true_iff in Hn. exact Hn.
  - intros Hn Hc. apply andb_true_iff in Hn as [_ Hn].
    rewrite <- app_assoc. exact (IH _ _ _ Hn Hc).
Qed.

(** **** The first replacement is [squeeze] *)

Lemma run_cat_fwd r1 r2 k x : run (Cat r1 r2) Fwd k x = run r1 Fwd (run r2 Fwd k) x.
Proof. reflexivity. Qed.

Lemma behind_cjk k x :
  run (Behind (Point script_cjk)) Fwd k x = if cjk_bwd (before x) then k x else None.
Proof.
  cbn [run]. unfold cjk_bwd. destruct x as [b a cs]. cbn [before after caps].
  destruct (point_bwd b) as [[[cp us] b']|]; [|reflexivity].
  destruct (script_cjk cp); reflexivity.
Qed.

(** The look-ahead, as the continuation of the run of white space. *)
Definition ahead_k (y : mstate) : option mstate :=
  if cjk_fwd (after y) then Some y else None.

Lemma ahead_cjk y : run (Cat (Ahead (Point script_cjk)) Eps) Fwd Some y = ahead_k y.
Proof.
  cbn [run]. unfold ahead_k, cjk_fwd. destruct y as [b a cs]. cbn [before after caps].
  destruct (point_fwd a) as [[[cp us] a']|]; [|reflexivity].
  destruct (script_cjk cp); reflexivity.
Qed.

Lemma gtry_ext p lo k k' cs a : (forall y, k y = k' y) ->
  forall n b, gtry p lo k cs n b a = gtry p lo k' cs n b a.
Proof.
  intros Hk. induction a as [|c a IH]; intros n b; simpl.
  - rewrite Hk. reflexivity.
  - rewrite IH, Hk. reflexivity.
Qed.

Lemma gtry_ahead cs a : forall n b,
  gtry is_space 1 ahead_k cs (S n) b a
  = if cjk_fwd (drop_while is_space a)
    then Some (MState (push_while is_space b a) (drop_while is_space a) cs)
    else None.
Proof.
  induction a as [|c a IH]; intros n b; simpl.
  - reflexivity.
  - destruct (is_space c) eqn:Ec.
    + rewrite IH. destruct (cjk_fwd (drop_while is_space a)); [reflexivity|].
      unfold ahead_k. cbn [after]. rewrite (fwd_ws c a Ec). reflexivity.
    + reflexivity.
Qed.

(** The regex of the gaps at one position. *)
Lemma match_at_gap b a :
  match_at cjk_gap b a
  = match a with
    | c :: a' =>
      if cjk_bwd b && is_space c && cjk_fwd (drop_while is_space a')
      then Some (RMatch b (MState (push_while is_space (c :: b) a')
                             (drop_while is_space a') []))
      else None
    | [] => None
    end.
Proof.
  unfold match_at, cjk_gap, seq, plus. cbn [fold_right].
  rewrite run_cat_fwd, behind_cjk. cbn [before].
  destruct (cjk_bwd b).
  - rewrite run_cat_fwd, run_rep, rounds_unit by (simpl; lia).
    rewrite (gtry_ext _ _ _ ahead_k) by (intros y; apply ahead_cjk).
    destruct a as [|c a]; [reflexivity|]. cbn [gtry].
    destruct (is_space c); [|reflexivity]. rewrite gtry_ahead. simpl.
    destruct (cjk_fwd (drop_while is_space a)); reflexivity.
  - destruct a; reflexivity.
Qed.

Lemma squeeze_true_run a : forall b,
  squeeze true b a
  = squeeze false (push_while is_space b a) (drop_while is_space a).
Proof.
  induction a as [|c a IH]; intros b; simpl; [reflexivity|].
  destruct (is_space c) eqn:Ec; [apply IH|]. simpl. rewrite Ec. reflexivity.
Qed.

Lemma replace_gap_loop n : forall a b f,
  (length a <= n)%nat -> (length a < f)%nat ->
  replace_loop (search_u cjk_gap) f [] b a = squeeze false b a.
Proof.
  induction n as [|n IH]; intros a b f Hn Hf.
  - destruct a; [|simpl in Hn; lia]. destruct f; [simpl in Hf; lia|].
    cbn [replace_loop search_u]. rewrite match_at_gap. reflexivity.
  - destruct f as [|f]; [lia|]. destruct a as [|c a].
    + cbn [replace_loop search_u]. rewrite match_at_gap. reflexivity.
    + simpl in Hn, Hf. pose proof (match_at_gap b (c :: a)) as Hm. cbn beta iota in Hm.
      destruct (cjk_bwd b && is_space c && cjk_fwd (drop_while is_space a)) eqn:Eg.
      * apply andb_true_iff in Eg as [Eg Ef]. apply andb_true_iff in Eg as [Eb Ec].
        rewrite (replace_match (search_u cjk_gap) f [] b (c :: a)
                   (MState (push_while is_space (c :: b) a) (drop_while is_space a) [])).
        -- cbn [before after app squeeze]. rewrite Ec, Eb, Ef. cbn [orb andb].
           rewrite squeeze_true_run. apply IH.
           ++ pose proof (drop_while_length is_space a). lia.
           ++ pose proof (drop_while_length is_space a). lia.
        -- destruct a; cbn [search_u]; rewrite Hm; reflexivity.
        -- cbn [before]. pose proof (push_while_length is_space a (c :: b)) as Hl.
           simpl in Hl. lia.
      * assert (Hkeep : squeeze false b (c :: a) = c :: squeeze false (c :: b) a).
        { cbn [squeeze]. destruct (is_space c); [|reflexivity].
          rewrite andb_true_r in Eg. rewrite Eg. reflexivity. }
        destruct a as [|c' a].
        -- rewrite Hkeep.
           etransitivity; [apply (replace_step (search_u cjk_gap) f [] b [c] [] (c :: b))|].
           ++ cbn [app search_u]. rewrite Hm. reflexivity.
           ++ reflexivity.
           ++ intros m. apply (search_u_before _ 0). simpl. lia.
           ++ cbn [app]. f_equal. apply IH; simpl; lia.
        -- destruct (is_lead c && is_trail c') eqn:Ep.
           ++ apply andb_true_iff in Ep as [Hc Hc'].
              assert (Ec : is_space c = false).
              { destruct (is_space c) eqn:E; [|reflexivity].
                apply space_not_lead in E. congruence. }
              assert (Ec' : is_space c' = false).
              { destruct (is_space c') eqn:E; [|reflexivity].
                apply space_not_trail in E. congruence. }
              etransitivity;
                [apply (replace_step (search_u cjk_gap) f [] b [c; c'] a (c' :: c :: b))|].
              ** cbn [app search_u]. rewrite Hm, Hc, Hc'. reflexivity.
              ** reflexivity.
              ** intros m. apply (search_u_before _ (length a)). lia.
              ** cbn [app squeeze]. rewrite Ec, Ec'. do 2 f_equal.
                 apply IH; simpl in *; lia.
           ++ rewrite Hkeep.
              etransitivity;
                [apply (replace_step (search_u cjk_gap) f [] b [c] (c' :: a) (c :: b))|].
              ** cbn [app search_u]. rewrite Hm, Ep. reflexivity.
              ** reflexivity.
              ** intros m. apply (search_u_before _ (length (c' :: a))). lia.
              ** cbn [app]. f_equal. apply IH; simpl in *; lia.
Qed.

Lemma replace_gap s : replace_all_u cjk_gap [] s = squeeze false [] s.
Proof. unfold replace_all_u. apply (replace_gap_loop (length s)); lia. Qed.

End Gaps.
Section Normalise.
Context `{Platform}.
Hypothesis cjk_not_space : forall c, script_cjk c = true -> is_space c = false.
Hypothesis cjk_not_surrogate :
  forall c, script_cjk c = true -> is_lead c = false /\ is_trail c = false.

(** The three steps that follow NFKC, on the scanners. *)
Definition clean (s : jsstring) : jsstring :=
  trim (collapse_ws (squeeze false [] s)).

Lemma sanitizeText_clean v : PdfAnalyze.sanitizeText v = clean (normalize_NFKC v).
Proof.
  unfold PdfAnalyze.sanitizeText, clean.
  rewrite replace_ws, (replace_gap cjk_not_space). reflexivity.
Qed.

Lemma sanitizeExtractedText_clean v :
  HomePage.sanitizeExtractedText v = clean (normalize_NFKC v).
Proof.
  unfold HomePage.sanitizeExtractedText, clean.
  rewrite replace_ws, (replace_gap cjk_not_space). reflexivity.
Qed.

Lemma clean_nogap s : nogap [] (clean s) = true.
Proof.
  unfold clean, collapse_ws.
  apply (nogap_trim cjk_not_space).
  apply (nogap_collapse cjk_not_space _ false [] []); [apply sim0_refl|discriminate|].
  apply (nogap_squeeze cjk_not_space cjk_not_surrogate). apply sim0_refl.
Qed.

Lemma clean_single s : single false (clean s) = true.
Proof. unfold clean, collapse_ws. apply single_trim, single_collapse. Qed.

Lemma clean_idem s : clean (clean s) = clean s.
Proof.
  unfold clean at 1.
  rewrite (nogap_fixed _ _ (clean_nogap s)). unfold collapse_ws.
  rewrite (single_fixed _ _ (clean_single s)).
  unfold clean. apply trim_idem.
Qed.

End Normalise.

Lemma ref_cjk_not_space c : Ref.script_cjk c = true -> is_space c = false.
Proof.
  unfold Ref.script_cjk, is_space, in_range. intros Hc.
  apply not_true_is_false. intros Hs.
  rewrite ?orb_true_iff, ?andb_true_iff, ?negb_true_iff, ?Z.leb_le, ?Z.ltb_ge,
    ?Z.eqb_eq in Hc, Hs.
  lia.
Qed.

Lemma ref_cjk_not_surrogate c :
  Ref.script_cjk c = true -> is_lead c = false /\ is_trail c = false.
Proof.
  unfold Ref.script_cjk, is_lead, is_trail, in_range. intros Hc.
  rewrite ?orb_true_iff, ?andb_true_iff, ?negb_true_iff, ?Z.leb_le, ?Z.ltb_ge,
    ?Z.eqb_eq in Hc.
  split; apply not_true_is_false; intros Hs;
    rewrite ?andb_true_iff, ?negb_true_iff, ?Z.leb_le, ?Z.ltb_ge in Hs; lia.
Qed.

(** *** What the normaliser keeps *)

(** The units of a text that are no white space. *)
Definition nonspace (s : jsstring) : jsstring :=
  List.filter (fun c => negb (is_space c)) s.

Lemma nonspace_app s t : nonspace (s ++ t) = nonspace s ++ nonspace t.
Proof. apply List.filter_app. Qed.

Lemma nonspace_ws c s : is_space c = true -> nonspace (c :: s) = nonspace s.
Proof. intros Hc. unfold nonspace. simpl. rewrite Hc. reflexivity. Qed.

Lemma nonspace_unit c s : is_space c = false -> nonspace (c :: s) = c :: nonspace s.
Proof. intros Hc. unfold nonspace. simpl. rewrite Hc. reflexivity. Qed.

Lemma nonspace_all l : forallb is_space l = true -> nonspace l = [].
Proof.
  induction l as [|c l IH]; [reflexivity|]. cbn [forallb].
  intros Hl. apply andb_true_iff in Hl as [Hc Hl]. rewrite (nonspace_ws c l Hc). auto.
Qed.

Lemma nonspace_cons x s t : nonspace s = nonspace t -> nonspace (x :: s) = nonspace (x :: t).
Proof. intros E. unfold nonspace in *. simpl. rewrite E. reflexivity. Qed.

(** [t] is [s] with some white space taken out or replaced: the other
    units are the same, and every white-space unit of [t] stands where
    [s] has one. *)
Definition thinned (s t : jsstring) : Prop :=
  nonspace t = nonspace s
  /\ forall p c q, t = p ++ c :: q -> is_space c = true ->
       exists p0 w q0, s = p0 ++ w :: q0 /\ is_space w = true
                       /\ nonspace p0 = nonspace p /\ nonspace q0 = nonspace q.

Lemma thinned_nil : thinned [] [].
Proof. split; [reflexivity|]. intros [|x p] c q E; discriminate. Qed.

Lemma thinned_trans s t u : thinned s t -> thinned t u -> thinned s u.
Proof.
  intros [Est Hst] [Etu Htu]. split; [congruence|]. intros p c q E Hc.
  destruct (Htu p c q E Hc) as (p1 & w1 & q1 & E1 & Hw1 & Hp1 & Hq1).
  destruct (Hst p1 w1 q1 E1 Hw1) as (p0 & w0 & q0 & E0 & Hw0 & Hp0 & Hq0).
  exists p0, w0, q0. repeat split; congruence.
Qed.

(** A white-space unit of [s] that [t] does not have. *)
Lemma thinned_drop c s t : is_space c = true -> thinned s t -> thinned (c :: s) t.
Proof.
  intros Hc [Est Hst]. split; [rewrite (nonspace_ws c s Hc); exact Est|].
  intros p d q E Hd. destruct (Hst p d q E Hd) as (p0 & w & q0 & -> & Hw & Hp & Hq).
  exists (c :: p0), w, q0. rewrite (nonspace_ws c p0 Hc). auto.
Qed.

(** A unit of [s] that [t] has too, or a white-space unit of [s] where
    [t] has another one. *)
Lemma thinned_keep x y s t :
  x = y \/ (is_space x = true /\ is_space y = true) ->
  thinned s t -> thinned (x :: s) (y :: t).
Proof.
  intros Hxy [Est Hst].
  assert (Hcons : forall a b, nonspace a = nonspace b ->
                    nonspace (x :: a) = nonspace (y :: b)).
  { intros a b E. destruct Hxy as [->|[Hx Hy]]; [apply nonspace_cons, E|].
    rewrite (nonspace_ws x a Hx), (nonspace_ws y b Hy). exact E. }
  split; [symmetry; apply Hcons; symmetry; exact Est|].
  intros p d q E Hd. destruct p as [|z p]; simpl in E; injection E as <- E.
  - subst q. exists [], x, s. split; [reflexivity|].
    split; [destruct Hxy as [->|[Hx _]]; assumption|]. split; [reflexivity|].
    symmetry. exact Est.
  - destruct (Hst p d q E Hd) as (p0 & w & q0 & -> & Hw & Hp & Hq).
    exists (x :: p0), w, q0. split; [reflexivity|]. split; [exact Hw|].
    split; [apply Hcons, Hp|exact Hq].
Qed.

Lemma thinned_collapse s : forall f, thinned s (collapse_from f s).
Proof.
  induction s as [|c s IH]; intros f; simpl; [apply thinned_nil|].
  destruct (is_space c) eqn:Ec.
  - destruct f; [apply thinned_drop; auto|].
    apply thinned_keep; [right; split; [exact Ec|reflexivity]|apply IH].
  - apply thinned_keep; [left; reflexivity|apply IH].
Qed.

Lemma thinned_pad l t r :
  forallb is_space l = true -> forallb is_space r = true -> thinned (l ++ t ++ r) t.
Proof.
  intros Hl Hr. split.
  - rewrite !nonspace_app, (nonspace_all l Hl), (nonspace_all r Hr), app_nil_r.
    reflexivity.
  - intros p c q -> Hc. exists (l ++ p), c, (q ++ r).
    rewrite <- !app_assoc. split; [reflexivity|]. split; [exact Hc|].
    rewrite !nonspace_app, (nonspace_all l Hl), (nonspace_all r Hr), app_nil_r.
    split; reflexivity.
Qed.

Lemma thinned_trim s : thinned s (trim s).
Proof.
  unfold trim, trimStart.
  destruct (drop_while_split is_space s) as (l & E & Hl).
  destruct (trimEnd_split (drop_while is_space s)) as (r & E' & Hr).
  rewrite E at 1. rewrite E' at 1. apply thinned_pad; assumption.
Qed.

(** The ends of a trimmed text are no white space. *)
Lemma drop_while_head p s c q : drop_while p s = c :: q -> p c = false.
Proof.
  induction s as [|x s IH]; simpl; [discriminate|].
  destruct (p x) eqn:E; [exact IH|]. intros Hx. injection Hx as <- _. exact E.
Qed.

Lemma trim_ends s :
  (forall c q, trim s = c :: q -> is_space c = false)
  /\ (forall p c, trim s = p ++ [c] -> is_space c = false).
Proof.
  unfold trim, trimStart. split.
  - intros c q E.
    destruct (trimEnd_split (drop_while is_space s)) as (r & Er & _).
    rewrite E in Er. exact (drop_while_head _ _ _ _ Er).
  - unfold trimEnd.
    intros p c E. apply (f_equal (@rev Z)) in E.
    rewrite rev_involutive, rev_app_distr in E. simpl in E.
    exact (drop_while_head _ _ _ _ E).
Qed.

Lemma single_space p : forall f c q,
  single f (p ++ c :: q) = true -> is_space c = true -> c = SPACE.
Proof.
  induction p as [|x p IH]; intros f c q; simpl.
  - intros Hs Hc. rewrite Hc in Hs. apply andb_true_iff in Hs as [Hs _].
    apply andb_true_iff in Hs as [_ Hs]. apply Z.eqb_eq, Hs.
  - destruct (is_space x).
    + intros Hs. apply andb_true_iff in Hs as [_ Hs]. exact (IH _ _ _ Hs).
    + apply IH.
Qed.

Section GapRuns.
Context `{Platform}.
Hypothesis cjk_not_space : forall c, script_cjk c = true -> is_space c = false.
Hypothesis cjk_not_surrogate :
  forall c, script_cjk c = true -> is_lead c = false /\ is_trail c = false.

Lemma thinned_squeeze a : forall d b, thinned a (squeeze d b a).
Proof.
  induction a as [|c a IH]; intros d b; simpl; [apply thinned_nil|].
  destruct (is_space c) eqn:Ec.
  - destruct (d || _); [apply thinned_drop; auto|].
    apply thinned_keep; [left; reflexivity|apply IH].
  - apply thinned_keep; [left; reflexivity|apply IH].
Qed.

Lemma thinned_clean s : thinned s (clean s).
Proof.
  unfold clean, collapse_ws.
  apply (thinned_trans _ (squeeze false [] s)); [apply thinned_squeeze|].
  apply (thinned_trans _ (collapse_from false (squeeze false [] s)));
    [apply thinned_collapse|apply thinned_trim].
Qed.

(** The first replacement looks one code point back: texts before the
    position that no such look tells apart give the same result. *)
Lemma squeeze_sim a : forall d o b,
  sim1 o b -> (d = false -> cjk_bwd o = cjk_bwd b) ->
  squeeze d o a = squeeze d b a.
Proof.
  induction a as [|c a IH]; intros d o b H1 H0; simpl; [reflexivity|].
  assert (Hnext : forall d', squeeze d' (c :: o) a = squeeze d' (c :: b) a).
  { intros d'. apply IH; [intros y; apply bwd_two|intros _; apply H1]. }
  destruct (is_space c); [|rewrite Hnext; reflexivity].
  destruct d; simpl; [apply Hnext|].
  rewrite (H0 eq_refl). destruct (cjk_bwd b && _); rewrite Hnext; reflexivity.
Qed.

Lemma fwd_not_space q : cjk_fwd q = true -> drop_while is_space q = q.
Proof.
  destruct q as [|y q]; [reflexivity|]. intros Hq. simpl.
  destruct (is_space y) eqn:Ey; [|reflexivity].
  rewrite (fwd_ws cjk_not_space y q Ey) in Hq. discriminate.
Qed.

Lemma drop_while_run ws q :
  forallb is_space ws = true -> drop_while is_space (ws ++ q) = drop_while is_space q.
Proof.
  induction ws as [|c ws IH]; simpl; [reflexivity|].
  intros Hw. apply andb_true_iff in Hw as [-> Hw]. exact (IH Hw).
Qed.

(** A run of white space between two code points of the scripts does not
    change what a look-ahead from the text before it sees. *)
Lemma fwd_over_run ws q : forallb is_space ws = true -> cjk_fwd q = true ->
  forall p b, cjk_bwd (rev p ++ b) = true ->
  cjk_fwd (drop_while is_space (p ++ ws ++ q)) = cjk_fwd (drop_while is_space (p ++ q)).
Proof.
  intros Hw Hq. induction p as [|c p IH]; intros b Hb.
  - simpl. rewrite (drop_while_run ws q Hw). reflexivity.
  - simpl. simpl in Hb. rewrite <- app_assoc in Hb.
    destruct (is_space c) eqn:Ec; [exact (IH _ Hb)|].
    destruct p as [|y p]; [|apply fwd_two]. simpl in *.
    rewrite !fwd_single; [reflexivity| |];
      left; exact (bwd_not_lead cjk_not_surrogate c b Hb).
Qed.

Lemma push_while_run ws : forall b q,
  forallb is_space ws = true -> drop_while is_space q = q ->
  push_while is_space b (ws ++ q) = rev ws ++ b.
Proof.
  induction ws as [|c ws IH]; intros b q Hw Hq.
  - simpl. destruct q as [|y q]; [reflexivity|]. simpl in *.
    destruct (is_space y); [|reflexivity].
    exfalso. pose proof (drop_while_length is_space q) as Hl. rewrite Hq in Hl.
    simpl in Hl. lia.
  - simpl in *. apply andb_true_iff in Hw as [-> Hw]. rewrite (IH _ _ Hw Hq).
    rewrite <- app_assoc. reflexivity.
Qed.

(** The run itself is removed. *)
Lemma squeeze_run ws q d b :
  forallb is_space ws = true -> cjk_bwd b = true -> cjk_fwd q = true ->
  squeeze d b (ws ++ q) = squeeze d b q.
Proof.
  intros Hw Hb Hq. destruct ws as [|c ws]; [reflexivity|].
  simpl in Hw. apply andb_true_iff in Hw as [Hc Hw].
  pose proof (fwd_not_space q Hq) as Hdq.
  simpl. rewrite Hc, Hb, (drop_while_run ws q Hw), Hdq, Hq, orb_true_r.
  rewrite squeeze_true_run, (drop_while_run ws q Hw), Hdq, (push_while_run ws _ q Hw Hdq).
  destruct q as [|y q]; [reflexivity|]. simpl.
  assert (Hy : is_space y = false).
  { destruct (is_space y) eqn:Ey; [|reflexivity].
    rewrite (fwd_ws cjk_not_space y q Ey) in Hq. discriminate. }
  rewrite Hy. f_equal.
  assert (Hs : sim1 (rev ws ++ c :: b) b).
  { apply sim_unlead; [|exact (bwd_unlead cjk_not_surrogate b Hb)].
    destruct (rev ws) as [|z r] eqn:Er; simpl.
    - rewrite (space_not_lead c Hc). reflexivity.
    - assert (Hz : is_space z = true).
      { rewrite forallb_forall in Hw. apply Hw, in_rev. rewrite Er. left. reflexivity. }
      rewrite (space_not_lead z Hz). reflexivity. }
  apply squeeze_sim; [intros x; apply bwd_two|intros _; apply Hs].
Qed.

(** The first replacement gives the same text with and without a run of
    white space between two code points of the scripts. *)
Lemma squeeze_over_run ws q : forallb is_space ws = true -> cjk_fwd q = true ->
  forall p d b, cjk_bwd (rev p ++ b) = true ->
  squeeze d b (p ++ ws ++ q) = squeeze d b (p ++ q).
Proof.
  intros Hw Hq. induction p as [|c p IH]; intros d b Hb.
  - simpl in *. apply squeeze_run; assumption.
  - simpl. simpl in Hb. rewrite <- app_assoc in Hb.
    rewrite (fwd_over_run ws q Hw Hq p (c :: b) Hb), !(IH _ _ Hb). reflexivity.
Qed.

Lemma clean_over_run p ws q :
  forallb is_space ws = true -> cjk_bwd (rev p) = true -> cjk_fwd q = true ->
  clean (p ++ ws ++ q) = clean (p ++ q).
Proof.
  intros Hw Hp Hq. unfold clean.
  rewrite (squeeze_over_run ws q Hw Hq p false []) by (rewrite app_nil_r; exact Hp).
  reflexivity.
Qed.

(** C8 (as amended).  The two normalisers are the same function.  No
    white-space unit of the output is followed by another one: each is a
    single space inside the text, it is not between two code points of the
    Han, Hiragana and Katakana scripts, and it stands where the NFKC form
    of the input has white space.  The units that are no white space are
    those of the NFKC form, in their order.  A run of white space between
    two code points of the scripts is removed: the text normalises as the
    text without the run does.  A text whose NFKC form is an output of
    the normaliser is normalised to that output; so the normaliser
    changes its own output [y] only when NFKC changes [y]. *)
Theorem C8_normalise_idempotent (x : jsstring) :
  let y := PdfAnalyze.sanitizeText x in
  HomePage.sanitizeExtractedText x = y
  /\ (forall z, normalize_NFKC z = y -> PdfAnalyze.sanitizeText z = y)
  /\ (forall p c d q, y = p ++ c :: d :: q -> is_space c = true -> is_space d = false)
  /\ (forall p c q, y = p ++ c :: q -> is_space c = true ->
        c = SPACE /\ p <> [] /\ q <> []
        /\ cjk_bwd (rev p) && cjk_fwd q = false
        /\ exists p0 w q0,
             normalize_NFKC x = p0 ++ w :: q0 /\ is_space w = true
             /\ nonspace p0 = nonspace p /\ nonspace q0 = nonspace q)
  /\ nonspace y = nonspace (normalize_NFKC x)
  /\ (forall p ws q x',
        normalize_NFKC x = p ++ ws ++ q -> forallb is_space ws = true ->
        cjk_bwd (rev p) = true -> cjk_fwd q = true ->
        normalize_NFKC x' = p ++ q ->
        y = PdfAnalyze.sanitizeText x').
Proof.
  cbv zeta.
  split; [rewrite sanitizeExtractedText_clean, sanitizeText_clean by assumption;
          reflexivity|].
  split.
  { intros z Hz. rewrite (sanitizeText_clean cjk_not_space z), Hz.
    rewrite (sanitizeText_clean cjk_not_space).
    apply (clean_idem cjk_not_space cjk_not_surrogate). }
  rewrite (sanitizeText_clean cjk_not_space).
  pose proof (clean_single (normalize_NFKC x)) as Hs.
  pose proof (clean_nogap cjk_not_space cjk_not_surrogate (normalize_NFKC x)) as Hg.
  destruct (thinned_clean (normalize_NFKC x)) as [Hn Hk].
  split; [|split; [|split; [exact Hn|]]].
  - intros p c d q E. rewrite E in Hs. exact (single_no_double _ _ _ _ _ Hs).
  - intros p c q E Hc.
    split; [rewrite E in Hs; exact (single_space _ _ _ _ Hs Hc)|].
    split; [|split; [|split; [|exact (Hk p c q E Hc)]]].
    + intros ->. simpl in E. unfold clean in E.
      rewrite (proj1 (trim_ends _) c q E) in Hc. discriminate.
    + intros ->. unfold clean in E.
      rewrite (proj2 (trim_ends _) p c E) in Hc. discriminate.
    + rewrite E in Hs, Hg.
      pose proof (nogap_split _ _ _ _ Hg Hc) as Hno. rewrite app_nil_r in Hno.
      destruct q as [|d q]; [rewrite andb_false_r; reflexivity|].
      pose proof (single_no_double _ _ _ _ _ Hs Hc) as Hd.
      simpl in Hno. rewrite Hd in Hno. exact Hno.
  - intros p ws q x' E Hw Hp Hq E'.
    rewrite (sanitizeText_clean cjk_not_space x'), E, E'.
    apply clean_over_run; assumption.
Qed.

End GapRuns.

Lemma marks_cjk_not_space c : marks_script_cjk c = true -> is_space c = false.
Proof.
  unfold marks_script_cjk. intros Hc. apply orb_true_iff in Hc as [Hc|Hc];
    [exact (ref_cjk_not_space c Hc)|].
  unfold is_space, in_range in *. apply not_true_is_false. intros Hs.
  rewrite ?orb_true_iff, ?andb_true_iff, ?negb_true_iff, ?Z.leb_le, ?Z.ltb_ge,
    ?Z.eqb_eq in Hc, Hs.
  lia.
Qed.

Lemma marks_cjk_not_surrogate c :
  marks_script_cjk c = true -> is_lead c = false /\ is_trail c = false.
Proof.
  unfold marks_script_cjk. intros Hc. apply orb_true_iff in Hc as [Hc|Hc];
    [exact (ref_cjk_not_surrogate c Hc)|].
  unfold is_lead, is_trail, in_range in *.
  rewrite ?andb_true_iff, ?negb_true_iff, ?Z.leb_le, ?Z.ltb_ge in Hc.
  split; apply not_true_is_false; intros Hs;
    rewrite ?andb_true_iff, ?negb_true_iff, ?Z.leb_le, ?Z.ltb_ge in Hs; lia.
Qed.

Definition GAP_EXAMPLE : jsstring := js "日本 語".

(** The example of the specification, from the theorem: the space of
    [GAP_EXAMPLE] is between two code points of Han, so that the text
    normalises as the text without it does, which has no white space. *)
Lemma C8_witness :
  @PdfAnalyze.sanitizeText marks_platform GAP_EXAMPLE = js "日本語"
  /\ @HomePage.sanitizeExtractedText marks_platform GAP_EXAMPLE = js "日本語"
  /\ @nonspace (@PdfAnalyze.sanitizeText marks_platform GAP_EXAMPLE) = js "日本語".
Proof.
  destruct (@C8_normalise_idempotent marks_platform marks_cjk_not_space
              marks_cjk_not_surrogate GAP_EXAMPLE) as (Hsame & _ & _ & _ & Hn & Hgap).
  assert (E : @PdfAnalyze.sanitizeText marks_platform GAP_EXAMPLE = js "日本語").
  { rewrite (Hgap (js "日本") (js " ") (js "語") (js "日本語"));
      vm_compute; reflexivity. }
  split; [exact E|]. split; [rewrite Hsame; exact E|].
  rewrite Hn. vm_compute. reflexivity.
Defined.

(** C8 as stated fails.  In KA U+16FF1 SPACE U+16FF0 U+3099 the space is
    between two code points of Han; the normaliser removes it, and in its
    output NFKC composes KA and the voiced sound mark U+3099 into GA.
    The text is in NFKC form, its normal form is not. *)
Lemma C8_counterexample :
  @normalize_NFKC marks_platform KA_MARKS_GAP = KA_MARKS_GAP
  /\ @PdfAnalyze.sanitizeText marks_platform KA_MARKS_GAP = KA_MARKS
  /\ @PdfAnalyze.sanitizeText marks_platform
       (@PdfAnalyze.sanitizeText marks_platform KA_MARKS_GAP) = GA_MARKS
  /\ @PdfAnalyze.sanitizeText marks_platform
       (@PdfAnalyze.sanitizeText marks_platform KA_MARKS_GAP)
     <> @PdfAnalyze.sanitizeText marks_platform KA_MARKS_GAP
  /\ @HomePage.sanitizeExtractedText marks_platform
       (@HomePage.sanitizeExtractedText marks_platform KA_MARKS_GAP)
     <> @HomePage.sanitizeExtractedText marks_platform KA_MARKS_GAP.
Proof.
  repeat split; try (vm_compute; reflexivity); vm_compute; discriminate.
Qed.

(** White space that stays, on the reference platform. *)
Example normalise_gap_example :
  PdfAnalyze.sanitizeText GAP_EXAMPLE = js "日本語"
  /\ HomePage.sanitizeExtractedText (js "  日本   語  と  ABC
  def ") = js "日本語と ABC def".
Proof. split; vm_compute; reflexivity. Qed.

(** * Further properties of the routes *)

Section AnalyzeRoute.
Context `{Platform}.
Import PdfAnalyze.

(** X1.  The analysis route answers every request, and only in two ways:
    with status 400 and [text is required], or with status 200 and an
    analysis.  It has no other status, and no request makes the handler
    fail. *)
Theorem analyze_route_always_answers env request :
  exists resp, POST env request = Some resp
    /\ (resp = TEXT_REQUIRED \/ exists r, resp = ok200 r).
Proof.
  assert (Hfb : forall text, exists resp,
             ok200 <$> fallbackAnalyze text = Some resp
             /\ (resp = TEXT_REQUIRED \/ exists r, resp = ok200 r)).
  { intros text. destruct (fallbackAnalyze_total text) as (ms & _ & ->).
    eexists. split; [reflexivity|]. right. eexists. reflexivity. }
  assert (Hfail : exists resp, Some failed = Some resp
             /\ (resp = TEXT_REQUIRED \/ exists r, resp = ok200 r)).
  { eexists. split; [reflexivity|]. right. eexists. reflexivity. }
  unfold POST.
  repeat match goal with
         | |- context [match ?x with _ => _ end] => destruct x eqn:?
         end;
    try exact Hfail; try apply Hfb;
    eexists; (split; [reflexivity|]);
    first [left; reflexivity | right; eexists; reflexivity].
Qed.

(** X2.  The summary of the fallback is never empty and has at most 180
    units. *)
Theorem fallback_summary_bounds text r :
  fallbackAnalyze text = Some r ->
  summary r <> [] /\ (length (summary r) <= 180)%nat.
Proof.
  destruct (fallbackAnalyze_total text) as (ms & _ & ->).
  intros E. injection E as <-. cbn [summary]. split.
  - apply or_else_not_empty. vm_compute. discriminate.
  - unfold or_else. destruct (truthy _).
    + unfold slice0. rewrite length_take. lia.
    + vm_compute. lia.
Qed.

(** The fields of a parsed reply are trimmed: the summary, and the name
    and the note of every plan, on both sides of the analysis route. *)
Definition trimmed (s : jsstring) : Prop := trim s = s.

Lemma plan_of_json_trimmed item p :
  plan_of_json item = Some p -> trimmed (Plan.name p) /\ trimmed (Plan.note p).
Proof.
  unfold plan_of_json.
  destruct item; try discriminate;
    (destruct (String_of _ (nullish (prop (js "name") _) _)) as [name|]; [|discriminate]);
    (destruct (String_of _ (nullish (prop (js "note") _) _)) as [note|]; [|discriminate]);
    cbn; intros E; injection E as <-; cbn; split; apply trim_idem.
Qed.

Lemma plans_of_json_trimmed items ps :
  mapM plan_of_json items = Some ps ->
  Forall (fun p => trimmed (Plan.name p) /\ trimmed (Plan.note p)
                   /\ Plan.name p <> [])
    (List.filter has_name ps).
Proof.
  intros Hm. apply mapM_Some in Hm.
  apply Forall_forall. intros p Hp. apply list_elem_of_In, filter_In in Hp as [Hp Hn].
  apply list_elem_of_In in Hp.
  apply list_elem_of_lookup in Hp as [i Hi].
  destruct (Forall2_lookup_r _ _ _ _ _ Hm Hi) as (item & _ & Hitem).
  destruct (plan_of_json_trimmed _ _ Hitem) as [H1 H2].
  repeat split; try assumption.
  unfold has_name in Hn. destruct (Plan.name p); discriminate.
Qed.
End AnalyzeRoute.

Lemma fallback_summary_bounds_witness :
  exists r, PdfAnalyze.fallbackAnalyze Examples4.TWICE = Some r
    /\ PdfAnalyze.summary r <> [] /\ (length (PdfAnalyze.summary r) <= 180)%nat.
Proof.
  assert (E : PdfAnalyze.fallbackAnalyze Examples4.TWICE
              = Some {| PdfAnalyze.summary := Examples4.TWICE;
                        PdfAnalyze.plans := [ Plan.Make (js "プラン") (Some 3000) [];
                                              Plan.Make (js "プラン") (Some 3000) [] ] |})
    by (vm_compute; reflexivity).
  eexists. split; [exact E|]. exact (fallback_summary_bounds Examples4.TWICE _ E).
Defined.

Section ParsedFields.
Context `{Platform}.

(** X3.  What the route parses from the model and what the page parses from
    the route is trimmed: the summary, and the name and the note of
    every plan; and no plan is without a name. *)
Theorem parsed_fields_trimmed raw r value ps :
  (PdfAnalyze.safeParseAnalyze raw = Some r ->
   trimmed (PdfAnalyze.summary r)
   /\ Forall (fun p => trimmed (Plan.name p) /\ trimmed (Plan.note p)
                       /\ Plan.name p <> [])
        (PdfAnalyze.plans r))
  /\ (HomePage.parsePricingPlans value = Some ps ->
      Forall (fun p => trimmed (Plan.name p) /\ trimmed (Plan.note p)
                       /\ Plan.name p <> [])
        ps).
Proof.
  split.
  - unfold PdfAnalyze.safeParseAnalyze.
    destruct (JSON_parse raw) as [parsed|]; [|discriminate]. cbn.
    destruct (prop (js "summary") parsed) as [[| | |s| |]|]; try discriminate.
    destruct (prop (js "plans") parsed) as [[| | | |items|]|]; try discriminate.
    destruct (mapM PdfAnalyze.plan_of_json items) as [qs|] eqn:Em; [|discriminate]. cbn.
    intros E. injection E as <-. cbn. split; [apply trim_idem|].
    exact (plans_of_json_trimmed _ _ Em).
  - unfold HomePage.parsePricingPlans.
    destruct value as [[| | | |items|]|]; try (intros E; injection E as <-; constructor).
    destruct (mapM PdfAnalyze.plan_of_json items) as [qs|] eqn:Em; [|discriminate]. cbn.
    intros E. injection E as <-. exact (plans_of_json_trimmed _ _ Em).
Qed.

End ParsedFields.

Lemma parsed_fields_trimmed_witness :
  exists r, PdfAnalyze.safeParseAnalyze Ref.NINE_PLANS = Some r
    /\ trimmed (PdfAnalyze.summary r)
    /\ HomePage.parsePricingPlans (Some (JArr [Ref.PLAN_A]))
       = Some [Plan.Make (js "A") (Some 1000) []].
Proof.
  assert (E : PdfAnalyze.safeParseAnalyze Ref.NINE_PLANS
              = Some {| PdfAnalyze.summary := js "s";
                        PdfAnalyze.plans := replicate 9 (Plan.Make (js "A") (Some 1000) []) |})
    by (vm_compute; reflexivity).
  eexists. split; [exact E|]. split.
  - exact (proj1 (proj1 (parsed_fields_trimmed Ref.NINE_PLANS _ None []) E)).
  - vm_compute. reflexivity.
Defined.

Section Renormalise.
Context `{Platform}.
Hypothesis cjk_not_space : forall c, script_cjk c = true -> is_space c = false.
Hypothesis cjk_not_surrogate :
  forall c, script_cjk c = true -> is_lead c = false /\ is_trail c = false.

(** X4.  The route normalises the text and the fallback normalises it
    again.  Without a key the route answers a text that is not blank with
    the fallback of the normalised text; this is the fallback of the text
    as it came whenever the normalised text is in NFKC form. *)
Theorem analyze_without_key_is_fallback env fileName text :
  PdfAnalyze.OPENAI_API_KEY env = None ->
  PdfAnalyze.sanitizeText text <> [] ->
  PdfAnalyze.POST env (Some (analyze_request fileName text))
  = PdfAnalyze.ok200 <$> PdfAnalyze.fallbackAnalyze (PdfAnalyze.sanitizeText text)
  /\ (normalize_NFKC (PdfAnalyze.sanitizeText text) = PdfAnalyze.sanitizeText text ->
      PdfAnalyze.POST env (Some (analyze_request fileName text))
      = PdfAnalyze.ok200 <$> PdfAnalyze.fallbackAnalyze text).
Proof.
  intros Hkey Htext.
  assert (E : PdfAnalyze.POST env (Some (analyze_request fileName text))
              = PdfAnalyze.ok200
                  <$> PdfAnalyze.fallbackAnalyze (PdfAnalyze.sanitizeText text)).
  { unfold PdfAnalyze.POST, analyze_request.
    change (prop (js "text") (JObj [(js "fileName", JStr fileName); (js "text", JStr text)]))
      with (Some (JStr text) : option (json number)).
    cbn [nullish]. destruct (PdfAnalyze.sanitizeText text) as [|c s] eqn:Et; [congruence|].
    cbn [truthy negb]. rewrite Hkey. reflexivity. }
  split; [exact E|]. intros Hn. rewrite E. unfold PdfAnalyze.fallbackAnalyze.
  rewrite (sanitizeText_clean cjk_not_space (PdfAnalyze.sanitizeText text)), Hn.
  rewrite (sanitizeText_clean cjk_not_space text).
  rewrite (clean_idem cjk_not_space cjk_not_surrogate). reflexivity.
Qed.

End Renormalise.

Lemma analyze_without_key_is_fallback_witness :
  @PdfAnalyze.POST marks_platform Examples4.no_key
    (Some (@analyze_request marks_platform (js "a.pdf") Examples4.TWICE))
  = PdfAnalyze.ok200 <$> @PdfAnalyze.fallbackAnalyze marks_platform Examples4.TWICE.
Proof.
  apply (@analyze_without_key_is_fallback marks_platform
           marks_cjk_not_space marks_cjk_not_surrogate Examples4.no_key);
    [reflexivity|vm_compute; discriminate|vm_compute; reflexivity].
Defined.

(** The two normalisations show where NFKC changes the normalised text:
    the route answers with the summary GA U+16FF1 U+16FF0, the fallback
    of the text as it came has KA U+16FF1 U+16FF0 U+3099. *)
Example route_normalises_twice :
  @PdfAnalyze.POST marks_platform Examples4.no_key
    (Some (@analyze_request marks_platform (js "a.pdf") KA_MARKS_GAP))
  = Some (PdfAnalyze.ok200 {| PdfAnalyze.summary := GA_MARKS; PdfAnalyze.plans := [] |})
  /\ @PdfAnalyze.fallbackAnalyze marks_platform KA_MARKS_GAP
     = Some {| PdfAnalyze.summary := KA_MARKS; PdfAnalyze.plans := [] |}.
Proof. split; vm_compute; reflexivity. Qed.

Section ChatRouteProps.
Context `{Platform}.
Import ChatRoute.

Lemma compact_collapse s : compact s = trim (collapse_ws s).
Proof. unfold compact. rewrite replace_ws. reflexivity. Qed.

(** X5.  [compact] changes nothing the second time, and its output has no
    white space but single spaces inside. *)
Theorem compact_idempotent s :
  compact (compact s) = compact s
  /\ single false (compact s) = true
  /\ trim (compact s) = compact s.
Proof.
  assert (Hs : single false (compact s) = true).
  { rewrite compact_collapse. apply single_trim, single_collapse. }
  repeat split; [|exact Hs|rewrite compact_collapse; apply trim_idem].
  rewrite (compact_collapse (compact s)). unfold collapse_ws.
  rewrite (single_fixed _ _ Hs), compact_collapse. apply trim_idem.
Qed.

(** X6.  The chat route answers with status 400 and [question is
    required] exactly when the body is read and its question is blank;
    every other request is answered with status 200 and an answer that
    is not empty. *)
Theorem chat_route_answers env request :
  let resp := POST env request in
  let blank := exists b, request = Some b /\ trim (default [] (question b)) = [] in
  (blank -> resp = {| status := 400; body := ErrorBody (js "question is required") |})
  /\ (~ blank ->
      status resp = 200 /\ exists answer, body resp = AnswerBody answer /\ answer <> [])
  /\ (status resp = 400 <-> blank)
  /\ (status resp = 200 \/ status resp = 400).
Proof.
  cbv zeta. unfold POST.
  assert (Hf : FAILED <> []) by (vm_compute; discriminate).
  destruct request as [b|]; cycle 1.
  { assert (Hno : ~ exists b, None = Some b /\ trim (default [] (question b)) = []).
    { intros (b & Hb & _). discriminate. }
    split; [intros Hb; contradiction|]. split; [intros _; split; [reflexivity|eauto]|].
    split; [|left; reflexivity]. split; [discriminate|intros Hb; contradiction]. }
  destruct (trim (default [] (question b))) as [|c q] eqn:Eq; cbn [truthy negb].
  - assert (Hyes : exists b', Some b = Some b' /\ trim (default [] (question b')) = []).
    { exists b. split; [reflexivity|exact Eq]. }
    split; [reflexivity|]. split; [intros Hn; contradiction|].
    split; [|right; reflexivity]. split; [intros _; exact Hyes|reflexivity].
  - assert (Hno : ~ exists b', Some b = Some b' /\ trim (default [] (question b')) = []).
    { intros (b' & Hb & Hq). injection Hb as <-. rewrite Eq in Hq. discriminate. }
    assert (Hok : forall resp : response,
              (status resp = 200
               /\ exists answer, body resp = AnswerBody answer /\ answer <> []) ->
              ((exists b', Some b = Some b' /\ trim (default [] (question b')) = []) ->
               resp = {| status := 400; body := ErrorBody (js "question is required") |})
              /\ (~ (exists b', Some b = Some b' /\ trim (default [] (question b')) = []) ->
                  status resp = 200
                  /\ exists answer, body resp = AnswerBody answer /\ answer <> [])
              /\ (status resp = 400
                  <-> exists b', Some b = Some b' /\ trim (default [] (question b')) = [])
              /\ (status resp = 200 \/ status resp = 400)).
    { intros resp [Hs Ha]. split; [intros Hb; contradiction|]. split; [auto|].
      split; [|left; exact Hs]. split; [rewrite Hs; discriminate|intros Hb; contradiction]. }
    apply Hok.
    destruct (OPENAI_API_KEY env) as [[|k key]|];
      try (split; [reflexivity|]; eexists; split; [reflexivity|]; vm_compute; discriminate).
    destruct (fetch_responses env _ _ _) as [|[] [data|]];
      try (split; [reflexivity|]; eexists; split; [reflexivity|]; exact Hf).
    split; [reflexivity|]. eexists. split; [reflexivity|].
    apply or_else_not_empty. vm_compute. discriminate.
Qed.

(** X7.  Only the first five sources of a request reach the model. *)
Theorem chat_route_five_sources env q name l :
  POST env (Some {| question := q; selectedSourceName := name; sources := Some l |})
  = POST env (Some {| question := q; selectedSourceName := name;
                      sources := Some (firstn 5 l) |}).
Proof.
  unfold POST, buildContext. cbn [question selectedSourceName sources default from_option id].
  rewrite firstn_firstn. reflexivity.
Qed.

End ChatRouteProps.

Section UrlRouteProps.
Context `{Platform}.
Import UrlExtract.

Lemma url_sanitize_collapse s : sanitizeText s = trim (collapse_ws (normalize_NFKC s)).
Proof. unfold sanitizeText. rewrite replace_ws. reflexivity. Qed.

(** X8.  The text of a page has no white space at its ends and only single
    spaces inside, and so has every title that is not the fallback. *)
Theorem url_text_single_spaced html :
  single false (htmlToText html) = true /\ trim (htmlToText html) = htmlToText html.
Proof.
  unfold htmlToText. rewrite url_sanitize_collapse. split.
  - apply single_trim, single_collapse.
  - apply trim_idem.
Qed.

Lemma extractTitle_short html fallback :
  extractTitle html fallback = fallback
  \/ (length (extractTitle html fallback) <= 120)%nat.
Proof.
  unfold extractTitle, or_else. destruct (truthy _); [right|left; reflexivity].
  unfold slice0. rewrite length_take. lia.
Qed.

(** X9.  The title is the fallback or has at most 120 units, and it is not
    empty unless the fallback is. *)
Theorem extractTitle_bounds html fallback :
  (extractTitle html fallback = fallback
   \/ (length (extractTitle html fallback) <= 120)%nat)
  /\ (fallback <> [] -> extractTitle html fallback <> []).
Proof.
  split; [apply extractTitle_short|]. unfold extractTitle. apply or_else_not_empty.
Qed.

(** X10.  The extraction route fetches at most once and answers with one of
    three statuses.  A result comes only with status 200, after the one
    fetch of the URL that the request gives: the trimmed [url] of the
    body is parsed, its scheme is http or https, its host is not
    private, the page was fetched from it with an HTML content type, the
    title is taken from the page with the host name as the fallback, and
    the text is the first 50000 units of the text of the page. *)
Theorem url_route_bounds fetch request :
  let resp := fst (POST fetch request) in
  let fetched := snd (POST fetch request) in
  (length fetched <= 1)%nat
  /\ (status resp = 200 \/ status resp = 400 \/ status resp = 500)
  /\ (forall r, body resp = ExtractBody r ->
        status resp = 200
        /\ len (text r) <= 50000
        /\ exists body s parsed code contentType html,
             request = Some body
             /\ String_of string_of_number (nullish (prop (js "url") body) (JStr []))
                = Some s
             /\ URL_parse (trim s) = Some parsed
             /\ fetched = [href parsed]
             /\ isPrivateHostname (hostname parsed) = false
             /\ (protocol parsed = js "http:" \/ protocol parsed = js "https:")
             /\ fetch (href parsed) = FetchResponse true code contentType (Some html)
             /\ includes (js "text/html") (default [] contentType) = true
             /\ title r = extractTitle html (hostname parsed)
             /\ text r = slice0 50000 (htmlToText html)
             /\ (title r = hostname parsed \/ (length (title r) <= 120)%nat)).
Proof.
  cbv zeta. unfold POST, error.
  repeat match goal with
         | |- context [match ?x with _ => _ end] => destruct x eqn:?
         end;
    cbn [fst snd status body length];
    (split; [lia|]); (split; [auto|]); intros r Hr; try discriminate.
  all: injection Hr as <-; cbn [text title]; split; [reflexivity|]; split;
    [unfold len, slice0; rewrite length_take; lia|].
  all: repeat match goal with
              | E : negb _ = false |- _ => apply negb_false_iff in E
              end.
  all: subst; do 6 eexists.
  all: repeat (split; [first [eassumption|reflexivity]|]).
  all: (split; [|repeat (split; [first [eassumption|reflexivity]|]);
                 apply extractTitle_short]).
  all: match goal with
       | E : str_eqb ?a ?b || str_eqb ?a ?c = true |- _ =>
         apply orb_true_iff in E as [E|E]; apply str_eqb_eq in E; auto
       end.
Qed.

End UrlRouteProps.

Lemma extractTitle_bounds_witness :
  UrlExtract.extractTitle (js "<title> Plans </title>") (js "example.com") <> [].
Proof.
  apply (proj2 (extractTitle_bounds (js "<title> Plans </title>") (js "example.com"))).
  vm_compute. discriminate.
Defined.

Module Examples7.
Definition page_fetch (u : jsstring) : UrlExtract.fetch_result :=
  UrlExtract.FetchResponse true 200 (Some (js "text/html; charset=utf-8"))
    (Some (js "<html><title>Plans</title><body><p>Basic&nbsp;plan</p></body></html>")).
Definition page_request : option (json Z) :=
  Some (JObj [(js "url", JStr (js "https://example.com/"))]).
End Examples7.

Lemma url_route_bounds_witness :
  let resp :=
    fst (@UrlExtract.POST ref_platform Examples7.page_fetch Examples7.page_request) in
  UrlExtract.status resp = 200
  /\ exists r parsed,
       UrlExtract.body resp = UrlExtract.ExtractBody r
       /\ URL_parse (trim (js "https://example.com/")) = Some parsed
       /\ snd (@UrlExtract.POST ref_platform Examples7.page_fetch Examples7.page_request)
          = [href parsed]
       /\ UrlExtract.title r = js "Plans".
Proof.
  cbv zeta.
  destruct (@url_route_bounds ref_platform Examples7.page_fetch Examples7.page_request)
    as (_ & _ & Hr).
  assert (E : UrlExtract.body
                (fst (@UrlExtract.POST ref_platform Examples7.page_fetch
                        Examples7.page_request))
              = UrlExtract.ExtractBody
                  {| UrlExtract.title := js "Plans";
                     UrlExtract.text := js "Plans Basic plan" |})
    by (vm_compute; reflexivity).
  destruct (Hr _ E) as (Hs & _ & b & u & parsed & code & ct & html
                        & Eb & Eu & Ep & Ef & _).
  split; [exact Hs|]. eexists. exists parsed. split; [exact E|].
  injection Eb as <-. injection Eu as <-.
  split; [exact Ep|]. split; [exact Ef|reflexivity].
Defined.

(** * Further properties of the page *)

Section PageText.
Context `{Platform}.
Import HomePage.

Lemma normalizeText_collapse v : normalizeText v = trim (collapse_ws (toLowerCase v)).
Proof. unfold normalizeText. rewrite replace_ws. reflexivity. Qed.

Lemma normalizeText_single v : single false (normalizeText v) = true.
Proof. rewrite normalizeText_collapse. apply single_trim, single_collapse. Qed.

(** X11.  The text that questions and sources are compared on has no white
    space at its ends and only single spaces inside. *)
Theorem normalizeText_tidy v :
  single false (normalizeText v) = true /\ trim (normalizeText v) = normalizeText v.
Proof.
  split; [apply normalizeText_single|]. rewrite normalizeText_collapse. apply trim_idem.
Qed.

Lemma drop_while_subset p s c : c ∈ drop_while p s -> c ∈ s.
Proof.
  destruct (drop_while_split p s) as (l & E & _). intros Hc.
  rewrite E. apply elem_of_app. right. exact Hc.
Qed.

Lemma trim_subset s c : c ∈ trim s -> c ∈ s.
Proof.
  unfold trim, trimStart, trimEnd. intros Hc.
  apply list_elem_of_In in Hc. rewrite <- in_rev in Hc.
  apply list_elem_of_In, drop_while_subset in Hc.
  apply list_elem_of_In in Hc. rewrite <- in_rev in Hc.
  apply list_elem_of_In, drop_while_subset in Hc. exact Hc.
Qed.

Lemma single_space_only t : forall f c,
  single f t = true -> c ∈ t -> is_space c = true -> c = SPACE.
Proof.
  induction t as [|x t IH]; intros f c Hs Hc Hw.
  - apply elem_of_nil in Hc. contradiction.
  - simpl in Hs. apply elem_of_cons in Hc as [->|Hc].
    + rewrite Hw in Hs. apply andb_true_iff in Hs as [Hs _].
      apply andb_true_iff in Hs as [_ Hs]. apply Z.eqb_eq in Hs. exact Hs.
    + destruct (is_space x).
      * apply andb_true_iff in Hs as [_ Hs]. exact (IH _ _ Hs Hc Hw).
      * exact (IH _ _ Hs Hc Hw).
Qed.

Lemma split_on_pieces sep s :
  Forall (fun piece => forall c, c ∈ piece -> c ∈ s /\ c <> sep) (split_on sep s).
Proof.
  induction s as [|x s IH]; simpl.
  - constructor; [|constructor]. intros c Hc. apply elem_of_nil in Hc. contradiction.
  - destruct (x =? sep) eqn:Ex.
    + constructor.
      * intros c Hc. apply elem_of_nil in Hc. contradiction.
      * eapply Forall_impl; [exact IH|]. intros piece Hp c Hc.
        destruct (Hp c Hc). split; [apply elem_of_cons; auto|assumption].
    + apply Z.eqb_neq in Ex. destruct (split_on sep s) as [|p ps].
      * constructor; [|constructor]. intros c Hc.
        apply list_elem_of_singleton in Hc as ->. split; [apply elem_of_cons; auto|exact Ex].
      * inversion IH as [|? ? Hp Hps]; subst. constructor.
        -- intros c Hc. apply elem_of_cons in Hc as [->|Hc].
           ++ split; [apply elem_of_cons; auto|exact Ex].
           ++ destruct (Hp c Hc). split; [apply elem_of_cons; auto|assumption].
        -- eapply Forall_impl; [exact Hps|]. intros piece Hq c Hc.
           destruct (Hq c Hc). split; [apply elem_of_cons; auto|assumption].
Qed.

(** X12.  The tokens of a question have at least two units and no white
    space. *)
Theorem tokens_have_no_space question :
  Forall (fun token => 2 <= len token /\ forall c, c ∈ token -> is_space c = false)
    (tokens_of question).
Proof.
  unfold tokens_of. apply Forall_forall. intros token Ht.
  apply list_elem_of_In, filter_In in Ht as [Ht Hlen]. apply Z.leb_le in Hlen.
  split; [exact Hlen|]. intros c Hc.
  apply in_map_iff in Ht as (piece & <- & Hp).
  apply trim_subset in Hc.
  pose proof (split_on_pieces SPACE (normalizeText question)) as Hall.
  rewrite Forall_forall in Hall. apply list_elem_of_In in Hp.
  destruct (Hall piece Hp c Hc) as [Hin Hne].
  destruct (is_space c) eqn:Ec; [|reflexivity]. exfalso. apply Hne.
  exact (single_space_only _ _ _ (normalizeText_single question) Hin Ec).
Qed.

(** [Array.from(new Set(l))] has no string twice and only strings of
    [l]. *)
Lemma unique_step l : forall seen,
  NoDup seen ->
  NoDup (fold_left (fun seen s => if existsb (str_eqb s) seen then seen else seen ++ [s])
           l seen)
  /\ forall x,
       x ∈ fold_left (fun seen s => if existsb (str_eqb s) seen then seen else seen ++ [s])
             l seen ->
       x ∈ seen \/ x ∈ l.
Proof.
  induction l as [|s l IH]; intros seen Hnd; simpl.
  - split; [exact Hnd|auto].
  - destruct (existsb (str_eqb s) seen) eqn:Es.
    + destruct (IH seen Hnd) as [H1 H2]. split; [exact H1|].
      intros x Hx. destruct (H2 x Hx); [auto|right; apply elem_of_cons; auto].
    + assert (Hs : s ∉ seen).
      { intros Hin. apply list_elem_of_In in Hin.
        assert (existsb (str_eqb s) seen = true); [|congruence].
        apply existsb_exists. exists s. split; [exact Hin|apply str_eqb_refl]. }
      destruct (IH (seen ++ [s])) as [H1 H2].
      { apply NoDup_app. repeat split; [exact Hnd| |apply NoDup_singleton].
        intros x Hx Hx'. apply list_elem_of_singleton in Hx' as ->. exact (Hs Hx). }
      split; [exact H1|]. intros x Hx. destruct (H2 x Hx) as [Hx'|Hx'].
      * apply elem_of_app in Hx' as [Hx'|Hx']; [auto|].
        apply list_elem_of_singleton in Hx' as ->. right. apply elem_of_cons. auto.
      * right. apply elem_of_cons. auto.
Qed.

(** X13.  The price lines of a text: at most five, no line twice, and every
    line is trimmed, not empty, and holds a monthly amount. *)
Theorem extractPriceLines_bounds text :
  (length (extractPriceLines text) <= 5)%nat
  /\ NoDup (extractPriceLines text)
  /\ Forall (fun line => line <> [] /\ trim line = line /\ test priceLike line = true)
       (extractPriceLines text).
Proof.
  unfold extractPriceLines.
  set (lines := List.filter truthy (map trim (split_at afterPrice (sanitizeExtractedText text)))).
  destruct (unique_step (List.filter (test priceLike) lines) [] (NoDup_nil_2)) as [Hnd Hin].
  fold (unique (List.filter (test priceLike) lines)) in Hnd, Hin.
  split; [apply firstn_le_length|]. split.
  - eapply sublist_NoDup; [exact Hnd|apply sublist_take].
  - apply Forall_forall. intros line Hl. apply subseteq_take in Hl.
    destruct (Hin line Hl) as [Hl'|Hl']; [apply elem_of_nil in Hl'; contradiction|].
    apply list_elem_of_In, filter_In in Hl' as [Hl' Htest].
    unfold lines in Hl'. apply filter_In in Hl' as [Hl' Htruthy].
    apply in_map_iff in Hl' as (piece & <- & _).
    repeat split; [|apply trim_idem|exact Htest].
    intros E. rewrite E in Htruthy. discriminate.
Qed.

End PageText.

Section Prices.
Context `{Platform}.
Import HomePage.

Lemma map_set_entries {V} (Q : jsstring * V -> Prop) key v (m : list (jsstring * V)) :
  Forall Q m -> Q (key, v) -> Forall Q (map_set key v m).
Proof.
  induction m as [|[k' v'] m IH]; simpl; intros Hm Hq.
  - constructor; [exact Hq|constructor].
  - inversion Hm; subst. destruct (str_eqb k' key) eqn:E.
    + apply str_eqb_eq in E. subst k'. constructor; assumption.
    + constructor; [assumption|]. apply IH; assumption.
Qed.

Lemma map_has_true {V} key (m : list (jsstring * V)) :
  map_has key m = true -> key ∈ map fst m.
Proof.
  unfold map_has. intros Hh. apply existsb_exists in Hh as ([k v] & Hin & Hk).
  apply str_eqb_eq in Hk. simpl in Hk. subst k.
  apply list_elem_of_In, in_map_iff. exists (key, v). split; [reflexivity|exact Hin].
Qed.

Lemma map_set_has_key {V} key v (m : list (jsstring * V)) :
  key ∈ map fst (map_set key v m)
  /\ forall k, k ∈ map fst m -> k ∈ map fst (map_set key v m).
Proof.
  rewrite map_set_keys. destruct (map_has key m) eqn:E.
  - split; [exact (map_has_true _ _ E)|auto].
  - split.
    + apply elem_of_app. right. apply list_elem_of_singleton. reflexivity.
    + intros k Hk. apply elem_of_app. auto.
Qed.

(** The map that [buildAssistantReply] builds from the named plans. *)
Definition keyed (plans : list PricingPlan) : list (jsstring * PricingPlan) :=
  map (fun plan => (plan_key plan, plan)) plans.

Definition entry_keyed (plans : list PricingPlan) (e : jsstring * PricingPlan) : Prop :=
  fst e = plan_key (snd e) /\ snd e ∈ plans.

Lemma map_of_keyed all plans : forall m,
  (forall p, p ∈ plans -> p ∈ all) ->
  NoDup (map fst m) -> Forall (entry_keyed all) m ->
  let m' := fold_left (fun m e => map_set (fst e) (snd e) m) (keyed plans) m in
  NoDup (map fst m') /\ Forall (entry_keyed all) m'
  /\ (forall k, k ∈ map fst m -> k ∈ map fst m')
  /\ (forall p, p ∈ plans -> plan_key p ∈ map fst m').
Proof.
  induction plans as [|p plans IH]; intros m Hsub Hnd Hall; cbn zeta.
  - simpl. repeat split; [assumption|assumption|auto|].
    intros p Hp. apply elem_of_nil in Hp. contradiction.
  - simpl.
    destruct (IH (map_set (plan_key p) p m)) as (H1 & H2 & H3 & H4).
    + intros q Hq. apply Hsub. apply elem_of_cons. auto.
    + rewrite map_set_keys. destruct (map_has (plan_key p) m) eqn:E; [exact Hnd|].
      apply NoDup_app. repeat split; [exact Hnd| |apply NoDup_singleton].
      intros k Hk Hk'. apply list_elem_of_singleton in Hk' as ->.
      exact (map_has_false _ _ E Hk).
    + apply map_set_entries; [exact Hall|]. split; [reflexivity|].
      apply Hsub. apply elem_of_cons. auto.
    + repeat split; [exact H1|exact H2| |].
      * intros k Hk. apply H3. apply (proj2 (map_set_has_key _ _ _)), Hk.
      * intros q Hq. apply elem_of_cons in Hq as [->|Hq]; [|exact (H4 q Hq)].
        apply H3. apply (proj1 (map_set_has_key _ _ _)).
Qed.

(** X14.  The price answer from structured plans lists every pair of a name
    and a price once: the plans behind its lines are named plans of the
    sources, no two of them have the same key, and the key of every
    named plan of the sources is among them. *)
Theorem structured_prices_deduped sources lines :
  structured_prices sources = Some lines ->
  exists deduped,
    lines = map price_line deduped
    /\ NoDup (map plan_key deduped)
    /\ (forall p, p ∈ deduped ->
          Plan.name p <> []
          /\ exists s, s ∈ sources /\ p ∈ default [] (Source.pricingPlans s))
    /\ (forall s p, s ∈ sources -> p ∈ default [] (Source.pricingPlans s) ->
          Plan.name p <> [] -> plan_key p ∈ map plan_key deduped).
Proof.
  unfold structured_prices.
  set (named := List.filter _ _).
  assert (Hnamed : forall p, p ∈ named <->
            (exists s, s ∈ sources /\ p ∈ default [] (Source.pricingPlans s))
            /\ Plan.name p <> []).
  { intros p. unfold named. rewrite list_elem_of_In, filter_In, in_flat_map.
    split.
    - intros [(s & Hs & Hp) Hn]. split.
      + exists s. rewrite !list_elem_of_In. auto.
      + intros E. rewrite E in Hn. discriminate.
    - intros [(s & Hs & Hp) Hn]. split.
      + exists s. rewrite <- !list_elem_of_In. auto.
      + destruct (Plan.name p); [congruence|reflexivity]. }
  destruct named as [|p0 rest] eqn:En; [discriminate|]. rewrite <- En in *.
  intros E. injection E as <-.
  destruct (map_of_keyed named named [] (fun p Hp => Hp) (NoDup_nil_2) (Forall_nil_2 _))
    as (H1 & H2 & _ & H4).
  fold (keyed named) (map_of (keyed named)). unfold map_of.
  set (m' := fold_left _ (keyed named) []) in *.
  assert (Hkeys : map plan_key (map_values m') = map fst m').
  { unfold map_values. rewrite map_map. apply map_ext_in. intros e He.
    rewrite Forall_forall in H2. symmetry. apply H2, list_elem_of_In, He. }
  exists (map_values m'). split; [reflexivity|]. rewrite Hkeys. split; [exact H1|]. split.
  - intros p Hp. apply list_elem_of_In, in_map_iff in Hp as (e & <- & He).
    rewrite Forall_forall in H2. destruct (H2 e) as [_ Hin]; [apply list_elem_of_In, He|].
    apply Hnamed in Hin as [Hs Hn]. split; assumption.
  - intros s p Hs Hp Hn. apply H4, Hnamed. split; [exists s; auto|exact Hn].
Qed.

End Prices.

Lemma structured_prices_deduped_witness :
  exists deduped,
    [js "Basic: 1,000円/月"] = map HomePage.price_line deduped
    /\ NoDup (map HomePage.plan_key deduped).
Proof.
  destruct (structured_prices_deduped [Examples2.plans_only; Examples2.plans_only]
              [js "Basic: 1,000円/月"]) as (deduped & E & Hnd & _).
  - vm_compute. reflexivity.
  - exists deduped. split; [exact E|exact Hnd].
Defined.

Section PriceBlock.
Context `{Platform}.
Import HomePage.

(** The plans with a name that the sources carry, in their order. *)
Definition named_plans (sources : list SourceItem) : list PricingPlan :=
  List.filter (fun plan => (0 <? length (Plan.name plan))%nat)
    (flat_map (fun source => default [] (Source.pricingPlans source)) sources).

Lemma named_plans_iff sources p :
  p ∈ named_plans sources
  <-> (exists s, s ∈ sources /\ p ∈ default [] (Source.pricingPlans s))
      /\ Plan.name p <> [].
Proof.
  unfold named_plans. rewrite list_elem_of_In, filter_In, in_flat_map.
  split.
  - intros [(s & Hs & Hp) Hn]. split.
    + exists s. rewrite !list_elem_of_In. auto.
    + intros E. rewrite E in Hn. discriminate.
  - intros [(s & Hs & Hp) Hn]. split.
    + exists s. rewrite <- !list_elem_of_In. auto.
    + destruct (Plan.name p); [congruence|reflexivity].
Qed.

(** The lines of the structured plans: one plan for every key, taken from
    the named plans. *)
Lemma structured_prices_named sources :
  match named_plans sources with
  | [] => structured_prices sources = None
  | _ :: _ =>
    exists deduped,
      structured_prices sources = Some (map price_line deduped)
      /\ deduped <> []
      /\ (forall p, p ∈ deduped -> p ∈ named_plans sources)
      /\ (forall p, p ∈ named_plans sources -> plan_key p ∈ map plan_key deduped)
  end.
Proof.
  unfold structured_prices. fold (named_plans sources).
  destruct (named_plans sources) as [|p0 rest] eqn:En; [reflexivity|].
  rewrite <- En.
  destruct (map_of_keyed (named_plans sources) (named_plans sources) []
              (fun p Hp => Hp) (NoDup_nil_2) (Forall_nil_2 _)) as (H1 & H2 & _ & H4).
  fold (keyed (named_plans sources)) (map_of (keyed (named_plans sources))).
  unfold map_of.
  set (m' := fold_left _ (keyed (named_plans sources)) []) in *.
  assert (Hkeys : map plan_key (map_values m') = map fst m').
  { unfold map_values. rewrite map_map. apply map_ext_in. intros e He.
    rewrite Forall_forall in H2. symmetry. apply H2, list_elem_of_In, He. }
  exists (map_values m'). split; [reflexivity|]. split; [|split].
  - intros E. assert (Hin : plan_key p0 ∈ map plan_key (map_values m')).
    { rewrite Hkeys. apply H4. rewrite En. apply elem_of_cons. auto. }
    rewrite E in Hin. apply elem_of_nil in Hin. contradiction.
  - intros p Hp. apply list_elem_of_In, in_map_iff in Hp as (e & <- & He).
    rewrite Forall_forall in H2. apply (H2 e), list_elem_of_In, He.
  - intros p Hp. rewrite Hkeys. apply H4, Hp.
Qed.

Lemma flat_map_nil {A B} (f : A -> list B) l :
  flat_map f l = [] <-> forall x, x ∈ l -> f x = [].
Proof.
  induction l as [|a l IH]; simpl.
  - split; [|reflexivity]. intros _ x Hx. apply elem_of_nil in Hx. contradiction.
  - split.
    + intros E. apply app_eq_nil in E as [Ea El]. intros x Hx.
      apply elem_of_cons in Hx as [->|Hx]; [exact Ea|]. apply IH; assumption.
    + intros Hall. rewrite (Hall a) by (apply elem_of_cons; auto). simpl.
      apply IH. intros x Hx. apply Hall, elem_of_cons. auto.
Qed.

End PriceBlock.

(** C10 (as amended): [buildAssistantReply] returns a string that is never
    empty, for every question and every list of sources.  Without sources
    it is the upload-first message.  Otherwise, for a question with price
    intent: when a source carries a plan with a name, the reply is the
    price header and one line for every key (name and price) of the named
    plans, whatever the texts are; when no plan has a name and a source
    has a price line, the reply is the header and the price lines of the
    sources in their order.  In the other cases (no price intent, or
    neither a named plan nor a price line) sources whose normalised texts
    are all empty give the no-usable-text message, and else the reply is
    the summary line or the snippet line of a source with text. *)
Theorem C10_reply_never_empty `{Platform} (question : jsstring) (sources : list SourceItem) :
  let reply := HomePage.buildAssistantReply question sources in
  let named_plan :=
    exists s plan, s ∈ sources /\ plan ∈ default [] (Source.pricingPlans s)
                   /\ Plan.name plan <> [] in
  let price_line_found :=
    exists s, s ∈ sources /\ HomePage.extractPriceLines (Source.text s) <> [] in
  reply <> []
  /\ HomePage.buildAssistantReply question [] = HomePage.UPLOAD_FIRST
  /\ (sources <> [] -> test HomePage.priceIntent question = true -> named_plan ->
      exists deduped,
        reply = HomePage.PRICE_HEADER ++ join [0x0A] (map HomePage.price_line deduped)
        /\ deduped <> []
        /\ (forall p, p ∈ deduped ->
              Plan.name p <> []
              /\ exists s, s ∈ sources /\ p ∈ default [] (Source.pricingPlans s))
        /\ (forall s p, s ∈ sources -> p ∈ default [] (Source.pricingPlans s) ->
              Plan.name p <> [] ->
              HomePage.plan_key p ∈ map HomePage.plan_key deduped))
  /\ (sources <> [] -> test HomePage.priceIntent question = true -> ~ named_plan ->
      price_line_found ->
      reply = HomePage.PRICE_HEADER
              ++ join [0x0A]
                   (flat_map (fun s => HomePage.extractPriceLines (Source.text s)) sources))
  /\ (sources <> [] ->
      test HomePage.priceIntent question = false \/ (~ named_plan /\ ~ price_line_found) ->
      general_case (HomePage.tokens_of question) sources reply
      /\ ((forall s, s ∈ sources -> usable s = false) -> reply = HomePage.NO_TEXT)).
Proof.
  cbv zeta.
  assert (Hnamed : (exists s plan, s ∈ sources /\ plan ∈ default [] (Source.pricingPlans s)
                                   /\ Plan.name plan <> [])
                   <-> named_plans sources <> []).
  { split.
    - intros (s & plan & Hs & Hp & Hn) E.
      assert (Hin : plan ∈ named_plans sources) by (apply named_plans_iff; eauto).
      rewrite E in Hin. apply elem_of_nil in Hin. contradiction.
    - intros Hne. destruct (named_plans sources) as [|p l] eqn:E; [congruence|].
      assert (Hin : p ∈ named_plans sources) by (rewrite E; apply elem_of_cons; auto).
      apply named_plans_iff in Hin as [(s & Hs & Hp) Hn]. eauto. }
  assert (Hfound : (exists s, s ∈ sources
                              /\ HomePage.extractPriceLines (Source.text s) <> [])
                   <-> flat_map (fun s => HomePage.extractPriceLines (Source.text s))
                         sources <> []).
  { rewrite flat_map_nil. split.
    - intros (s & Hs & Hl) Hall. exact (Hl (Hall s Hs)).
    - intros Hne.
      destruct (decide (Exists (fun s => HomePage.extractPriceLines (Source.text s) <> [])
                          sources)) as [He|He].
      + apply Exists_exists in He as (s & Hs & Hl). exists s.
        split; [exact Hs|exact Hl].
      + exfalso. apply Hne. intros s Hs.
        destruct (decide (HomePage.extractPriceLines (Source.text s) = [])) as [E|E];
          [exact E|].
        exfalso. apply He, Exists_exists. exists s.
        split; [exact Hs|exact E]. }
  pose proof (structured_prices_named sources) as Hsp.
  split; [|split; [reflexivity|]].
  - destruct sources as [|s0 rest]; [apply UPLOAD_FIRST_not_empty|].
    rewrite reply_cases by discriminate.
    destruct (price_block question (s0 :: rest)) as [block|] eqn:E.
    + apply price_block_header in E as [_ [lines ->]].
      apply app_not_nil_l, PRICE_HEADER_not_empty.
    + apply general_reply_not_empty.
  - split; [|split].
    + intros Hne Hq Hn. apply Hnamed in Hn.
      destruct (named_plans sources) as [|p0 l] eqn:En; [congruence|].
      destruct Hsp as (deduped & E & Hd & Hsub & Hkeys). exists deduped.
      split; [|split; [exact Hd|split]].
      * unfold HomePage.buildAssistantReply.
        destruct sources as [|s0 rest]; [congruence|]. rewrite Hq, E. reflexivity.
      * intros p Hp. rewrite <- En in Hsub. apply Hsub, named_plans_iff in Hp as [Hs Hp].
        split; assumption.
      * intros s p Hs Hp Hname. apply Hkeys. rewrite <- En. apply named_plans_iff. eauto.
    + intros Hne Hq Hn Hf. apply Hfound in Hf.
      destruct (named_plans sources) as [|p0 l] eqn:En;
        [|exfalso; apply Hn, Hnamed; discriminate].
      unfold HomePage.buildAssistantReply.
      destruct sources as [|s0 rest]; [congruence|]. rewrite Hq, Hsp.
      destruct (flat_map _ (s0 :: rest)); [congruence|reflexivity].
    + intros Hne Hcase.
      assert (E : HomePage.buildAssistantReply question sources
                  = HomePage.general_reply (HomePage.tokens_of question) sources).
      { unfold HomePage.buildAssistantReply.
        destruct sources as [|s0 rest]; [congruence|].
        destruct Hcase as [->|[Hn Hf]]; [reflexivity|].
        destruct (test HomePage.priceIntent question); [|reflexivity].
        destruct (named_plans (s0 :: rest)) as [|p0 l] eqn:En;
          [|exfalso; apply Hn, Hnamed; discriminate].
        rewrite Hsp.
        destruct (flat_map _ (s0 :: rest)) eqn:Ef; [reflexivity|].
        exfalso. apply Hf, Hfound. discriminate. }
      rewrite E. split; [apply general_reply_case|apply general_reply_no_text].
Qed.

Lemma C10_witness :
  exists deduped,
    HomePage.buildAssistantReply (js "料金") [Examples2.plans_only]
    = HomePage.PRICE_HEADER ++ join [0x0A] (map HomePage.price_line deduped)
    /\ deduped <> [].
Proof.
  destruct (C10_reply_never_empty (js "料金") [Examples2.plans_only])
    as (_ & _ & Hprice & _).
  destruct Hprice as (deduped & E & Hd & _).
  - discriminate.
  - vm_compute. reflexivity.
  - exists Examples2.plans_only, (@Plan.Make ref_platform (js "Basic") (Some 1000) []).
    split; [apply list_elem_of_singleton; reflexivity|].
    split; [apply list_elem_of_singleton; reflexivity|discriminate].
  - exists deduped. split; [exact E|exact Hd].
Defined.


Section Client.
Context `{Platform}.
Import HomePage.





(** An answer of the chat route to a question that is not blank is not
    blank either. *)
Lemma chat_route_answer_not_blank env request q :
  ChatRoute.question request = Some q -> truthy (trim q) = true ->
  exists answer,
    ChatRoute.POST env (Some request)
    = {| ChatRoute.status := 200; ChatRoute.body := ChatRoute.AnswerBody answer |}
    /\ trim answer <> [].
Proof.
  intros Hq Ht. unfold ChatRoute.POST. rewrite Hq. cbn [default from_option id].
  rewrite Ht. cbn [negb].
  assert (Hf : trim ChatRoute.FAILED <> []) by (vm_compute; discriminate).
  destruct (ChatRoute.OPENAI_API_KEY env) as [[|k key]|];
    try (eexists; split; [reflexivity|]; vm_compute; discriminate).
  destruct (ChatRoute.fetch_responses env _ _ _) as [|[] [data|]];
    try (eexists; split; [reflexivity|]; exact Hf).
  eexists. split; [reflexivity|]. unfold or_else.
  destruct (trim (Responses.outputText_of data)) as [|c s] eqn:E; cbn [truthy].
  - vm_compute. discriminate.
  - rewrite <- E, trim_idem, E. discriminate.
Qed.

(** X16.  When the page reaches the chat route, the reply that [handleAsk]
    stores for a question that is not blank is the answer of the route:
    the local answer engine is not consulted. *)
Theorem local_reply_unused_when_route_answers env br v :
  (forall request, api_chat br request = Some (ChatRoute.POST env (Some request))) ->
  truthy (trim (question v)) = true ->
  reply_of br v
  = remote_answer br
      (chat_request (trim (question v)) (Source.name <$> selectedSource v) (targetSources v))
  /\ reply_of br v <> [].
Proof.
  intros Hapi Hq. unfold reply_of. cbv zeta.
  set (request := chat_request _ _ _).
  assert (Ha : remote_answer br request <> []).
  { unfold remote_answer. rewrite Hapi.
    destruct (chat_route_answer_not_blank env request (trim (question v)))
      as (answer & -> & Hne); [reflexivity|rewrite trim_idem; exact Hq|].
    cbn. exact Hne. }
  destruct (remote_answer br request) as [|c s]; [congruence|].
  cbn [truthy negb]. split; [reflexivity|discriminate].
Qed.

End Client.

Module Examples5.
End Examples5.


Lemma local_reply_unused_witness :
  reply_of Examples.browser Examples.empty_view
  = remote_answer Examples.browser
      (chat_request (trim (HomePage.question Examples.empty_view))
         (Source.name <$> HomePage.selectedSource Examples.empty_view)
         (targetSources Examples.empty_view))
  /\ reply_of Examples.browser Examples.empty_view <> [].
Proof.
  apply (local_reply_unused_when_route_answers Examples.chat_env).
  - intros request. reflexivity.
  - vm_compute. reflexivity.
Defined.

(** * Further properties of the handlers *)

Section NeverThrow.
Context `{Platform}.
Import HomePage.

(** A computation that returns, whatever the world is. *)
Definition safe {A} (m : M A) : Prop := forall w, exists a, fst (m w) = Ok a.

Lemma safe_ret {A} (a : A) : safe (ret a).
Proof. intros w. exists a. reflexivity. Qed.

Lemma safe_modify f : safe (modify f).
Proof. intros w. exists tt. reflexivity. Qed.

Lemma safe_logError context : safe (logError context).
Proof. apply safe_modify. Qed.

Lemma safe_bind {A B} (m : M A) (f : A -> M B) :
  safe m -> (forall a, safe (f a)) -> safe (bind m f).
Proof.
  intros Hm Hf w. rewrite fst_bind. destruct (Hm w) as [a ->]. apply Hf.
Qed.

Lemma safe_try_catch {A} (m : M A) h : (forall e, safe (h e)) -> safe (try_catch m h).
Proof.
  intros Hh w. unfold try_catch. destruct (m w) as [[a|e] w'].
  - exists a. reflexivity.
  - apply Hh.
Qed.

Lemma safe_finally {A} (m : M A) f : safe m -> safe (finally m f).
Proof.
  intros Hm w. unfold finally. destruct (Hm w) as [a Ha].
  destruct (m w) as [r w']. exists a. exact Ha.
Qed.

Lemma safe_createNewChatThread v : safe (createNewChatThread v).
Proof.
  unfold createNewChatThread. destruct (authUser v); [|apply safe_ret].
  destruct (_ && _); [apply safe_ret|].
  apply safe_bind; [apply safe_modify|intros _].
  apply safe_finally, safe_try_catch. intros e.
  apply safe_bind; [apply safe_logError|intros _; apply safe_ret].
Qed.

Lemma safe_ensureActiveChatId v : safe (ensureActiveChatId v).
Proof.
  unfold ensureActiveChatId. destruct (present _); [apply safe_ret|].
  apply safe_createNewChatThread.
Qed.

(** X17.  No handler lets an error out: what fails is caught and logged. *)
Theorem handlers_never_throw br v source sourceIds w :
  (exists a, fst (handleAsk br v w) = Ok a)
  /\ (exists a, fst (handleDeleteSource br v source w) = Ok a)
  /\ (exists a, fst (createNewChatThread v w) = Ok a)
  /\ (exists a, fst (createTeamChatWithInheritance v sourceIds w) = Ok a).
Proof.
  repeat split.
  - revert w. change (safe (handleAsk br v)). unfold handleAsk.
    destruct (authUser v); [|apply safe_ret].
    destruct (_ || _); [apply safe_ret|].
    apply safe_bind; [apply safe_ensureActiveChatId|intros a].
    destruct (negb (present a)); [apply safe_ret|].
    apply safe_bind; [apply safe_modify|intros _].
    apply safe_bind; [apply safe_modify|intros _].
    apply safe_finally, safe_try_catch. intros e.
    apply safe_bind; [apply safe_logError|intros _].
    apply safe_try_catch. intros e'. apply safe_logError.
  - revert w. change (safe (handleDeleteSource br v source)). unfold handleDeleteSource.
    destruct (authUser v); [|apply safe_ret].
    destruct (_ && _); [apply safe_ret|].
    destruct (negb _); [apply safe_ret|].
    apply safe_bind; [apply safe_modify|intros _].
    apply safe_finally, safe_try_catch. intros e. apply safe_logError.
  - apply safe_createNewChatThread.
  - revert w. change (safe (createTeamChatWithInheritance v sourceIds)).
    unfold createTeamChatWithInheritance.
    destruct (authUser v); [|apply safe_ret].
    destruct (selectedTeam v); [|apply safe_ret].
    apply safe_bind; [apply safe_modify|intros _].
    apply safe_finally, safe_try_catch. intros e.
    apply safe_bind; [apply safe_logError|intros _; apply safe_ret].
Qed.

(** The part of the world that is the state of the page. *)
Definition ui (w : World) :=
  (st_selectedChatId w, st_creatingChat w, st_deletingSourceId w,
   st_selectedKnowledge w, st_question w, st_sending w).

Lemma keeps_ui_backend c : keeps ui (backend c).
Proof. intros w. unfold backend. destruct (outage_after w) as [[|n]|]; reflexivity. Qed.

Lemma keeps_ui_logError context : keeps ui (logError context).
Proof. intros w. reflexivity. Qed.

Lemma keeps_ui_addDoc path data : keeps ui (addDoc path data).
Proof.
  unfold addDoc. apply keeps_bind; [apply keeps_get|intros id].
  apply keeps_bind; [apply keeps_ui_backend|intros _].
  apply keeps_bind; [apply keeps_modify; reflexivity|intros _]. apply keeps_ret.
Qed.

Lemma keeps_ui_updateDoc path id : keeps ui (updateDoc path id).
Proof.
  unfold updateDoc. apply keeps_bind; [apply keeps_ui_backend|intros _].
  apply keeps_bind; [apply keeps_get|intros found].
  destruct found; [apply keeps_modify; reflexivity|apply keeps_throw].
Qed.

Lemma keeps_ui_deleteDoc path id : keeps ui (deleteDoc path id).
Proof.
  unfold deleteDoc. apply keeps_bind; [apply keeps_ui_backend|intros _].
  apply keeps_modify. reflexivity.
Qed.

Lemma keeps_ui_deleteObject path : keeps ui (deleteObject path).
Proof.
  unfold deleteObject. apply keeps_bind; [apply keeps_ui_backend|intros _].
  apply keeps_bind; [apply keeps_get|intros found].
  destruct found; [apply keeps_modify; reflexivity|apply keeps_throw].
Qed.

Lemma keeps_sub {A B C} (X : World -> B) (g : B -> C) (m : M A) :
  keeps X m -> keeps (fun w => g (X w)) m.
Proof. intros Hm w. rewrite Hm. reflexivity. Qed.

Lemma keeps_sending_createNewChatThread v :
  keeps st_sending (createNewChatThread v).
Proof.
  unfold createNewChatThread. destruct (authUser v); [|apply keeps_ret].
  destruct (_ && _); [apply keeps_ret|].
  apply keeps_bind; [apply keeps_modify; reflexivity|intros _].
  apply keeps_finally; [|reflexivity].
  apply keeps_try_catch.
  - apply keeps_bind; [|intros created].
    + apply (keeps_sub ui (fun u => snd u)), keeps_ui_addDoc.
    + apply keeps_bind; [apply keeps_modify; reflexivity|intros _; apply keeps_ret].
  - intros e. apply keeps_bind; [apply keeps_modify; reflexivity|intros _; apply keeps_ret].
Qed.

(** X18.  The flags that the page shows while a handler works are down again
    when the handler ends, whatever happened in between. *)
Theorem busy_flags_reset br v source sourceIds w :
  (st_sending w = false -> st_sending (snd (handleAsk br v w)) = false)
  /\ (st_deletingSourceId w = None ->
      st_deletingSourceId (snd (handleDeleteSource br v source w)) = None)
  /\ (st_creatingChat w = false ->
      st_creatingChat (snd (createNewChatThread v w)) = false
      /\ st_creatingChat (snd (createTeamChatWithInheritance v sourceIds w)) = false).
Proof.
  split; [|split; [|intros Hw; split]].
  - intros Hw. unfold handleAsk. destruct (authUser v); [|exact Hw].
    destruct (_ || _); [exact Hw|].
    rewrite snd_bind.
    assert (Hk : st_sending (snd (ensureActiveChatId v w)) = false).
    { unfold ensureActiveChatId. destruct (present _); [exact Hw|].
      rewrite keeps_sending_createNewChatThread. exact Hw. }
    destruct (fst (ensureActiveChatId v w)) as [a|e]; [|exact Hk].
    destruct (negb (present a)); [exact Hk|].
    unfold bind at 1 2. cbn [modify]. rewrite snd_finally. reflexivity.
  - intros Hw. unfold handleDeleteSource. destruct (authUser v); [|exact Hw].
    destruct (_ && _); [exact Hw|]. destruct (negb _); [exact Hw|].
    unfold bind at 1. cbn [modify]. rewrite snd_finally. reflexivity.
  - unfold createNewChatThread. destruct (authUser v); [|exact Hw].
    destruct (_ && _); [exact Hw|].
    unfold bind at 1. cbn [modify]. rewrite snd_finally. reflexivity.
  - unfold createTeamChatWithInheritance. destruct (authUser v); [|exact Hw].
    destruct (selectedTeam v); [|exact Hw].
    unfold bind at 1. cbn [modify]. rewrite snd_finally. reflexivity.
Qed.

(** X19.  A handler whose guard stops it leaves the world as it is: asking
    without a user, with a blank question or while a question is in
    flight, and deleting without a user, in a team without a chat, or
    when the user declines. *)
Theorem guards_leave_world_alone br v source w :
  (authUser v = None \/ truthy (trim (question v)) = false \/ sending v = true ->
   handleAsk br v w = (Ok tt, w))
  /\ (authUser v = None
      \/ (is_team v = true /\ present (selectedChatId v) = false)
      \/ confirm br (js "「" ++ Source.name source ++ js "」を削除しますか？") = false ->
      handleDeleteSource br v source w = (Ok tt, w)).
Proof.
  split.
  - unfold handleAsk. intros [->|[Hq|Hs]]; [reflexivity| |].
    + destruct (authUser v); [|reflexivity]. rewrite Hq. reflexivity.
    + destruct (authUser v); [|reflexivity]. rewrite Hs, orb_true_r. reflexivity.
  - unfold handleDeleteSource. intros [->|[[Ht Hc]|Hc]]; [reflexivity| |].
    + destruct (authUser v); [|reflexivity]. rewrite Ht, Hc. reflexivity.
    + destruct (authUser v); [|reflexivity]. destruct (_ && _); [reflexivity|].
      rewrite Hc. reflexivity.
Qed.

End NeverThrow.

Section HandlerRuns.
Context `{Platform}.
Import HomePage.

(** Runs a handler whose branches the hypotheses decide. *)
Ltac steps :=
  unfold deleteObject, deleteDoc, updateDoc, addDoc, generateAiReply, for_each;
  unfold backend, logError;
  repeat unfold bind, modify, finally, try_catch, get, ret, throw;
  cbn.

(** X20.  Deleting a personal source whose blob is already gone stops at the
    blob: the store is asked once, the error is logged, and the document
    of the source stays in the database. *)
Theorem delete_stops_at_missing_blob br v source w uid p :
  authUser v = Some uid ->
  is_team v = false ->
  Source.storagePath source = Some p ->
  truthy p = true ->
  confirm br (js "「" ++ Source.name source ++ js "」を削除しますか？") = true ->
  p ∉ blobs w ->
  outage_after w = None ->
  let w' := snd (handleDeleteSource br v source w) in
  firestore w' = firestore w
  /\ blobs w' = blobs w
  /\ calls w' = calls w ++ [DeleteObject p]
  /\ errors w' = errors w ++ [js "delete-source"].
Proof.
  intros Hu Ht Hp Htp Hc Hb Hup. cbv zeta. unfold handleDeleteSource.
  rewrite Hu, Ht, Hc, Hp. unfold present. cbn [default from_option id andb negb orb].
  rewrite Htp. cbn [andb].
  steps. rewrite Hup. cbn.
  rewrite (bool_decide_eq_false_2 _ Hb). cbn. repeat split.
Qed.

(** X21.  Creating a personal chat: with the backend up the new thread is
    stored under a new id and selected; with the backend down nothing is
    stored, the selection stays, and the error is logged. *)
Theorem createNewChatThread_outcomes v w uid :
  authUser v = Some uid ->
  activeChat v = Personal ->
  let chats := [USERS; uid; CHATS] in
  let id := auto_id w chats in
  let w' := snd (createNewChatThread v w) in
  (outage_after w = None ->
   fst (createNewChatThread v w) = Ok (Some id)
   /\ id <> [] /\ collection w chats !! id = None
   /\ collection w' chats
      = <[id := ChatOf (Thread.Make Thread.personal [] [] (clock w) (clock w))]>
          (collection w chats)
   /\ st_selectedChatId w' = Some id
   /\ calls w' = calls w ++ [AddDoc chats id])
  /\ (outage_after w = Some 0%nat ->
      fst (createNewChatThread v w) = Ok None
      /\ firestore w' = firestore w
      /\ st_selectedChatId w' = st_selectedChatId w
      /\ errors w' = errors w ++ [js "chat-create"]).
Proof.
  intros Hu Ha. cbv zeta. unfold createNewChatThread, is_team. rewrite Hu, Ha.
  cbn [andb].
  destruct (auto_id_fresh w [USERS; uid; CHATS]) as (Hne & _ & Hnew).
  split; intros Hup.
  - steps. rewrite Hup. cbn. repeat split; try assumption.
    unfold collection at 1. cbn. rewrite lookup_insert_eq. reflexivity.
  - steps. rewrite Hup. cbn. repeat split.
Qed.

(** X22.  Inheritance is not undone: when the backend fails right after the
    team thread was written, the handler returns null and selects
    nothing, but the new thread stays in the database, without any copy. *)
Theorem inheritance_not_rolled_back v w sourceIds uid team first rest :
  authUser v = Some uid ->
  selectedTeam v = Some team ->
  List.filter (fun source => existsb (str_eqb (Source.id source)) sourceIds)
    (globalSources v) = first :: rest ->
  outage_after w = Some 1%nat ->
  let chats := [USERS; uid; CHATS] in
  let id := auto_id w chats in
  let w' := snd (createTeamChatWithInheritance v sourceIds w) in
  fst (createTeamChatWithInheritance v sourceIds w) = Ok None
  /\ collection w' chats !! id
     = Some (ChatOf (Thread.Make Thread.team (Team.id team) (Team.name team)
                       (clock w) (clock w)))
  /\ collection w chats !! id = None
  /\ collection w' [USERS; uid; CHATS; id; DOCUMENTS]
     = collection w [USERS; uid; CHATS; id; DOCUMENTS]
  /\ st_selectedChatId w' = st_selectedChatId w
  /\ errors w' = errors w ++ [js "team-chat-create"].
Proof.
  intros Hu Ht Hf Hup. cbv zeta. unfold createTeamChatWithInheritance.
  rewrite Hu, Ht, Hf.
  destruct (auto_id_fresh w [USERS; uid; CHATS]) as (Hne & _ & Hnew).
  steps. rewrite Hup. cbn. repeat split; try assumption.
  - unfold collection. cbn. rewrite lookup_insert_eq. cbn. apply lookup_insert_eq.
  - unfold collection. cbn. rewrite lookup_insert_ne; [reflexivity|].
    intros E. apply (f_equal length) in E. simpl in E. lia.
Qed.

(** X23.  When the question cannot be stored, the chat route is not called:
    with the backend down the handler tries the two writes of the
    question and of the failure message, logs both failures, and stores
    nothing. *)
Theorem ask_with_backend_down br v w uid chat :
  authUser v = Some uid ->
  truthy (trim (question v)) = true ->
  sending v = false ->
  selectedChatId v = Some chat ->
  truthy chat = true ->
  outage_after w = Some 0%nat ->
  let messages := [USERS; uid; CHATS; chat; MESSAGES] in
  let w' := snd (handleAsk br v w) in
  firestore w' = firestore w
  /\ calls w' = calls w ++ [AddDoc messages (auto_id w messages);
                            AddDoc messages (auto_id w messages)]
  /\ errors w' = errors w ++ [js "chat-send"; js "chat-fallback"]
  /\ st_question w' = [] /\ st_sending w' = false.
Proof.
  intros Hu Hq Hs Hc Htc Hup. cbv zeta. unfold handleAsk, ensureActiveChatId.
  rewrite Hu, Hq, Hs, Hc. unfold present. cbn [default from_option id negb orb].
  rewrite Htc. cbn [negb].
  steps. rewrite Htc. cbn. rewrite Hup. cbn. rewrite <- !app_assoc. repeat split.
Qed.

End HandlerRuns.

Module Examples6.
Import HomePage.

(** The world of [Examples.world] with other blobs and another
    backend. *)
Definition world_with (bl : gset jsstring) (out : option nat) : World :=
  {| firestore := ∅; blobs := bl; issued := ∅; clock := 0;
     outage_after := out; calls := []; errors := [];
     st_selectedChatId := None; st_creatingChat := false;
     st_deletingSourceId := None; st_selectedKnowledge := None;
     st_question := []; st_sending := false |}.

Definition sales : Team.TeamItem := Team.Make (js "t1") (js "Sales") [js "u1"].
End Examples6.

Lemma handlers_guard_witness :
  HomePage.handleAsk Examples.browser
    {| HomePage.authUser := None; HomePage.activeChat := HomePage.Personal;
       HomePage.teams := []; HomePage.selectedChatId := None;
       HomePage.selectedKnowledge := None; HomePage.globalSources := [];
       HomePage.sources := []; HomePage.question := js "q"; HomePage.sending := false |}
    Examples.world
  = (HomePage.Ok tt, Examples.world).
Proof.
  apply (proj1 (guards_leave_world_alone Examples.browser _ Examples.hello_a Examples.world)).
  left. reflexivity.
Defined.

Lemma busy_flags_reset_witness :
  HomePage.st_sending
    (snd (HomePage.handleAsk Examples.browser Examples.personal_view Examples.world))
  = false.
Proof.
  apply (proj1 (busy_flags_reset Examples.browser Examples.personal_view Examples.hello_a []
                  Examples.world)).
  reflexivity.
Defined.

Lemma delete_stops_at_missing_blob_witness :
  let w := Examples6.world_with ∅ None in
  let w' := snd (HomePage.handleDeleteSource Examples.browser Examples.personal_view
                   Examples.hello_a w) in
  HomePage.firestore w' = HomePage.firestore w
  /\ HomePage.blobs w' = HomePage.blobs w
  /\ HomePage.calls w' = HomePage.calls w ++ [HomePage.DeleteObject Examples.path_a]
  /\ HomePage.errors w' = HomePage.errors w ++ [js "delete-source"].
Proof.
  apply (delete_stops_at_missing_blob Examples.browser Examples.personal_view
           Examples.hello_a (Examples6.world_with ∅ None) (js "u1") Examples.path_a);
    try reflexivity.
  apply not_elem_of_empty.
Defined.

Lemma createNewChatThread_outcomes_witness :
  let chats := [HomePage.USERS; js "u1"; HomePage.CHATS] in
  let w := Examples6.world_with ∅ (Some 0%nat) in
  let w' := snd (HomePage.createNewChatThread Examples.personal_view w) in
  fst (HomePage.createNewChatThread Examples.personal_view w) = HomePage.Ok None
  /\ HomePage.firestore w' = HomePage.firestore w
  /\ HomePage.st_selectedChatId w' = HomePage.st_selectedChatId w
  /\ HomePage.errors w' = HomePage.errors w ++ [js "chat-create"].
Proof.
  apply (proj2 (createNewChatThread_outcomes Examples.personal_view
                  (Examples6.world_with ∅ (Some 0%nat)) (js "u1") eq_refl eq_refl)).
  reflexivity.
Defined.

Lemma inheritance_not_rolled_back_witness :
  let chats := [HomePage.USERS; js "u1"; HomePage.CHATS] in
  let w := Examples6.world_with ∅ (Some 1%nat) in
  let id := HomePage.auto_id w chats in
  let w' := snd (HomePage.createTeamChatWithInheritance Examples.team_view [js "doc1"] w) in
  fst (HomePage.createTeamChatWithInheritance Examples.team_view [js "doc1"] w)
  = HomePage.Ok None
  /\ HomePage.collection w' chats !! id
     = Some (HomePage.ChatOf
               (Thread.Make Thread.team (Team.id Examples6.sales)
                  (Team.name Examples6.sales) (HomePage.clock w) (HomePage.clock w)))
  /\ HomePage.collection w chats !! id = None
  /\ HomePage.collection w' [HomePage.USERS; js "u1"; HomePage.CHATS; id; HomePage.DOCUMENTS]
     = HomePage.collection w [HomePage.USERS; js "u1"; HomePage.CHATS; id; HomePage.DOCUMENTS]
  /\ HomePage.st_selectedChatId w' = HomePage.st_selectedChatId w
  /\ HomePage.errors w' = HomePage.errors w ++ [js "team-chat-create"].
Proof.
  apply (inheritance_not_rolled_back Examples.team_view
           (Examples6.world_with ∅ (Some 1%nat)) [js "doc1"] (js "u1") Examples6.sales
           Examples.hello_a []);
    vm_compute; reflexivity.
Defined.

Lemma ask_with_backend_down_witness :
  let messages := [HomePage.USERS; js "u1"; HomePage.CHATS; js "chat1"; HomePage.MESSAGES] in
  let w := Examples6.world_with ∅ (Some 0%nat) in
  let w' := snd (HomePage.handleAsk Examples.browser Examples.personal_view w) in
  HomePage.firestore w' = HomePage.firestore w
  /\ HomePage.calls w'
     = HomePage.calls w ++ [HomePage.AddDoc messages (HomePage.auto_id w messages);
                            HomePage.AddDoc messages (HomePage.auto_id w messages)]
  /\ HomePage.errors w' = HomePage.errors w ++ [js "chat-send"; js "chat-fallback"]
  /\ HomePage.st_question w' = [] /\ HomePage.st_sending w' = false.
Proof.
  apply (ask_with_backend_down Examples.browser Examples.personal_view
           (Examples6.world_with ∅ (Some 0%nat)) (js "u1") (js "chat1"));
    vm_compute; reflexivity.
Defined.

(** * Properties of the bootstrap script and of the selection *)

Section BootstrapProps.
Import Bootstrap.

(** What [parseArgs] may hold under a key: the key comes from a flag of
    the command line and is not [__proto__], and the value is [true] or
    a token of the command line that is not empty and is no flag. *)
Definition parsed_entry (argv : list jsstring) (e : jsstring * jsstring) : Prop :=
  (exists token, token ∈ argv /\ startsWith FLAG token = true /\ fst e = skipn 2 token)
  /\ fst e <> PROTO
  /\ truthy (snd e) = true
  /\ (snd e = TRUE \/ (snd e ∈ argv /\ startsWith FLAG (snd e) = false)).

Lemma assign_entries all key value args :
  Forall (parsed_entry all) args ->
  (key <> PROTO -> parsed_entry all (key, value)) ->
  Forall (parsed_entry all) (assign key value args).
Proof.
  intros Hall He. unfold assign. destruct (str_eqb key PROTO) eqn:E; [exact Hall|].
  apply map_set_entries; [exact Hall|]. apply He, str_eqb_neq, E.
Qed.

Lemma assign_keys key value args :
  (key <> PROTO -> key ∈ map fst (assign key value args))
  /\ forall k, k ∈ map fst args -> k ∈ map fst (assign key value args).
Proof.
  unfold assign. destruct (str_eqb key PROTO) eqn:E.
  - apply str_eqb_eq in E. split; [congruence|auto].
  - split; [intros _; apply (proj1 (map_set_has_key _ _ _))|].
    apply (proj2 (map_set_has_key _ _ _)).
Qed.

Lemma parseArgs_from_entries all n : forall argv args,
  (length argv <= n)%nat ->
  (forall token, token ∈ argv -> token ∈ all) ->
  Forall (parsed_entry all) args ->
  Forall (parsed_entry all) (parseArgs_from argv args).
Proof.
  induction n as [|n IH]; intros argv args Hn Hsub Hall.
  { destruct argv; [exact Hall|simpl in Hn; lia]. }
  destruct argv as [|token rest]; [exact Hall|]. simpl in Hn.
  cbn [parseArgs_from]. destruct (startsWith FLAG token) eqn:Ef; cbn [negb].
  - assert (Hkey : exists t, t ∈ all /\ startsWith FLAG t = true
                             /\ skipn 2 token = skipn 2 t).
    { exists token. split; [apply Hsub, elem_of_cons; auto|]. split; [exact Ef|reflexivity]. }
    assert (Htrue : skipn 2 token <> PROTO -> parsed_entry all (skipn 2 token, TRUE)).
    { intros Hp. split; [exact Hkey|]. split; [exact Hp|]. split; [reflexivity|left; reflexivity]. }
    destruct rest as [|next rest'].
    + apply assign_entries; assumption.
    + destruct (negb (truthy next) || startsWith FLAG next) eqn:En.
      * apply IH; [lia| |apply assign_entries; assumption].
        intros t Ht. apply Hsub, elem_of_cons. auto.
      * apply orb_false_iff in En as [Hn' Hf]. apply negb_false_iff in Hn'.
        apply IH; [simpl in Hn; lia| |].
        -- intros t Ht. apply Hsub. apply elem_of_cons. right. apply elem_of_cons. auto.
        -- apply assign_entries; [exact Hall|]. intros Hp.
           split; [exact Hkey|]. split; [exact Hp|]. split; [exact Hn'|]. right.
           split; [|exact Hf].
           apply Hsub. apply elem_of_cons. right. apply elem_of_cons. auto.
  - apply IH; [lia| |exact Hall].
    intros t Ht. apply Hsub, elem_of_cons. auto.
Qed.

(** Every flag of the command line leaves its key in the record, but for
    [__proto__]. *)
Lemma parseArgs_from_keys n : forall argv args,
  (length argv <= n)%nat ->
  (forall k, k ∈ map fst args -> k ∈ map fst (parseArgs_from argv args))
  /\ (forall token, token ∈ argv -> startsWith FLAG token = true ->
        skipn 2 token <> PROTO -> skipn 2 token ∈ map fst (parseArgs_from argv args)).
Proof.
  induction n as [|n IH]; intros argv args Hn.
  { destruct argv; [|simpl in Hn; lia]. split; [auto|].
    intros t Ht. apply elem_of_nil in Ht. contradiction. }
  destruct argv as [|token rest].
  { split; [auto|]. intros t Ht. apply elem_of_nil in Ht. contradiction. }
  simpl in Hn. cbn [parseArgs_from].
  destruct (startsWith FLAG token) eqn:Ef; cbn [negb].
  - destruct rest as [|next rest'].
    + split; [apply (proj2 (assign_keys _ _ _))|].
      intros t Ht _ Hp. apply list_elem_of_singleton in Ht as ->.
      apply (proj1 (assign_keys _ _ _)), Hp.
    + destruct (negb (truthy next) || startsWith FLAG next) eqn:En.
      * destruct (IH (next :: rest') (assign (skipn 2 token) TRUE args)) as [Hk Ht];
          [simpl in *; lia|].
        split; [intros k Hin; apply Hk, (proj2 (assign_keys _ _ _)), Hin|].
        intros t Hin Hf Hp. apply elem_of_cons in Hin as [->|Hin]; [|exact (Ht t Hin Hf Hp)].
        apply Hk, (proj1 (assign_keys _ _ _)), Hp.
      * destruct (IH rest' (assign (skipn 2 token) next args)) as [Hk Ht];
          [simpl in *; lia|].
        split; [intros k Hin; apply Hk, (proj2 (assign_keys _ _ _)), Hin|].
        intros t Hin Hf Hp. apply elem_of_cons in Hin as [->|Hin];
          [apply Hk, (proj1 (assign_keys _ _ _)), Hp|].
        apply elem_of_cons in Hin as [->|Hin]; [|exact (Ht t Hin Hf Hp)].
        apply orb_false_iff in En as [_ En]. congruence.
  - destruct (IH rest args) as [Hk Ht]; [lia|]. split; [exact Hk|].
    intros t Hin Hf Hp. apply elem_of_cons in Hin as [->|Hin]; [congruence|].
    exact (Ht t Hin Hf Hp).
Qed.

Lemma find_key {V} key (args : list (jsstring * V)) :
  match List.find (fun e => str_eqb (fst e) key) args with
  | Some e => fst e = key /\ e ∈ args
  | None => key ∉ map fst args
  end.
Proof.
  destruct (List.find _ args) as [e|] eqn:E.
  - apply find_some in E as [Hin Hk]. apply str_eqb_eq in Hk.
    split; [exact Hk|apply list_elem_of_In, Hin].
  - intros Hin. apply list_elem_of_In, in_map_iff in Hin as (e & <- & He).
    pose proof (find_none _ _ E e He) as Hn. cbn beta in Hn.
    rewrite str_eqb_refl in Hn. discriminate.
Qed.

Lemma prototype_name key :
  existsb (str_eqb key) prototype_names = true <-> key ∈ prototype_names.
Proof.
  rewrite existsb_exists. split.
  - intros (k & Hin & Hk). apply str_eqb_eq in Hk as ->. apply list_elem_of_In, Hin.
  - intros Hin. exists key. split; [apply list_elem_of_In, Hin|apply str_eqb_refl].
Qed.

(** X24.  What the script reads under a key after [parseArgs].  A string
    comes from a flag of the command line: it is [true] or the next token,
    which is not empty and no flag.  The flag [--__proto__] sets nothing,
    and the names of [Object.prototype] that no flag sets are read as its
    members, so that [requireArg] reports a key missing exactly when no
    flag sets it and the prototype has no member of that name. *)
Theorem parseArgs_values argv key :
  let flagged :=
    exists token, token ∈ argv /\ startsWith FLAG token = true /\ key = skipn 2 token in
  (forall value, arg key (parseArgs argv) = Own value ->
     truthy value = true
     /\ (value = TRUE \/ (value ∈ argv /\ startsWith FLAG value = false))
     /\ flagged /\ key <> PROTO)
  /\ (arg key (parseArgs argv) = Inherited
      <-> key ∈ prototype_names /\ (key = PROTO \/ ~ flagged))
  /\ (arg key (parseArgs argv) = Undefined <-> (key ∉ prototype_names) /\ ~ flagged)
  /\ (forall message, requireArg (parseArgs argv) key = Missing message <->
        arg key (parseArgs argv) = Undefined
        /\ message = js "Missing required argument: --" ++ key).
Proof.
  cbv zeta.
  pose proof (parseArgs_from_entries argv (length argv) argv [] (le_n _) (fun t Ht => Ht)
                (Forall_nil_2 _)) as Hall.
  destruct (parseArgs_from_keys (length argv) argv [] (le_n _)) as [_ Hkeys].
  fold (parseArgs argv) in Hall, Hkeys. rewrite Forall_forall in Hall.
  assert (Hproto : PROTO ∈ prototype_names).
  { apply prototype_name. reflexivity. }
  pose proof (find_key key (parseArgs argv)) as Hfind.
  unfold requireArg, arg.
  destruct (List.find _ (parseArgs argv)) as [[k value]|].
  - cbn beta iota. destruct Hfind as [Hk Hin]. simpl in Hk. subst k. cbn [snd].
    destruct (Hall _ Hin) as (Hflag & Hp & Ht & Hfrom). simpl in Hflag, Hp, Ht, Hfrom.
    split; [|split; [|split]].
    + intros v Hv. injection Hv as <-. auto.
    + split; [discriminate|]. intros [_ [Hk|Hk]]; contradiction.
    + split; [discriminate|]. intros [_ Hk]. contradiction.
    + intros message. simpl. destruct value; [discriminate|].
      split; [discriminate|]. intros [Hv _]. discriminate.
  - assert (Hnot : key = PROTO \/
                   ~ exists token, token ∈ argv /\ startsWith FLAG token = true
                                   /\ key = skipn 2 token).
    { destruct (decide (key = PROTO)) as [|Hp]; [left; assumption|right].
      intros (t & Hin & Hf & ->). exact (Hfind (Hkeys t Hin Hf Hp)). }
    destruct (existsb (str_eqb key) prototype_names) eqn:E; cbn beta iota;
      (split; [discriminate|]).
    + apply prototype_name in E. split; [|split].
      * split; [auto|reflexivity].
      * split; [discriminate|]. intros [Hk _]. contradiction.
      * intros message. split; [discriminate|]. intros [Hv _]. discriminate.
    + assert (Hk : key ∉ prototype_names).
      { intros Hk. apply prototype_name in Hk. congruence. }
      split; [|split].
      * split; [discriminate|]. intros [Hk' _]. contradiction.
      * split; [intros _|reflexivity]. split; [exact Hk|].
        destruct Hnot as [->|Hn]; [contradiction|exact Hn].
      * intros message. split.
        -- intros Hm. injection Hm as <-. split; reflexivity.
        -- intros [_ ->]. reflexivity.
Qed.

End BootstrapProps.

Lemma parseArgs_values_witness :
  Bootstrap.arg (js "orgId")
    (Bootstrap.parseArgs [js "--orgId"; js "acme"; js "stray"; js "--help"; js "--seatLimit"])
  = Bootstrap.Own (js "acme")
  /\ truthy (js "acme") = true.
Proof.
  split; [vm_compute; reflexivity|].
  apply (proj1 (parseArgs_values
                  [js "--orgId"; js "acme"; js "stray"; js "--help"; js "--seatLimit"]
                  (js "orgId")) (js "acme")).
  vm_compute. reflexivity.
Defined.

(** The command line of the usage text, with a stray token and two flags
    without a value; then a flag that sets nothing, and a name that the
    prototype answers although no flag gave it. *)
Example parseArgs_run :
  Bootstrap.parseArgs [js "--orgId"; js "acme"; js "stray"; js "--help"; js "--seatLimit"]
  = [(js "orgId", js "acme"); (js "help", js "true"); (js "seatLimit", js "true")]
  /\ Bootstrap.requireArg
       (Bootstrap.parseArgs [js "--orgId"; js "acme"; js "--help"]) (js "ownerUid")
     = Bootstrap.Missing (js "Missing required argument: --ownerUid")
  /\ Bootstrap.parseArgs [js "--__proto__"; js "x"; js "--toString"; js "y"]
     = [(js "toString", js "y")]
  /\ Bootstrap.requireArg (Bootstrap.parseArgs [js "--orgId"; js "acme"]) (js "constructor")
     = Bootstrap.Value Bootstrap.Inherited.
Proof. repeat split; vm_compute; reflexivity. Qed.

Section Toggle.

Lemma existsb_str_eqb x l : existsb (str_eqb x) l = true <-> x ∈ l.
Proof.
  rewrite existsb_exists, list_elem_of_In. split.
  - intros (y & Hy & E). apply str_eqb_eq in E. subst y. exact Hy.
  - intros Hx. exists x. split; [exact Hx|apply str_eqb_refl].
Qed.

(** X25.  Toggling an id flips its membership in the selection and leaves the
    other ids as they are; selecting an id and toggling it again gives
    the selection back. *)
Theorem toggle_flips_membership x l :
  (x ∈ toggleInheritSource x l <-> x ∉ l)
  /\ (forall y, y <> x -> (y ∈ toggleInheritSource x l <-> y ∈ l))
  /\ (x ∉ l -> toggleInheritSource x (toggleInheritSource x l) = l).
Proof.
  assert (Hfilter : forall y, y ∈ List.filter (fun id => negb (str_eqb id x)) l
                              <-> y ∈ l /\ y <> x).
  { intros y. rewrite !list_elem_of_In, filter_In, negb_true_iff. split.
    - intros [Hy Hn]. split; [exact Hy|]. intros ->. rewrite str_eqb_refl in Hn. discriminate.
    - intros [Hy Hn]. split; [exact Hy|]. apply str_eqb_neq. exact Hn. }
  unfold toggleInheritSource at 1 2.
  destruct (existsb (str_eqb x) l) eqn:E.
  - apply existsb_str_eqb in E. split; [|split].
    + rewrite Hfilter. split; [intros [_ Hn]; congruence|intros Hn; contradiction].
    + intros y Hy. rewrite Hfilter. tauto.
    + intros Hn. contradiction.
  - assert (Hx : x ∉ l).
    { intros Hin. apply existsb_str_eqb in Hin. congruence. }
    split; [|split].
    + split; [auto|]. intros _. apply elem_of_app. right. apply list_elem_of_singleton.
      reflexivity.
    + intros y Hy. rewrite elem_of_app, list_elem_of_singleton. tauto.
    + intros _. unfold toggleInheritSource. rewrite E.
      assert (Hin : existsb (str_eqb x) (l ++ [x]) = true).
      { apply existsb_str_eqb, elem_of_app. right. apply list_elem_of_singleton.
        reflexivity. }
      rewrite Hin, List.filter_app. simpl. rewrite str_eqb_refl. simpl. rewrite app_nil_r.
      clear Hin E Hfilter. induction l as [|y l IH]; [reflexivity|]. simpl.
      destruct (str_eqb y x) eqn:Ey.
      * apply str_eqb_eq in Ey. subst y. exfalso. apply Hx, elem_of_cons. auto.
      * simpl. f_equal. apply IH. intros Hin. apply Hx, elem_of_cons. auto.
Qed.

End Toggle.

Lemma toggle_flips_membership_witness :
  toggleInheritSource (js "doc1") (toggleInheritSource (js "doc1") [js "doc2"]) = [js "doc2"].
Proof.
  apply (proj2 (proj2 (toggle_flips_membership (js "doc1") [js "doc2"]))).
  intros Hin. apply list_elem_of_singleton in Hin. vm_compute in Hin. discriminate.
Defined.

(** * Properties of the team handlers *)

Section Members.

Lemma unique_grows l : forall seen,
  exists more,
    fold_left (fun seen s => if existsb (str_eqb s) seen then seen else seen ++ [s]) l seen
    = seen ++ more
    /\ forall x, x ∈ l -> x ∈ seen ++ more.
Proof.
  induction l as [|s l IH]; intros seen; simpl.
  - exists []. split; [symmetry; apply app_nil_r|].
    intros x Hx. apply elem_of_nil in Hx. contradiction.
  - destruct (existsb (str_eqb s) seen) eqn:Es.
    + destruct (IH seen) as (more & E & Hin). exists more. split; [exact E|].
      intros x Hx. apply elem_of_cons in Hx as [->|Hx]; [|exact (Hin x Hx)].
      apply elem_of_app. left. apply existsb_str_eqb, Es.
    + destruct (IH (seen ++ [s])) as (more & E & Hin). exists (s :: more).
      rewrite E, <- app_assoc. split; [reflexivity|].
      intros x Hx. apply elem_of_cons in Hx as [->|Hx].
      * apply elem_of_app. right. apply elem_of_cons. auto.
      * specialize (Hin x Hx). rewrite <- app_assoc in Hin. exact Hin.
Qed.

(** X26.  The members of a new team: the creator comes first, nobody is
    listed twice, and the others are the selected users. *)
Theorem memberUids_creator_first uid selected :
  (exists others, memberUids uid selected = uid :: others)
  /\ NoDup (memberUids uid selected)
  /\ forall x, x ∈ memberUids uid selected <-> x = uid \/ x ∈ selected.
Proof.
  unfold memberUids, HomePage.unique.
  destruct (unique_step (uid :: selected) [] NoDup_nil_2) as [Hnd Hsub].
  simpl in *.
  destruct (unique_grows selected [uid]) as (more & E & Hin).
  rewrite E in *. split; [exists more; reflexivity|]. split; [exact Hnd|].
  intros x. split.
  - intros Hx. destruct (Hsub x Hx) as [Hx'|Hx'].
    + apply elem_of_nil in Hx'. contradiction.
    + apply elem_of_cons in Hx'. exact Hx'.
  - intros [->|Hx]; [apply elem_of_cons; auto|]. exact (Hin x Hx).
Qed.

End Members.

Section Email.

(** When a greedy run of a class with the continuation [k] matches. *)
Lemma gtry_matches p lo k cs a : forall n b,
  (exists y, gtry p lo k cs n b a = Some y)
  <-> exists taken rest,
        a = taken ++ rest /\ forallb p taken = true
        /\ (lo <= n + length taken)%nat
        /\ exists y, k (MState (rev taken ++ b) rest cs) = Some y.
Proof.
  induction a as [|c a IH]; intros n b.
  - cbn [gtry]. split.
    + intros [y Hy]. exists [], []. destruct (lo <=? n)%nat eqn:E; [|discriminate].
      apply Nat.leb_le in E. repeat split; [simpl; lia|]. exists y. exact Hy.
    + intros (taken & rest & E & _ & Hlo & y & Hy).
      symmetry in E. apply app_eq_nil in E as [-> ->]. simpl in *.
      assert (Hn : (lo <=? n)%nat = true) by (apply Nat.leb_le; lia).
      rewrite Hn. exists y. exact Hy.
  - cbn [gtry]. split.
    + intros [y Hy]. destruct (p c) eqn:Ec.
      * destruct (gtry p lo k cs (S n) (c :: b) a) as [y'|] eqn:Eg.
        -- destruct (proj1 (IH (S n) (c :: b))) as (taken & rest & E & Hp & Hlo & Hk).
           { exists y'. exact Eg. }
           exists (c :: taken), rest. subst a. simpl. rewrite Ec, Hp.
           repeat split; [lia|]. rewrite <- app_assoc. exact Hk.
        -- exists [], (c :: a). destruct (lo <=? n)%nat eqn:E; [|discriminate].
           apply Nat.leb_le in E. repeat split; [simpl; lia|]. exists y. exact Hy.
      * exists [], (c :: a). destruct (lo <=? n)%nat eqn:E; [|discriminate].
        apply Nat.leb_le in E. repeat split; [simpl; lia|]. exists y. exact Hy.
    + intros (taken & rest & E & Hp & Hlo & y & Hy).
      destruct taken as [|c' taken].
      * simpl in *. subst rest.
        assert (Hn : (lo <=? n)%nat = true) by (apply Nat.leb_le; lia).
        rewrite Hn. destruct (p c); [|exists y; exact Hy].
        destruct (gtry p lo k cs (S n) (c :: b) a) as [y'|]; [exists y'; reflexivity|].
        exists y. exact Hy.
      * simpl in E. injection E as <- ->. simpl in Hp.
        apply andb_true_iff in Hp as [Hc Hp]. rewrite Hc.
        destruct (proj2 (IH (S n) (c :: b))) as [y' Hy'].
        { exists taken, rest. repeat split; [exact Hp|simpl in Hlo; lia|].
          exists y. simpl in Hy. rewrite <- app_assoc in Hy. exact Hy. }
        rewrite Hy'. exists y'. reflexivity.
Qed.

Lemma run_plus_unit p k b a cs :
  run (plus (Unit p)) Fwd k (MState b a cs) = gtry p 1 k cs 0 b a.
Proof. unfold plus. rewrite run_rep. apply rounds_unit. simpl. lia. Qed.

Lemma run_chr s k b a cs :
  run (chr s) Fwd k (MState b a cs)
  = match a with
    | c :: a' => if c =? unit_of s then k (MState (c :: b) a' cs) else None
    | [] => None
    end.
Proof. reflexivity. Qed.

Lemma run_bol k b a cs :
  run Bol Fwd k (MState b a cs) = match b with [] => k (MState b a cs) | _ :: _ => None end.
Proof. reflexivity. Qed.

Definition AT : Z := unit_of "@".
Definition DOT : Z := unit_of ".".

(** The shape that the check of an invitation accepts. *)
Definition email_shape (email : jsstring) : Prop :=
  exists local domain tld,
    email = local ++ AT :: domain ++ DOT :: tld
    /\ local <> [] /\ domain <> [] /\ tld <> []
    /\ forallb email_unit local = true
    /\ forallb email_unit domain = true
    /\ forallb email_unit tld = true.

Lemma is_some_iff {A} (o : option A) : (exists y, o = Some y) <-> o <> None.
Proof. destruct o; split; try congruence; eauto. intros [y Hy]. discriminate. Qed.

Lemma email_at_start email :
  (exists y, run emailRegex Fwd at_end (MState [] email []) = Some y) <-> email_shape email.
Proof.
  unfold emailRegex, seq. cbn [fold_right].
  rewrite run_cat_fwd, run_bol, run_cat_fwd, run_plus_unit, gtry_matches.
  unfold email_shape. split.
  - intros (local & rest & -> & Hl & Hlo & y & Hy).
    rewrite run_cat_fwd, run_chr in Hy. destruct rest as [|c rest]; [discriminate|].
    destruct (c =? unit_of "@") eqn:Ec; [|discriminate]. apply Z.eqb_eq in Ec. subst c.
    rewrite run_cat_fwd, run_plus_unit in Hy.
    destruct (proj1 (gtry_matches _ _ _ _ _ _ _) (ex_intro _ y Hy))
      as (domain & rest' & -> & Hd & Hdo & y' & Hy').
    rewrite run_cat_fwd, run_chr in Hy'. destruct rest' as [|c rest']; [discriminate|].
    destruct (c =? unit_of ".") eqn:Ec; [|discriminate]. apply Z.eqb_eq in Ec. subst c.
    rewrite run_cat_fwd, run_plus_unit in Hy'.
    destruct (proj1 (gtry_matches _ _ _ _ _ _ _) (ex_intro _ y' Hy'))
      as (tld & rest'' & -> & Ht & Hto & y'' & Hy'').
    cbn [run] in Hy''. unfold at_end in Hy''. cbn [after] in Hy''.
    destruct rest''; [|discriminate]. rewrite app_nil_r.
    exists local, domain, tld. repeat split; try assumption.
    + destruct local; [simpl in Hlo; lia|discriminate].
    + destruct domain; [simpl in Hdo; lia|discriminate].
    + destruct tld; [simpl in Hto; lia|discriminate].
  - intros (local & domain & tld & -> & Hl & Hd & Ht & Hpl & Hpd & Hpt).
    exists local, (AT :: domain ++ DOT :: tld). repeat split; [exact Hpl| |].
    { destruct local; [congruence|simpl; lia]. }
    apply is_some_iff. rewrite run_cat_fwd, run_chr. unfold AT. rewrite Z.eqb_refl.
    rewrite run_cat_fwd, run_plus_unit. apply is_some_iff, gtry_matches.
    exists domain, (DOT :: tld). repeat split; [exact Hpd| |].
    { destruct domain; [congruence|simpl; lia]. }
    apply is_some_iff. rewrite run_cat_fwd, run_chr. unfold DOT. rewrite Z.eqb_refl.
    rewrite run_cat_fwd, run_plus_unit. apply is_some_iff, gtry_matches.
    exists tld, []. repeat split; [symmetry; apply app_nil_r|exact Hpt| |].
    { destruct tld; [congruence|simpl; lia]. }
    eexists. reflexivity.
Qed.

Lemma email_not_later c b a : test_to_end emailRegex (c :: b) a = false.
Proof.
  revert c b. induction a as [|x a IH]; intros c b; cbn [test_to_end].
  - reflexivity.
  - unfold emailRegex at 1, seq at 1. cbn [fold_right]. rewrite run_cat_fwd, run_bol.
    apply IH.
Qed.

(** X27.  The check of an invitation accepts exactly the addresses made of a
    local part, one [@], a domain, a dot and a last part, the three
    parts not empty and without white space or [@]. *)
Theorem looksLikeEmail_shape email : looksLikeEmail email = true <-> email_shape email.
Proof.
  rewrite <- email_at_start. unfold looksLikeEmail.
  destruct email as [|c email]; cbn [test_to_end].
  - destruct (run emailRegex Fwd at_end (MState [] [] [])) as [y|]; split;
      try discriminate; eauto. intros [y Hy]. discriminate.
  - rewrite email_not_later.
    destruct (run emailRegex Fwd at_end (MState [] (c :: email) [])) as [y|]; split;
      try discriminate; eauto. intros [y Hy]. discriminate.
Qed.

End Email.

Lemma looksLikeEmail_shape_witness :
  looksLikeEmail (js "a.b@example.co.jp") = true /\ looksLikeEmail (js "a@b@c.jp") = false.
Proof.
  split.
  - apply (proj2 (looksLikeEmail_shape (js "a.b@example.co.jp"))).
    exists (js "a.b"), (js "example.co"), (js "jp"). repeat split; vm_compute; discriminate.
  - vm_compute. reflexivity.
Defined.

(** * Properties of the text modal *)

Section TextModalProps.
Context `{Platform}.
Import HomePage TextModal.

Lemma analyze_run api fileName text w :
  fst (analyze api fileName text w) = analyzePdfText api fileName text
  /\ outage_after (snd (analyze api fileName text w)) = outage_after w
  /\ firestore (snd (analyze api fileName text w)) = firestore w
  /\ calls (snd (analyze api fileName text w)) = calls w ++ [ANALYZE_API].
Proof. unfold analyze, bind, modify. cbn. repeat split. Qed.

Lemma documents_not_chats v uid chat : [USERS; uid; CHATS] <> documents_of v uid chat.
Proof.
  unfold documents_of. destruct (is_team v); intros E.
  - apply (f_equal length) in E. simpl in E. lia.
  - injection E as E. vm_compute in E. discriminate.
Qed.

(** X28.  A text that the modal submits into a selected chat, with the
    backend up and an analysis from the route: the route is called, and
    the text is stored as a new document of the active scope, named
    after its title, with the analysis, the source type [text] and no
    storage path, together with a message of the assistant that
    summarises it. *)
Theorem text_submit_stores api v w uid chat textTitle textBody analysis :
  authUser v = Some uid ->
  selectedChatId v = Some chat ->
  truthy chat = true ->
  truthy (sanitizeExtractedText textBody) = true ->
  outage_after w = None ->
  let title := or_else (trim textTitle) TEXT_KNOWLEDGE in
  let body := sanitizeExtractedText textBody in
  analyzePdfText api title body = Ok analysis ->
  let w' := snd (handleTextModalSubmit api v textTitle textBody w) in
  called ANALYZE_API w'
  /\ exists id t,
       collection w (documents_of v uid chat) !! id = None
       /\ stored (documents_of v uid chat) id
            (text_document title body (fst analysis) (snd analysis) t) w'
       /\ exists id' t',
            stored [USERS; uid; CHATS; chat; MESSAGES] id'
              (MessageOf (Message.Make Message.assistant
                            (buildPdfSummaryMessage (title ++ js ".txt")
                               (fst analysis) (snd analysis)) t')) w'.
Proof.
  intros Hu Hchat Htc Hbody Hup title body Han. cbv zeta.
  unfold handleTextModalSubmit, ensureActiveChatId. rewrite Hu, Hchat.
  unfold present. cbn [default from_option id]. rewrite Htc.
  rewrite (bind_ret (Some chat)). unfold present. cbn [default from_option id].
  rewrite Htc. cbn [negb].
  fold title body. fold body in Hbody. rewrite Hbody. cbn [negb].
  set (docs := documents_of v uid chat).
  set (messages := [USERS; uid; CHATS; chat; MESSAGES]).
  set (D := text_document title body (fst analysis) (snd analysis)).
  set (Mg := fun t => MessageOf (Message.Make Message.assistant
                        (buildPdfSummaryMessage (title ++ js ".txt")
                           (fst analysis) (snd analysis)) t)).
  destruct (analyze_run api title body w) as (Hf0 & Hup0 & Hfs0 & Hcalls0).
  rewrite Han in Hf0. rewrite Hup in Hup0.
  set (w1 := snd (analyze api title body w)) in *.
  destruct (addDoc_up docs D w1 Hup0) as (Hf1 & Hup1 & _ & Hst1).
  set (w2 := snd (addDoc docs D w1)) in *.
  destruct (addDoc_up messages Mg w2 Hup1) as (Hf2 & _ & _ & Hst2).
  set (w3 := snd (addDoc messages Mg w2)) in *.
  set (BODY := bind (analyze api title body) _).
  assert (Hb : snd (BODY w) = snd (updateDoc [USERS; uid; CHATS] chat w3)).
  { unfold BODY. rewrite snd_bind, Hf0. fold w1. fold D docs.
    rewrite snd_bind, Hf1. fold w2. fold Mg messages.
    rewrite snd_bind, Hf2. reflexivity. }
  assert (Hend : forall P : World -> Prop,
             (forall c, stable P (logError c)) ->
             stable P (updateDoc [USERS; uid; CHATS] chat) ->
             P w3 -> P (snd (try_catch BODY (fun _ => logError (js "text-modal-submit")) w))).
  { intros P Hl Hud Hw3.
    assert (HP : P (snd (BODY w))) by (rewrite Hb; apply Hud, Hw3).
    unfold try_catch. destruct (BODY w) as [[u|e] wB]; [exact HP|].
    apply Hl, HP. }
  split.
  - apply (Hend (called ANALYZE_API)); auto using called_logError, called_updateDoc.
    apply called_addDoc, called_addDoc. unfold called. rewrite Hcalls0.
    apply elem_of_app. right. apply list_elem_of_singleton. reflexivity.
  - exists (auto_id w1 docs), (clock w1). split.
    { destruct (auto_id_fresh w1 docs) as (_ & _ & Hnew).
      unfold collection in *. rewrite Hfs0 in Hnew. exact Hnew. }
    split.
    + apply (Hend (stored docs (auto_id w1 docs) (D (clock w1))));
        auto using stored_logError.
      * apply stored_updateDoc, documents_not_chats.
      * apply stored_addDoc, Hst1.
    + exists (auto_id w2 messages), (clock w2).
      apply (Hend (stored messages (auto_id w2 messages) (Mg (clock w2))));
        auto using stored_logError.
      apply stored_updateDoc. unfold messages. intros E.
      apply (f_equal length) in E. simpl in E. lia.
Qed.

(** X29.  The modal asks for the active chat before it looks at the text:
    with no chat selected, a blank text still creates a personal thread
    and selects it, and writes nothing else. *)
Theorem blank_text_still_creates_chat api v w uid textTitle textBody :
  authUser v = Some uid ->
  activeChat v = Personal ->
  present (selectedChatId v) = false ->
  sanitizeExtractedText textBody = [] ->
  outage_after w = None ->
  let chats := [USERS; uid; CHATS] in
  let id := auto_id w chats in
  let w' := snd (handleTextModalSubmit api v textTitle textBody w) in
  collection w chats !! id = None
  /\ stored chats id (ChatOf (Thread.Make Thread.personal [] [] (clock w) (clock w))) w'
  /\ st_selectedChatId w' = Some id
  /\ calls w' = calls w ++ [AddDoc chats id].
Proof.
  intros Hu Ha Hsel Hbody Hup. cbv zeta.
  destruct (auto_id_fresh w [USERS; uid; CHATS]) as (Hne & _ & Hnew).
  assert (Hid : truthy (auto_id w [USERS; uid; CHATS]) = true).
  { destruct (auto_id w [USERS; uid; CHATS]); [congruence|reflexivity]. }
  unfold handleTextModalSubmit, ensureActiveChatId, createNewChatThread, is_team.
  rewrite Hu, Ha, Hsel, Hbody. cbn [andb].
  unfold addDoc, backend, logError.
  repeat unfold bind, modify, finally, try_catch, get, ret.
  cbn. rewrite Hup. cbn. unfold present. cbn.
  change (auto_id (setCreatingChat true w) [USERS; uid; CHATS])
    with (auto_id w [USERS; uid; CHATS]).
  rewrite Hid. cbn.
  repeat split; try assumption.
  unfold stored, collection. cbn. rewrite lookup_insert_eq. cbn. apply lookup_insert_eq.
Qed.

Lemma plan_of_json_total p : exists q, PdfAnalyze.plan_of_json (json_of_plan p) = Some q.
Proof.
  destruct p as [name price note]. unfold PdfAnalyze.plan_of_json, json_of_plan.
  cbn [Plan.name Plan.note Plan.priceMonthlyYen].
  set (members := [(js "name", JStr name); _; _]).
  assert (Ename : prop (js "name") (JObj members) = Some (JStr name)) by reflexivity.
  assert (Enote : prop (js "note") (JObj members) = Some (JStr note)) by reflexivity.
  rewrite Ename, Enote. cbn [nullish String_of mbind option_bind].
  eexists. reflexivity.
Qed.

Lemma plans_parse_total ps :
  exists ps', parsePricingPlans (Some (JArr (map json_of_plan ps))) = Some ps'.
Proof.
  unfold parsePricingPlans.
  assert (Hm : exists qs, mapM PdfAnalyze.plan_of_json (map json_of_plan ps) = Some qs).
  { induction ps as [|p ps [qs IH]]; [exists []; reflexivity|].
    cbn [map mapM]. destruct (plan_of_json_total p) as [q ->]. cbn.
    rewrite IH. eexists. reflexivity. }
  destruct Hm as [qs ->]. eexists. reflexivity.
Qed.

End TextModalProps.

Section OverRoute.
Context `{Platform}.
Import HomePage TextModal.
Hypothesis cjk_not_space : forall c, script_cjk c = true -> is_space c = false.

(** NFKC does not make white space of anything else: no character other
    than white space has a decomposition of white space only. *)
Hypothesis nfkc_keeps_content :
  forall s, nonspace s <> [] -> nonspace (normalize_NFKC s) <> [].

Lemma clean_content s : clean s <> [] <-> nonspace s <> [].
Proof.
  destruct (thinned_clean s) as [Hn _].
  rewrite <- Hn. split.
  - intros Hc Hno. destruct (clean s) as [|c q] eqn:E; [congruence|].
    pose proof (proj1 (trim_ends _) c q E) as Hs.
    rewrite (nonspace_unit c q Hs) in Hno. discriminate.
  - intros Hno E. rewrite E in Hno. apply Hno. reflexivity.
Qed.

(** X30.  The route never refuses what the text modal sends: the modal
    submits only a text whose normalised form is not empty, so that it
    has a unit that is no white space; the normalisation of the route
    keeps one, and the page reads the answer as an analysis. *)
Theorem text_modal_analysis_succeeds env title textBody :
  truthy (sanitizeExtractedText textBody) = true ->
  exists analysis,
    analyzePdfText (fun b => PdfAnalyze.POST env (Some b)) title
      (sanitizeExtractedText textBody)
    = Ok analysis.
Proof.
  intros Hbody. set (body := sanitizeExtractedText textBody) in *.
  assert (Hkept : truthy (PdfAnalyze.sanitizeText body) = true).
  { assert (Hne : PdfAnalyze.sanitizeText body <> []).
    { rewrite (sanitizeText_clean cjk_not_space). apply clean_content.
      apply nfkc_keeps_content. unfold body.
      rewrite (sanitizeExtractedText_clean cjk_not_space).
      rewrite (proj1 (thinned_clean _)). apply clean_content.
      rewrite <- (sanitizeExtractedText_clean cjk_not_space). fold body.
      intros E. rewrite E in Hbody. discriminate. }
    destruct (PdfAnalyze.sanitizeText body); [congruence|reflexivity]. }
  assert (Hr : exists r, PdfAnalyze.POST env (Some (analyze_request title body))
                         = Some (PdfAnalyze.ok200 r)).
  { unfold PdfAnalyze.POST, analyze_request.
    change (prop (js "text") (JObj [(js "fileName", JStr title); (js "text", JStr body)]))
      with (Some (JStr body) : option (json number)).
    change (prop (js "fileName") (JObj [(js "fileName", JStr title); (js "text", JStr body)]))
      with (Some (JStr title) : option (json number)).
    cbn [nullish String_of]. rewrite Hkept. cbn [negb].
    assert (Hfb : exists r, PdfAnalyze.ok200
                              <$> PdfAnalyze.fallbackAnalyze (PdfAnalyze.sanitizeText body)
                            = Some (PdfAnalyze.ok200 r)).
    { destruct (fallbackAnalyze_total (PdfAnalyze.sanitizeText body)) as (ms & _ & ->).
      eexists. reflexivity. }
    repeat match goal with
           | |- context [match ?x with _ => _ end] => destruct x eqn:?
           end;
      try exact Hfb; eexists; reflexivity. }
  destruct Hr as [r Hr]. unfold analyzePdfText. fold (analyze_request title body).
  rewrite Hr. cbn [PdfAnalyze.ok200 PdfAnalyze.status PdfAnalyze.body json_of_body].
  set (members := [(js "summary", JStr (PdfAnalyze.summary r)); _]).
  assert (Es : prop (js "summary") (JObj members) = Some (JStr (PdfAnalyze.summary r)))
    by reflexivity.
  assert (Ep : prop (js "plans") (JObj members)
               = Some (JArr (map json_of_plan (PdfAnalyze.plans r)))) by reflexivity.
  rewrite Es, Ep. destruct (plans_parse_total (PdfAnalyze.plans r)) as [ps' ->].
  eexists. reflexivity.
Qed.

End OverRoute.


Module Examples8.
Import HomePage.

Definition route (b : json Z) : option PdfAnalyze.response :=
  PdfAnalyze.POST Examples4.no_key (Some b).

Definition no_chat_view : View :=
  {| authUser := Some (js "u1"); activeChat := Personal; teams := [];
     selectedChatId := None; selectedKnowledge := None;
     globalSources := []; sources := [];
     question := []; sending := false |}.

Definition MEMO : jsstring := js "Basic 3000円/月".

Definition memo_analysis : jsstring * list (@PricingPlan ref_platform) :=
  (MEMO, [Plan.Make (js "Basic") (Some 3000) []]).
End Examples8.

Lemma text_submit_stores_witness :
  @HomePage.analyzePdfText ref_platform Examples8.route (js "Memo") Examples8.MEMO
  = HomePage.Ok Examples8.memo_analysis
  /\ called TextModal.ANALYZE_API
       (snd (@TextModal.handleTextModalSubmit ref_platform Examples8.route
               Examples.personal_view (js " Memo ") Examples8.MEMO Examples.world)).
Proof.
  assert (E : @HomePage.analyzePdfText ref_platform Examples8.route (js "Memo") Examples8.MEMO
              = HomePage.Ok Examples8.memo_analysis)
    by (vm_compute; reflexivity).
  split; [exact E|].
  apply (@text_submit_stores ref_platform Examples8.route Examples.personal_view Examples.world
           (js "u1") (js "chat1") (js " Memo ") Examples8.MEMO Examples8.memo_analysis);
    [reflexivity|reflexivity|reflexivity|vm_compute; reflexivity|reflexivity|exact E].
Defined.

Lemma blank_text_still_creates_chat_witness :
  let chats := [HomePage.USERS; js "u1"; HomePage.CHATS] in
  let id := HomePage.auto_id Examples.world chats in
  let w' := snd (@TextModal.handleTextModalSubmit ref_platform Examples8.route
                   Examples8.no_chat_view (js "Memo") (js "   ") Examples.world) in
  HomePage.collection Examples.world chats !! id = None
  /\ stored chats id
       (HomePage.ChatOf (Thread.Make Thread.personal [] []
                           (HomePage.clock Examples.world) (HomePage.clock Examples.world)))
       w'
  /\ HomePage.st_selectedChatId w' = Some id
  /\ HomePage.calls w' = HomePage.calls Examples.world ++ [HomePage.AddDoc chats id].
Proof.
  apply (@blank_text_still_creates_chat ref_platform Examples8.route Examples8.no_chat_view
           Examples.world (js "u1") (js "Memo") (js "   "));
    vm_compute; reflexivity.
Defined.

Lemma marks_nfkc_keeps_content s :
  nonspace s <> [] -> nonspace (marks_NFKC s) <> [].
Proof.
  unfold marks_NFKC. destruct (str_eqb s KA_MARKS); [|auto].
  intros _. vm_compute. discriminate.
Qed.

Lemma text_modal_analysis_succeeds_witness :
  exists analysis,
    @HomePage.analyzePdfText marks_platform
      (fun b => @PdfAnalyze.POST marks_platform Examples4.no_key (Some b))
      (js "Memo") (@HomePage.sanitizeExtractedText marks_platform KA_MARKS_GAP)
    = HomePage.Ok analysis.
Proof.
  apply (@text_modal_analysis_succeeds marks_platform
           marks_cjk_not_space marks_nfkc_keeps_content).
  vm_compute. reflexivity.
Defined.
